(** * NeoFi event API: versioning, sharing, rollback and diff

    A shallow embedding of the request handlers of [main.py] over the
    tables of [models.py] and the request bodies of [schemas.py].

    - A table is the list of its rows in insertion order (no table of
      [models.py] declares a uniqueness constraint besides the primary
      keys, so duplicates are representable).
    - A handler is a computation in a state-and-exception monad over the
      SQLAlchemy session: the transaction's view of the tables, the last
      committed tables, and the storage layer's answers to the coming
      [db.commit()] calls.
    - The wall-clock columns [created_at] and [updated_at] are filled by
      column defaults and read by no handler for a decision; the rows of
      the model leave them out. *)

From Stdlib Require Import ZArith List String Bool Lia DecimalString.
Import ListNotations.
Local Open Scope string_scope.
Local Open Scope list_scope.
Local Open Scope Z_scope.

(* ================================================================== *)
(** ** models.py                                                        *)
(* ================================================================== *)

Inductive Role : Type := OWNER | EDITOR | VIEWER.

Inductive RecurrencePattern : Type := DAILY | WEEKLY | MONTHLY | YEARLY | CUSTOM.

(** A [datetime] value, as its position on the time line. *)
Definition datetime : Type := Z.

Module User.
Record t : Type := mk {
  id : Z;
  username : string;
  email : string;
  hashed_password : string
}.
End User.

(** The eight editable columns shared by [Event] and [EventVersion].
    Every one of them is nullable in [models.py] ([Column(String)] and the
    like, without [nullable=False]). *)
Module Fields.
Record t : Type := mk {
  title : option string;
  description : option string;
  start_time : option datetime;
  end_time : option datetime;
  location : option string;
  is_recurring : option bool;
  recurrence_pattern : option RecurrencePattern;
  recurrence_end_date : option datetime
}.
End Fields.

Module Event.
Record t : Type := mk {
  id : Z;
  fields : Fields.t;
  owner_id : Z
}.
End Event.

Module EventVersion.
(** [event_id] is a nullable foreign key: the session writes NULL into it
    when the parent event is deleted (see [db_delete_event]). *)
Record t : Type := mk {
  id : Z;
  event_id : option Z;
  fields : Fields.t;
  modified_by_id : Z;
  version_number : Z
}.
End EventVersion.

(** A row of the association table [event_permissions]. *)
Module Permission.
Record t : Type := mk {
  event_id : Z;
  user_id : Z;
  role : Role
}.
End Permission.

(* ================================================================== *)
(** ** schemas.py                                                       *)
(* ================================================================== *)

Module EventCreate.
Record t : Type := mk {
  title : string;
  description : string;
  start_time : datetime;
  end_time : datetime;
  location : option string;
  is_recurring : bool;
  recurrence_pattern : option RecurrencePattern;
  recurrence_end_date : option datetime
}.

(** [event.dict()], as the keyword arguments of a model constructor. *)
Definition dict (event : t) : Fields.t :=
  Fields.mk (Some (title event)) (Some (description event))
            (Some (start_time event)) (Some (end_time event))
            (location event) (Some (is_recurring event))
            (recurrence_pattern event) (recurrence_end_date event).
End EventCreate.

(** [EventUpdate]: every field is [Optional[...] = None].  A field of the
    request body is either unset ([None]) or set ([Some v]), and a set
    field may carry JSON null ([Some None]). *)
Module EventUpdate.
Record t : Type := mk {
  title : option (option string);
  description : option (option string);
  start_time : option (option datetime);
  end_time : option (option datetime);
  location : option (option string);
  is_recurring : option (option bool);
  recurrence_pattern : option (option RecurrencePattern);
  recurrence_end_date : option (option datetime)
}.
End EventUpdate.

Module PermissionCreate.
Record t : Type := mk {
  user_id : Z;
  role : Role
}.
End PermissionCreate.

(* ================================================================== *)
(** ** Attribute access by name                                         *)
(* ================================================================== *)

Inductive FieldName : Type :=
| f_title | f_description | f_start_time | f_end_time
| f_location | f_is_recurring | f_recurrence_pattern | f_recurrence_end_date.

Definition field_str (f : FieldName) : string :=
  match f with
  | f_title => "title"
  | f_description => "description"
  | f_start_time => "start_time"
  | f_end_time => "end_time"
  | f_location => "location"
  | f_is_recurring => "is_recurring"
  | f_recurrence_pattern => "recurrence_pattern"
  | f_recurrence_end_date => "recurrence_end_date"
  end.

(** The Python type held by a column when it is not NULL. *)
Definition pytype (f : FieldName) : Type :=
  match f with
  | f_title | f_description | f_location => string
  | f_start_time | f_end_time | f_recurrence_end_date => datetime
  | f_is_recurring => bool
  | f_recurrence_pattern => RecurrencePattern
  end.

Definition column (f : FieldName) : Type := option (pytype f).

Definition getattr (c : Fields.t) (f : FieldName) : column f :=
  match f return column f with
  | f_title => Fields.title c
  | f_description => Fields.description c
  | f_start_time => Fields.start_time c
  | f_end_time => Fields.end_time c
  | f_location => Fields.location c
  | f_is_recurring => Fields.is_recurring c
  | f_recurrence_pattern => Fields.recurrence_pattern c
  | f_recurrence_end_date => Fields.recurrence_end_date c
  end.

Definition setattr (c : Fields.t) (f : FieldName) : column f -> Fields.t :=
  let '(Fields.mk t d s e l r p x) := c in
  match f return column f -> Fields.t with
  | f_title => fun v => Fields.mk v d s e l r p x
  | f_description => fun v => Fields.mk t v s e l r p x
  | f_start_time => fun v => Fields.mk t d v e l r p x
  | f_end_time => fun v => Fields.mk t d s v l r p x
  | f_location => fun v => Fields.mk t d s e v r p x
  | f_is_recurring => fun v => Fields.mk t d s e l v p x
  | f_recurrence_pattern => fun v => Fields.mk t d s e l r v x
  | f_recurrence_end_date => fun v => Fields.mk t d s e l r p v
  end.

(** A value as it appears in a JSON response ([Any] in [schemas.DiffItem]). *)
Inductive Value : Type :=
| VNone
| VStr (s : string)
| VDatetime (d : datetime)
| VBool (b : bool)
| VPattern (p : RecurrencePattern).

Definition py (f : FieldName) : column f -> Value :=
  match f return column f -> Value with
  | f_title | f_description | f_location =>
      fun v => match v with Some s => VStr s | None => VNone end
  | f_start_time | f_end_time | f_recurrence_end_date =>
      fun v => match v with Some d => VDatetime d | None => VNone end
  | f_is_recurring =>
      fun v => match v with Some b => VBool b | None => VNone end
  | f_recurrence_pattern =>
      fun v => match v with Some p => VPattern p | None => VNone end
  end.

Definition FieldName_eq_dec (f g : FieldName) : {f = g} + {f <> g}.
Proof. decide equality. Defined.

Definition RecurrencePattern_eq_dec (p q : RecurrencePattern) : {p = q} + {p <> q}.
Proof. decide equality. Defined.

Definition pytype_eq_dec (f : FieldName) : forall a b : pytype f, {a = b} + {a <> b} :=
  match f return forall a b : pytype f, {a = b} + {a <> b} with
  | f_title | f_description | f_location => string_dec
  | f_start_time | f_end_time | f_recurrence_end_date => Z.eq_dec
  | f_is_recurring => bool_dec
  | f_recurrence_pattern => RecurrencePattern_eq_dec
  end.

Definition column_eq_dec (f : FieldName) (a b : column f) : {a = b} + {a <> b}.
Proof. decide equality. apply pytype_eq_dec. Defined.

(** Python's [val1 != val2] on two values of the same column. *)
Definition py_ne (f : FieldName) (a b : column f) : bool :=
  if column_eq_dec f a b then false else true.

(* ================================================================== *)
(** ** The database and the session                                     *)
(* ================================================================== *)

Record Store : Type := mkStore {
  users : list User.t;
  events : list Event.t;
  event_versions : list EventVersion.t;
  event_permissions : list Permission.t
}.

Definition set_events (f : list Event.t -> list Event.t) (st : Store) : Store :=
  mkStore (users st) (f (events st)) (event_versions st) (event_permissions st).

Definition set_event_versions (f : list EventVersion.t -> list EventVersion.t)
    (st : Store) : Store :=
  mkStore (users st) (events st) (f (event_versions st)) (event_permissions st).

Definition set_event_permissions (f : list Permission.t -> list Permission.t)
    (st : Store) : Store :=
  mkStore (users st) (events st) (event_versions st) (f (event_permissions st)).

(** An integer primary key given by the database on INSERT: one more than
    the largest key in the table (1 in an empty table). *)
Definition next_id (ids : list Z) : Z := 1 + fold_right Z.max 0 ids.

(** [committed] is what every other request sees; [working] is the view of
    the session's open transaction; [commit_plan] holds the storage layer's
    answers to the coming commits ([false]: the commit raises), and an
    exhausted plan lets every further commit through. *)
Record Session : Type := mkSession {
  committed : Store;
  working : Store;
  commit_plan : list bool
}.

Inductive Exception : Type :=
| HTTPException (status_code : Z) (detail : string)
| RequestValidationError
| StorageError
| AttributeError.

Inductive Outcome (A : Type) : Type :=
| Return (a : A)
| Raise (e : Exception).
Arguments Return {A} a.
Arguments Raise {A} e.

Definition M (A : Type) : Type := Session -> Outcome A * Session.

Definition ret {A} (a : A) : M A := fun s => (Return a, s).

Definition bind {A B} (c : M A) (k : A -> M B) : M B :=
  fun s => match c s with
           | (Return a, s') => k a s'
           | (Raise e, s') => (Raise e, s')
           end.

Definition raise {A} (e : Exception) : M A := fun s => (Raise e, s).

Declare Scope db_scope.
Delimit Scope db_scope with db.
Notation "x <- c ;; k" := (bind c (fun x => k))
  (at level 61, c at next level, right associativity) : db_scope.
Notation "c ;; k" := (bind c (fun _ => k))
  (at level 61, right associativity) : db_scope.
Local Open Scope db_scope.

(** [db.query(...)...first()] / [.all()]: a read in the open transaction. *)
Definition db_query {A} (q : Store -> A) : M A :=
  fun s => (Return (q (working s)), s).

(** A write in the open transaction ([db.add], [db.delete], [db.execute],
    an attribute set on a loaded row). *)
Definition db_write (f : Store -> Store) : M unit :=
  fun s => (Return tt, mkSession (committed s) (f (working s)) (commit_plan s)).

(** [db.commit()]: publishes the transaction, or raises after rolling it
    back. *)
Definition db_commit : M unit :=
  fun s =>
    match commit_plan s with
    | false :: plan => (Raise StorageError, mkSession (committed s) (committed s) plan)
    | true :: plan => (Return tt, mkSession (working s) (working s) plan)
    | [] => (Return tt, mkSession (working s) (working s) [])
    end.

Fixpoint for_each {A} (xs : list A) (body : A -> M unit) : M unit :=
  match xs with
  | [] => ret tt
  | x :: xs' => body x ;; for_each xs' body
  end.

(** *** Queries *)

Definition event_by_id (event_id : Z) (st : Store) : option Event.t :=
  find (fun e => Event.id e =? event_id) (events st).

Definition user_by_id (user_id : Z) (st : Store) : option User.t :=
  find (fun u => User.id u =? user_id) (users st).

Definition of_event (event_id : Z) (v : EventVersion.t) : bool :=
  match EventVersion.event_id v with
  | Some e => e =? event_id
  | None => false
  end.

(** [filter(EventVersion.event_id == event_id)] *)
Definition versions_of (event_id : Z) (st : Store) : list EventVersion.t :=
  filter (of_event event_id) (event_versions st).

(** [filter(event_id == ..., version_number == version_id).first()] *)
Definition version_by_number (event_id version_id : Z) (st : Store)
    : option EventVersion.t :=
  find (fun v => EventVersion.version_number v =? version_id)
       (versions_of event_id st).

(** The first row of a list in descending [version_number] order. *)
Fixpoint greatest (vs : list EventVersion.t) : option EventVersion.t :=
  match vs with
  | [] => None
  | v :: vs' =>
      match greatest vs' with
      | None => Some v
      | Some w =>
          if EventVersion.version_number v <? EventVersion.version_number w
          then Some w else Some v
      end
  end.

(** [filter(event_id == ...).order_by(version_number.desc()).first()] *)
Definition latest_version (event_id : Z) (st : Store) : option EventVersion.t :=
  greatest (versions_of event_id st).

Fixpoint insert_by_number (v : EventVersion.t) (vs : list EventVersion.t)
    : list EventVersion.t :=
  match vs with
  | [] => [v]
  | w :: vs' =>
      if EventVersion.version_number w <=? EventVersion.version_number v
      then w :: insert_by_number v vs'
      else v :: vs
  end.

(** [filter(event_id == ...).order_by(version_number).all()] *)
Definition versions_ascending (event_id : Z) (st : Store) : list EventVersion.t :=
  fold_left (fun acc v => insert_by_number v acc) (versions_of event_id st) [].

Definition grant_matches (event_id user_id : Z) (p : Permission.t) : bool :=
  (Permission.event_id p =? event_id) && (Permission.user_id p =? user_id).

(** [filter(c.event_id == event_id)] on [event_permissions] *)
Definition permissions_of (event_id : Z) (st : Store) : list Permission.t :=
  filter (fun p => Permission.event_id p =? event_id) (event_permissions st).

(** [filter(c.event_id == event_id, c.user_id == user_id)] *)
Definition grants_of (event_id user_id : Z) (st : Store) : list Permission.t :=
  filter (grant_matches event_id user_id) (event_permissions st).

(** *** Writes *)

(** [db.add(db_event)] for a new [models.Event]; the row returned carries
    the primary key that [db.refresh] makes visible after the commit. *)
Definition db_add_event (fields : Fields.t) (owner_id : Z) : M Event.t :=
  ids <- db_query (fun st => map Event.id (events st)) ;;
  let db_event := Event.mk (next_id ids) fields owner_id in
  db_write (set_events (fun es => es ++ [db_event])) ;;
  ret db_event.

(** [db.add(models.EventVersion(...))] *)
Definition db_add_version (event_id : Z) (fields : Fields.t)
    (modified_by_id version_number : Z) : M unit :=
  ids <- db_query (fun st => map EventVersion.id (event_versions st)) ;;
  db_write (set_event_versions (fun vs =>
    vs ++ [EventVersion.mk (next_id ids) (Some event_id) fields
                           modified_by_id version_number])).

(** The attribute writes on a loaded [Event], sent as an UPDATE of the row
    with its primary key. *)
Definition db_set_event (db_event : Event.t) : M unit :=
  db_write (set_events (map (fun e =>
    if Event.id e =? Event.id db_event then db_event else e))).

(** [db.refresh(db_event)]: the row is read again by primary key. *)
Definition db_refresh (db_event : Event.t) : M Event.t :=
  row <- db_query (event_by_id (Event.id db_event)) ;;
  match row with
  | Some e => ret e
  | None => raise StorageError
  end.

(** [db.delete(db_event)] on the tables.  Neither relationship of [Event]
    declares a delete cascade: the unit of work removes the event's rows of
    the [secondary] table [event_permissions] and writes NULL into the
    [event_id] of its versions. *)
Definition delete_rows (db_event : Event.t) (st : Store) : Store :=
  mkStore (users st)
    (filter (fun e => negb (Event.id e =? Event.id db_event)) (events st))
    (map (fun v =>
            if of_event (Event.id db_event) v
            then EventVersion.mk (EventVersion.id v) None (EventVersion.fields v)
                   (EventVersion.modified_by_id v) (EventVersion.version_number v)
            else v)
         (event_versions st))
    (filter (fun p => negb (Permission.event_id p =? Event.id db_event))
            (event_permissions st)).

Definition db_delete_event (db_event : Event.t) : M unit :=
  db_write (delete_rows db_event).

(** [event_permissions.update().where(event_id == ..., user_id == ...)
    .values(role=...)] *)
Definition db_update_role (event_id user_id : Z) (role : Role) : M unit :=
  db_write (set_event_permissions (map (fun p =>
    if grant_matches event_id user_id p
    then Permission.mk (Permission.event_id p) (Permission.user_id p) role
    else p))).

(** [event_permissions.insert().values(event_id=..., user_id=..., role=...)] *)
Definition db_insert_grant (event_id user_id : Z) (role : Role) : M unit :=
  db_write (set_event_permissions (fun ps =>
    ps ++ [Permission.mk event_id user_id role])).

(* ================================================================== *)
(** ** main.py: the request handlers                                    *)
(* ================================================================== *)

(** Python's [str] on an [int], for the f-string of [share_event]. *)
Definition str (n : Z) : string := NilZero.string_of_int (Z.to_int n).

Definition permission_out (p : Permission.t) : Z * Role :=
  (Permission.user_id p, Permission.role p).

(** POST /api/events *)
Definition create_event (event : EventCreate.t) (current_user : User.t)
    : M Event.t :=
  db_event <- db_add_event (EventCreate.dict event) (User.id current_user) ;;
  db_commit ;;
  db_event <- db_refresh db_event ;;
  db_add_version (Event.id db_event) (EventCreate.dict event)
                 (User.id current_user) 1 ;;
  db_commit ;;
  ret db_event.

Definition after_start (start_date : datetime) (e : Event.t) : bool :=
  match Fields.start_time (Event.fields e) with
  | Some t => start_date <=? t
  | None => false
  end.

Definition before_end (end_date : datetime) (e : Event.t) : bool :=
  match Fields.end_time (Event.fields e) with
  | Some t => t <=? end_date
  | None => false
  end.

(** GET /api/events, with [skip: int = Query(0, ge=0)] and
    [limit: int = Query(100, ge=1, le=100)] *)
Definition list_events (skip limit : Z) (start_date end_date : option datetime)
    (current_user : User.t) : M (list Event.t) :=
  if (skip <? 0) || (limit <? 1) || (100 <? limit)
  then raise RequestValidationError
  else
    db_query (fun st =>
      let query := filter (fun e => Event.owner_id e =? User.id current_user)
                          (events st) in
      let query := match start_date with
                   | Some d => filter (after_start d) query
                   | None => query
                   end in
      let query := match end_date with
                   | Some d => filter (before_end d) query
                   | None => query
                   end in
      firstn (Z.to_nat limit) (skipn (Z.to_nat skip) query)).

(** GET /api/events/{event_id}, with [event_id: int = Path(..., gt=0)] *)
Definition get_event (event_id : Z) (current_user : User.t)
    : M (Event.t * list (Z * Role)) :=
  if event_id <=? 0
  then raise RequestValidationError
  else
    event <- db_query (event_by_id event_id) ;;
    match event with
    | None => raise (HTTPException 404 "Event not found")
    | Some event =>
        if negb (Event.owner_id event =? User.id current_user)
        then raise (HTTPException 403 "Not authorized to access this event")
        else
          permissions <- db_query (permissions_of event_id) ;;
          ret (event, map permission_out permissions)
    end.

(** One entry of [event_update.dict(exclude_unset=True)]. *)
Definition item : Type := { f : FieldName & column f }.

Definition entry (f : FieldName) (u : option (column f)) : list item :=
  match u with
  | Some v => [existT _ f v]
  | None => []
  end.

(** [event_update.dict(exclude_unset=True)]: the fields set in the request
    body, in declaration order. *)
Definition dict_exclude_unset (u : EventUpdate.t) : list item :=
  entry f_title (EventUpdate.title u)
  ++ entry f_description (EventUpdate.description u)
  ++ entry f_start_time (EventUpdate.start_time u)
  ++ entry f_end_time (EventUpdate.end_time u)
  ++ entry f_location (EventUpdate.location u)
  ++ entry f_is_recurring (EventUpdate.is_recurring u)
  ++ entry f_recurrence_pattern (EventUpdate.recurrence_pattern u)
  ++ entry f_recurrence_end_date (EventUpdate.recurrence_end_date u).

(** [for key, value in update_data.items(): setattr(db_event, key, value)] *)
Definition apply_items (update_data : list item) (db_event : Event.t) : Event.t :=
  fold_left
    (fun e kv =>
       Event.mk (Event.id e)
                (setattr (Event.fields e) (projT1 kv) (projT2 kv))
                (Event.owner_id e))
    update_data db_event.

(** PUT /api/events/{event_id} *)
Definition update_event (event_id : Z) (event_update : EventUpdate.t)
    (current_user : User.t) : M Event.t :=
  db_event <- db_query (event_by_id event_id) ;;
  match db_event with
  | None => raise (HTTPException 404 "Event not found")
  | Some db_event =>
      if negb (Event.owner_id db_event =? User.id current_user)
      then raise (HTTPException 403 "Not authorized to update this event")
      else
        let update_data := dict_exclude_unset event_update in
        let db_event := apply_items update_data db_event in
        db_set_event db_event ;;
        current_version <- db_query (latest_version event_id) ;;
        db_add_version (Event.id db_event) (Event.fields db_event)
          (User.id current_user)
          (match current_version with
           | Some cv => EventVersion.version_number cv + 1
           | None => 1
           end) ;;
        db_commit ;;
        db_refresh db_event
  end.

(** DELETE /api/events/{event_id} *)
Definition delete_event (event_id : Z) (current_user : User.t) : M string :=
  db_event <- db_query (event_by_id event_id) ;;
  match db_event with
  | None => raise (HTTPException 404 "Event not found")
  | Some db_event =>
      if negb (Event.owner_id db_event =? User.id current_user)
      then raise (HTTPException 403 "Not authorized to delete this event")
      else
        db_delete_event db_event ;;
        db_commit ;;
        ret "Event deleted successfully"
  end.

(** POST /api/events/batch *)
Fixpoint create_batch_events_loop (batch : list EventCreate.t)
    (current_user : User.t) (created_events : list Event.t)
    : M (list Event.t) :=
  match batch with
  | [] => ret created_events
  | event_data :: batch' =>
      db_event <- db_add_event (EventCreate.dict event_data)
                               (User.id current_user) ;;
      db_commit ;;
      db_event <- db_refresh db_event ;;
      db_add_version (Event.id db_event) (EventCreate.dict event_data)
                     (User.id current_user) 1 ;;
      db_commit ;;
      create_batch_events_loop batch' current_user (created_events ++ [db_event])
  end.

Definition create_batch_events (batch : list EventCreate.t)
    (current_user : User.t) : M (list Event.t) :=
  create_batch_events_loop batch current_user [].

(** The body of the loop of [share_event]. *)
Definition share_one (event_id : Z) (perm : PermissionCreate.t) : M unit :=
  user <- db_query (user_by_id (PermissionCreate.user_id perm)) ;;
  match user with
  | None =>
      raise (HTTPException 404
        (("User with id " ++ str (PermissionCreate.user_id perm))
         ++ " not found")%string)
  | Some _ =>
      existing_perm <- db_query (fun st =>
        hd_error (grants_of event_id (PermissionCreate.user_id perm) st)) ;;
      match existing_perm with
      | Some _ =>
          db_update_role event_id (PermissionCreate.user_id perm)
                         (PermissionCreate.role perm)
      | None =>
          db_insert_grant event_id (PermissionCreate.user_id perm)
                          (PermissionCreate.role perm)
      end
  end.

(** POST /api/events/{event_id}/share *)
Definition share_event (event_id : Z) (permissions : list PermissionCreate.t)
    (current_user : User.t) : M (string * list (Z * Role)) :=
  db_event <- db_query (event_by_id event_id) ;;
  match db_event with
  | None => raise (HTTPException 404 "Event not found")
  | Some db_event =>
      if negb (Event.owner_id db_event =? User.id current_user)
      then raise (HTTPException 403 "Only the owner can share this event")
      else
        for_each permissions (share_one event_id) ;;
        db_commit ;;
        permissions <- db_query (permissions_of event_id) ;;
        ret ("Event shared successfully", map permission_out permissions)
  end.

(** GET /api/events/{event_id}/history/{version_id} *)
Definition get_event_version (event_id version_id : Z) (current_user : User.t)
    : M EventVersion.t :=
  event <- db_query (event_by_id event_id) ;;
  match event with
  | None => raise (HTTPException 404 "Event not found")
  | Some event =>
      if negb (Event.owner_id event =? User.id current_user)
      then raise (HTTPException 403 "Not authorized to access this event")
      else
        version <- db_query (version_by_number event_id version_id) ;;
        match version with
        | None => raise (HTTPException 404 "Version not found")
        | Some version => ret version
        end
  end.

(** [event.title = version.title] and the seven assignments after it. *)
Definition assign_fields (version : EventVersion.t) (event : Event.t) : Event.t :=
  fold_left
    (fun e f =>
       Event.mk (Event.id e)
                (setattr (Event.fields e) f (getattr (EventVersion.fields version) f))
                (Event.owner_id e))
    [f_title; f_description; f_start_time; f_end_time; f_location;
     f_is_recurring; f_recurrence_pattern; f_recurrence_end_date]
    event.

(** POST /api/events/{event_id}/rollback/{version_id}.  The new version
    number is [current_version.version_number + 1] with no [else]: on an
    empty result the attribute access on [None] raises. *)
Definition rollback_event (event_id version_id : Z) (current_user : User.t)
    : M Event.t :=
  event <- db_query (event_by_id event_id) ;;
  match event with
  | None => raise (HTTPException 404 "Event not found")
  | Some event =>
      if negb (Event.owner_id event =? User.id current_user)
      then raise (HTTPException 403 "Not authorized to update this event")
      else
        version <- db_query (version_by_number event_id version_id) ;;
        match version with
        | None => raise (HTTPException 404 "Version not found")
        | Some version =>
            let event := assign_fields version event in
            db_set_event event ;;
            current_version <- db_query (latest_version event_id) ;;
            match current_version with
            | None => raise AttributeError
            | Some cv =>
                db_add_version (Event.id event) (Event.fields event)
                  (User.id current_user) (EventVersion.version_number cv + 1) ;;
                db_commit ;;
                db_refresh event
            end
        end
  end.

Record ChangelogEntry : Type := mkChangelogEntry {
  version : Z;
  modified_by : string;
  changes : Fields.t
}.

(** GET /api/events/{event_id}/changelog *)
Definition get_event_changelog (event_id : Z) (current_user : User.t)
    : M (list ChangelogEntry) :=
  event <- db_query (event_by_id event_id) ;;
  match event with
  | None => raise (HTTPException 404 "Event not found")
  | Some event =>
      if negb (Event.owner_id event =? User.id current_user)
      then raise (HTTPException 403 "Not authorized to access this event")
      else
        db_query (fun st =>
          map (fun version =>
                 let modifier :=
                   user_by_id (EventVersion.modified_by_id version) st in
                 mkChangelogEntry
                   (EventVersion.version_number version)
                   (match modifier with
                    | Some m => User.username m
                    | None => "Unknown"
                    end)
                   (EventVersion.fields version))
              (versions_ascending event_id st))
  end.

Record DiffItem : Type := mkDiffItem {
  field : string;
  old_value : Value;
  new_value : Value
}.

(** The field list of the loop of [get_event_diff]. *)
Definition tracked_fields : list FieldName :=
  [f_title; f_description; f_start_time; f_end_time; f_location;
   f_is_recurring; f_recurrence_pattern; f_recurrence_end_date].

(** The body of that loop. *)
Definition diff_step (version1 version2 : EventVersion.t)
    (differences : list DiffItem) (f : FieldName) : list DiffItem :=
  let val1 := getattr (EventVersion.fields version1) f in
  let val2 := getattr (EventVersion.fields version2) f in
  if py_ne f val1 val2
  then differences ++ [mkDiffItem (field_str f) (py f val1) (py f val2)]
  else differences.

(** GET /api/events/{event_id}/diff/{version_id1}/{version_id2} *)
Definition get_event_diff (event_id version_id1 version_id2 : Z)
    (current_user : User.t) : M (Z * Z * list DiffItem) :=
  event <- db_query (event_by_id event_id) ;;
  match event with
  | None => raise (HTTPException 404 "Event not found")
  | Some event =>
      if negb (Event.owner_id event =? User.id current_user)
      then raise (HTTPException 403 "Not authorized to access this event")
      else
        version1 <- db_query (version_by_number event_id version_id1) ;;
        version2 <- db_query (version_by_number event_id version_id2) ;;
        match version1, version2 with
        | Some version1, Some version2 =>
            let differences :=
              fold_left (diff_step version1 version2) tracked_fields [] in
            ret (version_id1, version_id2, differences)
        | _, _ => raise (HTTPException 404 "One or both versions not found")
        end
  end.

(* ================================================================== *)
(** ** Requests                                                         *)
(* ================================================================== *)

Inductive Request : Type :=
| POST_events (event : EventCreate.t)
| GET_events (skip limit : Z) (start_date end_date : option datetime)
| GET_event (event_id : Z)
| PUT_event (event_id : Z) (event_update : EventUpdate.t)
| DELETE_event (event_id : Z)
| POST_events_batch (batch : list EventCreate.t)
| POST_share (event_id : Z) (permissions : list PermissionCreate.t)
| GET_history (event_id version_id : Z)
| POST_rollback (event_id version_id : Z)
| GET_changelog (event_id : Z)
| GET_diff (event_id version_id1 version_id2 : Z).

(** What a handler returns, before the response model serialises it. *)
Inductive Response : Type :=
| EventOut (e : Event.t)
| EventsOut (es : list Event.t)
| EventWithPermissionsOut (e : Event.t) (permissions : list (Z * Role))
| MessageOut (message : string)
| ShareOut (message : string) (permissions : list (Z * Role))
| VersionOut (v : EventVersion.t)
| ChangelogOut (changelog : list ChangelogEntry)
| DiffOut (version1 version2 : Z) (differences : list DiffItem).

Definition fmap {A B} (f : A -> B) (c : M A) : M B :=
  a <- c ;; ret (f a).

(** The routing table; [current_user] is the user that
    [auth.get_current_user] resolved from the bearer token. *)
Definition handle (req : Request) (current_user : User.t) : M Response :=
  match req with
  | POST_events event => fmap EventOut (create_event event current_user)
  | GET_events skip limit start_date end_date =>
      fmap EventsOut (list_events skip limit start_date end_date current_user)
  | GET_event event_id =>
      fmap (fun r => EventWithPermissionsOut (fst r) (snd r))
           (get_event event_id current_user)
  | PUT_event event_id event_update =>
      fmap EventOut (update_event event_id event_update current_user)
  | DELETE_event event_id => fmap MessageOut (delete_event event_id current_user)
  | POST_events_batch batch =>
      fmap EventsOut (create_batch_events batch current_user)
  | POST_share event_id permissions =>
      fmap (fun r => ShareOut (fst r) (snd r))
           (share_event event_id permissions current_user)
  | GET_history event_id version_id =>
      fmap VersionOut (get_event_version event_id version_id current_user)
  | POST_rollback event_id version_id =>
      fmap EventOut (rollback_event event_id version_id current_user)
  | GET_changelog event_id =>
      fmap ChangelogOut (get_event_changelog event_id current_user)
  | GET_diff event_id version_id1 version_id2 =>
      fmap (fun r => DiffOut (fst (fst r)) (snd (fst r)) (snd r))
           (get_event_diff event_id version_id1 version_id2 current_user)
  end.

(** Modelled from the spec: [get_db] of [database.py] is not among the
    sources.  Each request is handled independently over the persistent
    store (section 5): the handler gets a session of its own, opened on
    the committed tables, and whatever its transaction holds when the
    handler returns or raises is rolled back with the session, never left
    half-applied (section 7).  The next request sees the committed tables. *)
Definition serve (st : Store) (plan : list bool) (current_user : User.t)
    (req : Request) : Outcome Response * Store :=
  let (out, s) := handle req current_user (mkSession st st plan) in
  (out, committed s).

(** A call: who asks, what, and how the storage layer answers the commits
    of the request. *)
Record Call : Type := mkCall {
  caller : User.t;
  request : Request;
  storage : list bool
}.

(** The log of a run: each request with what its handler returned. *)
Definition Log : Type := list (Request * Outcome Response).

Definition run_step (acc : Log * Store) (c : Call) : Log * Store :=
  let (out, st') := serve (snd acc) (storage c) (caller c) (request c) in
  (fst acc ++ [(request c, out)], st').

Definition run (calls : list Call) (st : Store) : Log * Store :=
  fold_left run_step calls ([], st).

(** The database after registrations only: users, and no event yet. *)
Definition init (us : list User.t) : Store := mkStore us [] [] [].

Definition reachable (st : Store) : Prop :=
  exists us calls, snd (run calls (init us)) = st.

(** A run during which the storage layer never fails a commit. *)
Definition fault_free (calls : list Call) : Prop :=
  Forall (fun c => Forall (fun ok => ok = true) (storage c)) calls.

(* ================================================================== *)
(** ** Vocabulary of the properties                                     *)
(* ================================================================== *)

(** The first commit of a request goes through. *)
Definition commits (plan : list bool) : Prop := hd true plan = true.

(** The entry that a diff of [v1] against [v2] reports for field [f]. *)
Definition diff_entry (v1 v2 : EventVersion.t) (f : FieldName) : DiffItem :=
  mkDiffItem (field_str f)
             (py f (getattr (EventVersion.fields v1) f))
             (py f (getattr (EventVersion.fields v2) f)).

(** The two snapshots hold unequal values in column [f]. *)
Definition differs (v1 v2 : EventVersion.t) (f : FieldName) : Prop :=
  getattr (EventVersion.fields v1) f <> getattr (EventVersion.fields v2) f.

Definition differsb (v1 v2 : EventVersion.t) (f : FieldName) : bool :=
  py_ne f (getattr (EventVersion.fields v1) f) (getattr (EventVersion.fields v2) f).

(** A diff entry with old and new values exchanged. *)
Definition swap (d : DiffItem) : DiffItem :=
  mkDiffItem (field d) (new_value d) (old_value d).

(** The event id in the path of an event-scoped request. *)
Definition event_scope (req : Request) : option Z :=
  match req with
  | GET_event event_id
  | PUT_event event_id _
  | DELETE_event event_id
  | POST_share event_id _
  | GET_history event_id _
  | POST_rollback event_id _
  | GET_changelog event_id
  | GET_diff event_id _ _ => Some event_id
  | POST_events _ | GET_events _ _ _ _ | POST_events_batch _ => None
  end.

(** The path parameters pass validation (only [get_event] declares one). *)
Definition path_valid (req : Request) : Prop :=
  match req with
  | GET_event event_id => 0 < event_id
  | _ => True
  end.

(** What the request body of an update says about field [f]. *)
Definition requested (u : EventUpdate.t) (f : FieldName) : option (column f) :=
  match f return option (column f) with
  | f_title => EventUpdate.title u
  | f_description => EventUpdate.description u
  | f_start_time => EventUpdate.start_time u
  | f_end_time => EventUpdate.end_time u
  | f_location => EventUpdate.location u
  | f_is_recurring => EventUpdate.is_recurring u
  | f_recurrence_pattern => EventUpdate.recurrence_pattern u
  | f_recurrence_end_date => EventUpdate.recurrence_end_date u
  end.

(** The request body [{}]. *)
Definition empty_update : EventUpdate.t :=
  EventUpdate.mk None None None None None None None None.

(** The version numbers recorded for an event, in ledger order. *)
Definition version_numbers (event_id : Z) (st : Store) : list Z :=
  map EventVersion.version_number (versions_of event_id st).

(** The list 1, 2, ..., n. *)
Definition one_to (n : nat) : list Z := map Z.of_nat (seq 1 n).

(** The count of create, update and rollback operations applied to the
    event that holds [event_id], as the log tells: a create that returned
    this id starts the count at 1, an update or rollback that returned adds
    one, and a delete that returned ends the life of the id. *)
Definition tally (event_id : Z) (n : nat) (entry : Request * Outcome Response) : nat :=
  match entry with
  | (POST_events _, Return (EventOut e)) =>
      if Event.id e =? event_id then 1%nat else n
  | (POST_events_batch _, Return (EventsOut es)) =>
      if existsb (fun e => Event.id e =? event_id) es then 1%nat else n
  | (PUT_event e _, Return _) | (POST_rollback e _, Return _) =>
      if e =? event_id then S n else n
  | (DELETE_event e, Return _) =>
      if e =? event_id then 0%nat else n
  | _ => n
  end.

Definition applied (event_id : Z) (log : Log) : nat :=
  fold_left (tally event_id) log 0%nat.

(** One pass of the loop of [share_event] for a known user, as a function
    on the tables: the registry's grant-or-update. *)
Definition grant_or_update (event_id : Z) (perm : PermissionCreate.t)
    (st : Store) : Store :=
  match hd_error (grants_of event_id (PermissionCreate.user_id perm) st) with
  | Some _ =>
      set_event_permissions (map (fun p =>
        if grant_matches event_id (PermissionCreate.user_id perm) p
        then Permission.mk (Permission.event_id p) (Permission.user_id p)
                           (PermissionCreate.role perm)
        else p)) st
  | None =>
      set_event_permissions (fun ps =>
        ps ++ [Permission.mk event_id (PermissionCreate.user_id perm)
                             (PermissionCreate.role perm)]) st
  end.

(** The detail of the 404 of [share_event] for an unknown user. *)
Definition user_not_found (perm : PermissionCreate.t) : Exception :=
  HTTPException 404
    (("User with id " ++ str (PermissionCreate.user_id perm)) ++ " not found")%string.

(** The entry of a share request names a user of the [users] table. *)
Definition known_user (st : Store) (perm : PermissionCreate.t) : Prop :=
  user_by_id (PermissionCreate.user_id perm) st <> None.

(** The UPDATE of [db_set_event], on the rows of [events]. *)
Definition replace_event (db_event : Event.t) (es : list Event.t) : list Event.t :=
  map (fun e => if Event.id e =? Event.id db_event then db_event else e) es.

(** The version number that [update_event] gives to its new snapshot. *)
Definition next_version (event_id : Z) (st : Store) : Z :=
  match latest_version event_id st with
  | Some cv => EventVersion.version_number cv + 1
  | None => 1
  end.

(** The snapshot row that [db_add_version] appends to [event_versions]. *)
Definition snapshot (st : Store) (event_id : Z) (fields : Fields.t)
    (modified_by_id version_number : Z) : EventVersion.t :=
  EventVersion.mk (next_id (map EventVersion.id (event_versions st)))
                  (Some event_id) fields modified_by_id version_number.

(** The tables after an edit of [db_event] by [modified_by_id] is
    committed: the event row rewritten, one snapshot appended. *)
Definition record_edit (st : Store) (db_event : Event.t)
    (modified_by_id version_number : Z) : Store :=
  mkStore (users st)
          (replace_event db_event (events st))
          (event_versions st
           ++ [snapshot st (Event.id db_event) (Event.fields db_event)
                        modified_by_id version_number])
          (event_permissions st).

(** One turn of the loop of [update_event] for field [f]: the attribute is
    written when the body sets the field. *)
Definition set_if_requested (f : FieldName) (u : option (column f))
    (e : Event.t) : Event.t :=
  match u with
  | Some v => Event.mk (Event.id e) (setattr (Event.fields e) f v) (Event.owner_id e)
  | None => e
  end.

(** The event row that [db_add_event] appends to [events]. *)
Definition new_event (st : Store) (fields : Fields.t) (owner_id : Z) : Event.t :=
  Event.mk (next_id (map Event.id (events st))) fields owner_id.

(** The tables after the first commit of [create_event]. *)
Definition with_event (st : Store) (fields : Fields.t) (owner_id : Z) : Store :=
  set_events (fun es => es ++ [new_event st fields owner_id]) st.

(** The tables after the second commit of [create_event]. *)
Definition with_event_and_version (st : Store) (fields : Fields.t) (owner_id : Z)
    : Store :=
  set_event_versions
    (fun vs => vs ++ [snapshot st (Event.id (new_event st fields owner_id))
                               fields owner_id 1])
    (with_event st fields owner_id).

(** The tables after [create_batch_events] has gone through a batch, with
    the events it created. *)
Fixpoint create_all (batch : list EventCreate.t) (owner_id : Z) (st : Store)
    : list Event.t * Store :=
  match batch with
  | [] => ([], st)
  | event_data :: batch' =>
      let (es, st') :=
        create_all batch' owner_id
          (with_event_and_version st (EventCreate.dict event_data) owner_id) in
      (new_event st (EventCreate.dict event_data) owner_id :: es, st')
  end.

(** The tables after [share_event] has gone through its list. *)
Definition grant_all (event_id : Z) (perms : list PermissionCreate.t)
    (st : Store) : Store :=
  fold_left (fun st p => grant_or_update event_id p st) perms st.

(** *** Committed transitions

    What one commit of a handler can do to the tables. *)
Inductive step : Store -> Store -> Prop :=
| step_event st fields owner_id :
    step st (with_event st fields owner_id)
| step_snapshot st event uid n :
    In event (events st) ->
    step st (set_event_versions
               (fun vs => vs ++ [snapshot st (Event.id event) (Event.fields event) uid n])
               st)
| step_edit st db_event old uid n :
    event_by_id (Event.id db_event) st = Some old ->
    (forall v, In v (versions_of (Event.id db_event) st) ->
       EventVersion.version_number v < n) ->
    step st (record_edit st db_event uid n)
| step_delete st db_event :
    step st (delete_rows db_event st)
| step_grant st event_id perm :
    step st (grant_or_update event_id perm st).

Inductive steps : Store -> Store -> Prop :=
| steps_refl st : steps st st
| steps_then st1 st2 st3 : steps st1 st2 -> step st2 st3 -> steps st1 st3.

(** *** Invariants of the tables *)

(** Primary keys of [events] are unique. *)
Definition unique_events (st : Store) : Prop :=
  NoDup (map Event.id (events st)).

(** A snapshot that names an event names an existing one. *)
Definition referential (st : Store) : Prop :=
  forall v e, In v (event_versions st) ->
              EventVersion.event_id v = Some e ->
              In e (map Event.id (events st)).

(** The latest snapshot of an event, when there is one, holds the event's
    current fields. *)
Definition snapshot_current (st : Store) : Prop :=
  forall event cv,
    In event (events st) ->
    latest_version (Event.id event) st = Some cv ->
    EventVersion.fields cv = Event.fields event.

(** At most one grant per (event, user). *)
Definition unique_grants (st : Store) : Prop :=
  forall event_id user_id,
    (List.length (grants_of event_id user_id st) <= 1)%nat.

Record consistent (st : Store) : Prop := mkConsistent {
  consistent_events : unique_events st;
  consistent_referential : referential st;
  consistent_current : snapshot_current st;
  consistent_grants : unique_grants st
}.

(** The ledger of every event counts 1, 2, ..., N, with N the number of
    operations applied to the event according to the log. *)
Definition ledger_exact (st : Store) (log : Log) : Prop :=
  forall event,
    In event (events st) ->
    version_numbers (Event.id event) st = one_to (applied (Event.id event) log).

Definition all_true (plan : list bool) : Prop := Forall (fun ok => ok = true) plan.

(* ================================================================== *)
(** ** A small database                                                 *)
(* ================================================================== *)

Definition alice : User.t := User.mk 1 "alice" "alice@example.org" "x".
Definition bob : User.t := User.mk 2 "bob" "bob@example.org" "y".

Definition standup : EventCreate.t :=
  EventCreate.mk "Standup" "Daily sync" 900 930 None false None None.

Definition retitle : EventUpdate.t :=
  EventUpdate.mk (Some (Some "Daily Standup")) None None None None None None None.

(** Alice creates the stand-up and renames it. *)
Definition sample_calls : list Call :=
  [mkCall alice (POST_events standup) [];
   mkCall alice (PUT_event 1 retitle) []].

Definition sample_event : Event.t :=
  Event.mk 1
    (Fields.mk (Some "Daily Standup") (Some "Daily sync") (Some 900) (Some 930)
               None (Some false) None None)
    1.

Definition sample_v1 : EventVersion.t :=
  EventVersion.mk 1 (Some 1) (EventCreate.dict standup) 1 1.

Definition sample_v2 : EventVersion.t :=
  EventVersion.mk 2 (Some 1) (Event.fields sample_event) 1 2.

Definition sample : Store :=
  mkStore [alice; bob] [sample_event] [sample_v1; sample_v2] [].


From Stdlib Require Import Sorted Permutation.

(* ================================================================== *)
(** ** Further vocabulary: listing, history, registration               *)
(* ================================================================== *)

(** An event that [list_events] lets through for this caller and these
    optional bounds. *)
Definition listed (current_user : User.t) (start_date end_date : option datetime)
    (e : Event.t) : bool :=
  (Event.owner_id e =? User.id current_user)
  && match start_date with Some d => after_start d e | None => true end
  && match end_date with Some d => before_end d e | None => true end.

(** The query parameters of [list_events] pass validation. *)
Definition page_valid (skip limit : Z) : Prop :=
  0 <= skip /\ 1 <= limit <= 100.

(** The columns of a snapshot that no handler writes after the insert
    (all but the foreign key). *)
Definition content (v : EventVersion.t) : Z * Fields.t * Z * Z :=
  (EventVersion.id v, EventVersion.fields v,
   EventVersion.modified_by_id v, EventVersion.version_number v).

(** The role of the last entry of a share list that names [user_id]. *)
Definition last_role (perms : list PermissionCreate.t) (user_id : Z) : option Role :=
  fold_left
    (fun acc p =>
       if PermissionCreate.user_id p =? user_id
       then Some (PermissionCreate.role p) else acc)
    perms None.

(** The fields that an update body sets to a value other than the one the
    event holds. *)
Definition changed_by (u : EventUpdate.t) (c : Fields.t) (f : FieldName) : bool :=
  match requested u f with
  | Some v => py_ne f (getattr c f) v
  | None => false
  end.

(** The changelog entry of a snapshot. *)
Definition changelog_entry (st : Store) (v : EventVersion.t) : ChangelogEntry :=
  mkChangelogEntry
    (EventVersion.version_number v)
    (match user_by_id (EventVersion.modified_by_id v) st with
     | Some m => User.username m
     | None => "Unknown"
     end)
    (EventVersion.fields v).

(** Requests that run [create_event] once per item of [batch]. *)
Definition one_by_one (current_user : User.t) (batch : list EventCreate.t)
    : list Call :=
  map (fun event => mkCall current_user (POST_events event) []) batch.

(** The events that the creates of a log returned. *)
Definition created_events (log : Log) : list Event.t :=
  flat_map (fun entry =>
              match entry with
              | (POST_events _, Return (EventOut e)) => [e]
              | _ => []
              end) log.

(** The handlers that commit once, at their end. *)
Definition single_commit (req : Request) : Prop :=
  match req with
  | POST_events _ | POST_events_batch _ => False
  | _ => True
  end.

(** A snapshot row as a later state holds it: the same row, or the same
    row with its event reference cleared. *)
Definition kept (v v' : EventVersion.t) : Prop :=
  content v' = content v
  /\ (EventVersion.event_id v' = EventVersion.event_id v
      \/ EventVersion.event_id v' = None).

(** The ledger of [st], row by row, is the beginning of the ledger of
    [st']. *)
Definition ledger_grows (st st' : Store) : Prop :=
  exists old added,
    event_versions st' = old ++ added
    /\ Forall2 kept (event_versions st) old.

(** A request left event [e] alone: its row, its ledger and its grants. *)
Definition untouched (e : Z) (ev : Event.t) (st st' : Store) : Prop :=
  event_by_id e st' = Some ev
  /\ versions_of e st' = versions_of e st
  /\ permissions_of e st' = permissions_of e st.

(* ================================================================== *)
(** ** main.py: registration                                            *)
(* ================================================================== *)

(** [schemas.UserCreate]; the body has passed pydantic's validation. *)
Module UserCreate.
Record t : Type := mk {
  username : string;
  email : string;
  password : string
}.
End UserCreate.

(** [filter(models.User.username == ...).first()] *)
Definition user_by_username (username : string) (st : Store) : option User.t :=
  find (fun u => String.eqb (User.username u) username) (users st).

(** [filter(models.User.email == ...).first()] *)
Definition user_by_email (email : string) (st : Store) : option User.t :=
  find (fun u => String.eqb (User.email u) email) (users st).

Definition set_users (f : list User.t -> list User.t) (st : Store) : Store :=
  mkStore (f (users st)) (events st) (event_versions st) (event_permissions st).

(** [db.add(db_user)] for a new [models.User]. *)
Definition db_add_user (username email hashed_password : string) : M User.t :=
  ids <- db_query (fun st => map User.id (users st)) ;;
  let db_user := User.mk (next_id ids) username email hashed_password in
  db_write (set_users (fun us => us ++ [db_user])) ;;
  ret db_user.

(** [db.refresh(db_user)] *)
Definition db_refresh_user (db_user : User.t) : M User.t :=
  row <- db_query (user_by_id (User.id db_user)) ;;
  match row with
  | Some u => ret u
  | None => raise StorageError
  end.

(** POST /api/auth/register.  [auth.get_password_hash] is not among the
    sources: the hash function is a parameter. *)
Definition register (get_password_hash : string -> string) (user : UserCreate.t)
    : M User.t :=
  db_user <- db_query (user_by_username (UserCreate.username user)) ;;
  match db_user with
  | Some _ => raise (HTTPException 400 "Username already registered")
  | None =>
      db_user <- db_query (user_by_email (UserCreate.email user)) ;;
      match db_user with
      | Some _ => raise (HTTPException 400 "Email already registered")
      | None =>
          let hashed_password := get_password_hash (UserCreate.password user) in
          db_user <- db_add_user (UserCreate.username user)
                                 (UserCreate.email user) hashed_password ;;
          db_commit ;;
          db_refresh_user db_user
      end
  end.

(** A registration request, served like the others: a session of its own
    over the committed tables. *)
Definition serve_register (get_password_hash : string -> string) (st : Store)
    (plan : list bool) (user : UserCreate.t) : Outcome User.t * Store :=
  let (out, s) := register get_password_hash user (mkSession st st plan) in
  (out, committed s).

(** No two users share an id, a username or an email. *)
Definition users_unique (st : Store) : Prop :=
  NoDup (map User.id (users st))
  /\ NoDup (map User.username (users st))
  /\ NoDup (map User.email (users st)).

(** The tables after a registration is committed. *)
Definition with_user (st : Store) (username email hashed_password : string) : Store :=
  set_users (fun us =>
    us ++ [User.mk (next_id (map User.id (users st))) username email
                   hashed_password]) st.

(* ================================================================== *)
(** ** The response model of the event routes                           *)
(* ================================================================== *)

(** The fields that [schemas.EventBase] declares with a plain type and no
    default: [title: str], [description: str], [start_time: datetime] and
    [end_time: datetime].  [schemas.Event], the response model of the
    create, update and rollback routes, inherits them. *)
Definition required_fields : list FieldName :=
  [f_title; f_description; f_start_time; f_end_time].

(** The column holds NULL. *)
Definition is_none (f : FieldName) (v : column f) : bool :=
  match v with
  | Some _ => false
  | None => true
  end.

(** The event holds a value in every required field of [schemas.Event]. *)
Definition fits_response (e : Event.t) : bool :=
  forallb (fun f => negb (is_none f (getattr (Event.fields e) f)))
          required_fields.

(* ================================================================== *)
(** ** More sample data                                                 *)
(* ================================================================== *)

(** A body that moves the stand-up. *)
Definition relocate : EventUpdate.t :=
  EventUpdate.mk None None None None (Some (Some "Room 4")) None None None.

(** A body that sets the title to null. *)
Definition untitle : EventUpdate.t :=
  EventUpdate.mk (Some None) None None None None None None None.

(** The database when the second commit of Alice's create has failed. *)
Definition sample_half : Store :=
  mkStore [alice; bob] [Event.mk 1 (EventCreate.dict standup) 1] [] [].

Definition carol : UserCreate.t :=
  UserCreate.mk "carol" "carol@example.org" "secret".

Definition alice_again : UserCreate.t :=
  UserCreate.mk "alice" "other@example.org" "secret".

(** A stand-in for the password hash. *)
Definition sample_hash (password : string) : string := ("#" ++ password)%string.

(** The events of the table are the ids to which the log has applied at
    least one operation. *)
Definition present (st : Store) (log : Log) : Prop :=
  forall e, In e (map Event.id (events st)) <-> (1 <= applied e log)%nat.

(* ================================================================== *)
(** ** Attributes                                                       *)
(* ================================================================== *)

Lemma getattr_setattr_same (c : Fields.t) (f : FieldName) (v : column f) :
  getattr (setattr c f v) f = v.
Proof. destruct c, f; reflexivity. Qed.

Lemma getattr_setattr_other (c : Fields.t) (f g : FieldName) (v : column f) :
  f <> g -> getattr (setattr c f v) g = getattr c g.
Proof. destruct c, f, g; intros H; try reflexivity; congruence. Qed.

Lemma py_ne_true (f : FieldName) (a b : column f) :
  py_ne f a b = true <-> a <> b.
Proof.
  unfold py_ne. destruct (column_eq_dec f a b); split; congruence.
Qed.

Lemma py_ne_refl (f : FieldName) (a : column f) : py_ne f a a = false.
Proof. unfold py_ne. destruct (column_eq_dec f a a); congruence. Qed.

Lemma py_ne_sym (f : FieldName) (a b : column f) : py_ne f a b = py_ne f b a.
Proof.
  unfold py_ne.
  destruct (column_eq_dec f a b), (column_eq_dec f b a); congruence.
Qed.

Lemma tracked_fields_complete (f : FieldName) : In f tracked_fields.
Proof. destruct f; simpl; tauto. Qed.

Lemma field_str_inj (f g : FieldName) : field_str f = field_str g -> f = g.
Proof. destruct f, g; simpl; intros H; try reflexivity; discriminate H. Qed.

(* ================================================================== *)
(** ** The diff loop                                                    *)
(* ================================================================== *)

Lemma diff_loop (v1 v2 : EventVersion.t) (fs : list FieldName) :
  forall acc,
    fold_left (diff_step v1 v2) fs acc
    = acc ++ map (diff_entry v1 v2) (filter (differsb v1 v2) fs).
Proof.
  induction fs as [|f fs IH]; intros acc; simpl.
  - now rewrite app_nil_r.
  - rewrite IH. unfold diff_step, differsb at 2.
    destruct (py_ne f _ _); simpl.
    + now rewrite <- app_assoc.
    + reflexivity.
Qed.

Lemma differsb_differs (v1 v2 : EventVersion.t) (f : FieldName) :
  differsb v1 v2 f = true <-> differs v1 v2 f.
Proof. apply py_ne_true. Qed.

Lemma swap_diff_entry (v1 v2 : EventVersion.t) (f : FieldName) :
  swap (diff_entry v1 v2 f) = diff_entry v2 v1 f.
Proof. reflexivity. Qed.
(* ================================================================== *)
(** ** Running a handler                                                *)
(* ================================================================== *)

Ltac db_run :=
  cbv beta iota zeta delta
    [serve handle fmap bind ret raise db_query db_write db_commit
     working committed commit_plan fst snd
     create_event list_events get_event update_event delete_event
     create_batch_events share_event get_event_version rollback_event
     get_event_changelog get_event_diff
     db_add_event db_add_version db_set_event db_refresh db_delete_event
     db_update_role db_insert_grant].

Lemma owner_check (event : Event.t) (current_user : User.t) :
  Event.owner_id event = User.id current_user ->
  negb (Event.owner_id event =? User.id current_user) = false.
Proof. intros ->. now rewrite Z.eqb_refl. Qed.

Lemma stranger_check (event : Event.t) (current_user : User.t) :
  Event.owner_id event <> User.id current_user ->
  negb (Event.owner_id event =? User.id current_user) = true.
Proof. intros H. apply Z.eqb_neq in H. now rewrite H. Qed.

(** What [get_event_diff] returns to the owner. *)
Lemma get_event_diff_owner st plan current_user event_id a b event :
  event_by_id event_id st = Some event ->
  Event.owner_id event = User.id current_user ->
  serve st plan current_user (GET_diff event_id a b)
  = match version_by_number event_id a st, version_by_number event_id b st with
    | Some va, Some vb =>
        (Return (DiffOut a b
           (map (diff_entry va vb) (filter (differsb va vb) tracked_fields))), st)
    | _, _ => (Raise (HTTPException 404 "One or both versions not found"), st)
    end.
Proof.
  intros Hev How.
  db_run. rewrite Hev. db_run. rewrite (owner_check _ _ How). db_run.
  destruct (version_by_number event_id a st) as [va|];
    destruct (version_by_number event_id b st) as [vb|]; try reflexivity.
  rewrite diff_loop. reflexivity.
Qed.

(** C7: for the owner of an event and two version numbers [a] and [b]:
    when both snapshots exist, the diff lists, in the order of the fixed
    field list, one entry (field name, the value in [a], the value in [b])
    for each of the eight tracked fields whose two values are unequal, and
    no other entry; when either snapshot is absent the request fails with
    404.  The store is left as it was. *)
Theorem diff_fieldwise st plan current_user event_id a b event :
  event_by_id event_id st = Some event ->
  Event.owner_id event = User.id current_user ->
  (forall va vb,
      version_by_number event_id a st = Some va ->
      version_by_number event_id b st = Some vb ->
      exists fs,
        serve st plan current_user (GET_diff event_id a b)
        = (Return (DiffOut a b (map (diff_entry va vb) fs)), st)
        /\ fs = filter (differsb va vb) tracked_fields
        /\ (forall f, In f fs <-> differs va vb f))
  /\ (version_by_number event_id a st = None
      \/ version_by_number event_id b st = None ->
      serve st plan current_user (GET_diff event_id a b)
      = (Raise (HTTPException 404 "One or both versions not found"), st)).
Proof.
  intros Hev How. split.
  - intros va vb Ha Hb. exists (filter (differsb va vb) tracked_fields).
    rewrite (get_event_diff_owner _ _ _ _ _ _ _ Hev How), Ha, Hb.
    repeat split.
    + intros Hin. apply filter_In in Hin. now apply differsb_differs.
    + intros Hd. apply filter_In. split.
      * apply tracked_fields_complete.
      * now apply differsb_differs.
  - intros Habs.
    rewrite (get_event_diff_owner _ _ _ _ _ _ _ Hev How).
    destruct Habs as [-> | ->]; [reflexivity|].
    now destruct (version_by_number event_id a st).
Qed.

Lemma filter_differsb_sym va vb fs :
  filter (differsb vb va) fs = filter (differsb va vb) fs.
Proof.
  apply filter_ext. intros f. unfold differsb. apply py_ne_sym.
Qed.

Lemma filter_differsb_same v fs : filter (differsb v v) fs = [].
Proof.
  induction fs as [|f fs IH]; simpl; [reflexivity|].
  unfold differsb at 1. now rewrite py_ne_refl.
Qed.

(** C8: for the owner of an event and two existing versions [a] and [b],
    the diff of [b] against [a] is the diff of [a] against [b] with the old
    and the new value of every entry exchanged (the same fields, in the
    same order); and the diff of an existing version against itself is
    empty. *)
Theorem diff_swap_and_self st plan current_user event_id a b event va vb :
  event_by_id event_id st = Some event ->
  Event.owner_id event = User.id current_user ->
  version_by_number event_id a st = Some va ->
  version_by_number event_id b st = Some vb ->
  (exists ds,
      serve st plan current_user (GET_diff event_id a b)
      = (Return (DiffOut a b ds), st)
      /\ serve st plan current_user (GET_diff event_id b a)
         = (Return (DiffOut b a (map swap ds)), st)
      /\ map field (map swap ds) = map field ds)
  /\ serve st plan current_user (GET_diff event_id a a)
     = (Return (DiffOut a a []), st).
Proof.
  intros Hev How Ha Hb. split.
  - exists (map (diff_entry va vb) (filter (differsb va vb) tracked_fields)).
    rewrite !(get_event_diff_owner _ _ _ _ _ _ _ Hev How), Ha, Hb.
    repeat split.
    + rewrite filter_differsb_sym, map_map. reflexivity.
    + rewrite !map_map. reflexivity.
  - rewrite (get_event_diff_owner _ _ _ _ _ _ _ Hev How), Ha.
    now rewrite filter_differsb_same.
Qed.

(* ================================================================== *)
(** ** Resolution and ownership checks                                  *)
(* ================================================================== *)

(** An event-scoped handler answers an absent event with 404. *)
Lemma event_absent st plan current_user req event_id :
  event_scope req = Some event_id ->
  path_valid req ->
  event_by_id event_id st = None ->
  serve st plan current_user req
  = (Raise (HTTPException 404 "Event not found"), st).
Proof.
  intros Hscope Hvalid Habs.
  destruct req; simpl in Hscope; inversion Hscope; subst; db_run;
    try (rewrite Habs; reflexivity).
  simpl in Hvalid. apply Z.leb_gt in Hvalid. rewrite Hvalid. db_run.
  now rewrite Habs.
Qed.

(** An event-scoped handler answers a caller who is not the owner with
    403, before any write. *)
Lemma event_forbidden st plan current_user req event_id event :
  event_scope req = Some event_id ->
  path_valid req ->
  event_by_id event_id st = Some event ->
  Event.owner_id event <> User.id current_user ->
  exists detail,
    serve st plan current_user req = (Raise (HTTPException 403 detail), st).
Proof.
  intros Hscope Hvalid Hev Hstr.
  pose proof (stranger_check _ _ Hstr) as Hneg.
  destruct req; simpl in Hscope; inversion Hscope; subst; db_run;
    try (rewrite Hev; db_run; rewrite Hneg; eexists; reflexivity).
  simpl in Hvalid. apply Z.leb_gt in Hvalid. rewrite Hvalid. db_run.
  rewrite Hev. db_run. rewrite Hneg. eexists; reflexivity.
Qed.

(** C4, as the handlers have it: an event-scoped request whose path
    parameters pass validation fails with 404 "Event not found" when the
    event is absent, and with 403 when the event exists and the caller is
    not its owner; [get_event], whose path parameter is declared [gt=0],
    rejects an id that is not positive before it looks the event up.  In
    each of these cases the committed tables (events, versions, grants)
    are what they were. *)
Theorem event_scope_checks st plan current_user req event_id :
  event_scope req = Some event_id ->
  (path_valid req ->
   event_by_id event_id st = None ->
   serve st plan current_user req
   = (Raise (HTTPException 404 "Event not found"), st))
  /\ (path_valid req ->
      forall event,
        event_by_id event_id st = Some event ->
        Event.owner_id event <> User.id current_user ->
        exists detail,
          serve st plan current_user req
          = (Raise (HTTPException 403 detail), st))
  /\ (~ path_valid req ->
      serve st plan current_user req = (Raise RequestValidationError, st)).
Proof.
  intros Hscope. repeat split.
  - intros Hvalid Habs. now apply event_absent with (event_id := event_id).
  - intros Hvalid event Hev Hstr.
    now apply event_forbidden with (event_id := event_id) (event := event).
  - intros Hinvalid.
    destruct req; simpl in Hscope, Hinvalid; try tauto; try discriminate.
    db_run. assert ((event_id0 <=? 0) = true) as -> by (apply Z.leb_le; lia).
    reflexivity.
Qed.

(** C4 as stated fails: [get_event] answers an absent event whose id is 0
    with a validation error, not with 404. *)
Lemma event_scope_404_counterexample :
  ~ (forall st plan current_user req event_id,
        event_scope req = Some event_id ->
        event_by_id event_id st = None ->
        exists detail,
          fst (serve st plan current_user req) = Raise (HTTPException 404 detail)).
Proof.
  intros H.
  destruct (H (init []) [] (User.mk 1 "alice" "alice@example.org" "x")
              (GET_event 0) 0 eq_refl eq_refl) as [detail Hd].
  vm_compute in Hd. discriminate Hd.
Qed.

(* ================================================================== *)
(** ** Sharing                                                          *)
(* ================================================================== *)

Lemma users_grant_or_update event_id perm st :
  users (grant_or_update event_id perm st) = users st.
Proof.
  unfold grant_or_update. now destruct (hd_error _).
Qed.

Lemma share_one_run event_id perm s :
  share_one event_id perm s
  = match user_by_id (PermissionCreate.user_id perm) (working s) with
    | None => (Raise (user_not_found perm), s)
    | Some _ =>
        (Return tt,
         mkSession (committed s) (grant_or_update event_id perm (working s))
                   (commit_plan s))
    end.
Proof.
  unfold share_one, grant_or_update. db_run.
  destruct (user_by_id _ _); [|reflexivity]. db_run.
  now destruct (hd_error _).
Qed.

(** The loop of [share_event] over known users only. *)
Lemma for_each_share_known event_id perms :
  forall s,
    Forall (known_user (working s)) perms ->
    for_each perms (share_one event_id) s
    = (Return tt,
       mkSession (committed s)
         (fold_left (fun st p => grant_or_update event_id p st) perms (working s))
         (commit_plan s)).
Proof.
  induction perms as [|p perms IH]; intros s Hall; simpl.
  - now destruct s.
  - inversion Hall as [|? ? Hp Hrest]; subst.
    unfold bind. rewrite share_one_run.
    unfold known_user in Hp.
    destruct (user_by_id _ (working s)) eqn:Hu; [|congruence].
    rewrite IH; simpl; [reflexivity|].
    unfold known_user, user_by_id in *. now rewrite users_grant_or_update.
Qed.

(** The loop of [share_event] when some user is unknown: it raises for the
    first of them, and nothing has been committed. *)
Lemma for_each_share_unknown event_id perms :
  forall s,
    Exists (fun p => ~ known_user (working s) p) perms ->
    exists q s',
      In q perms
      /\ user_by_id (PermissionCreate.user_id q) (working s) = None
      /\ for_each perms (share_one event_id) s = (Raise (user_not_found q), s')
      /\ committed s' = committed s.
Proof.
  induction perms as [|p perms IH]; intros s Hex.
  - inversion Hex.
  - simpl. unfold bind. rewrite share_one_run.
    destruct (user_by_id (PermissionCreate.user_id p) (working s)) eqn:Hu.
    + assert (Exists (fun p => ~ known_user (working s) p) perms) as Hex'.
      { inversion Hex as [? ? Hp|]; subst; [|assumption].
        unfold known_user in Hp. rewrite Hu in Hp.
        exfalso. apply Hp. discriminate. }
      set (s1 := mkSession _ _ _).
      destruct (IH s1) as (q & s' & Hin & Hq & Hrun & Hc).
      { unfold s1. simpl. unfold known_user, user_by_id in *.
        now rewrite users_grant_or_update. }
      exists q, s'. repeat split; auto.
      unfold s1 in Hq. simpl in Hq. unfold user_by_id in *.
      now rewrite users_grant_or_update in Hq.
    + exists p, s. repeat split; auto with datatypes.
Qed.

(** [share_event] for the owner when a user of the list is unknown: the
    request raises and nothing is committed. *)
Lemma share_event_rejects st plan current_user event_id permissions event :
  event_by_id event_id st = Some event ->
  Event.owner_id event = User.id current_user ->
  Exists (fun p => ~ known_user st p) permissions ->
  exists e,
    serve st plan current_user (POST_share event_id permissions) = (Raise e, st).
Proof.
  intros Hev How Hex.
  destruct (for_each_share_unknown event_id permissions (mkSession st st plan) Hex)
    as (q & s' & _ & _ & Hrun & Hc).
  exists (user_not_found q). destruct s' as [c w pl]. simpl in Hc. subst c.
  db_run. rewrite Hev. db_run. rewrite (owner_check _ _ How). db_run.
  now rewrite Hrun.
Qed.

(** C6: when the owner shares an event with a list of (user, role) entries
    and some entry names a user that does not exist, the request fails
    with 404 (naming such a user) and the committed tables are unchanged:
    no grant of the batch is applied. *)
Theorem share_all_or_nothing st plan current_user event_id permissions event p :
  event_by_id event_id st = Some event ->
  Event.owner_id event = User.id current_user ->
  In p permissions ->
  user_by_id (PermissionCreate.user_id p) st = None ->
  exists q,
    In q permissions
    /\ user_by_id (PermissionCreate.user_id q) st = None
    /\ serve st plan current_user (POST_share event_id permissions)
       = (Raise (user_not_found q), st).
Proof.
  intros Hev How Hin Hp.
  destruct (for_each_share_unknown event_id permissions (mkSession st st plan))
    as (q & s' & Hq & Hnone & Hrun & Hc).
  { apply Exists_exists. exists p. split; [assumption|].
    unfold known_user. simpl. now rewrite Hp. }
  exists q. destruct s' as [c w pl]. simpl in Hnone, Hc. subst c.
  repeat split; auto.
  db_run. rewrite Hev. db_run. rewrite (owner_check _ _ How). db_run.
  now rewrite Hrun.
Qed.

(* ================================================================== *)
(** ** Rows and queries                                                 *)
(* ================================================================== *)

Lemma event_by_id_id event_id st event :
  event_by_id event_id st = Some event -> Event.id event = event_id.
Proof.
  unfold event_by_id. intros H. apply find_some in H.
  now apply Z.eqb_eq.
Qed.

Lemma event_by_id_In event_id st event :
  event_by_id event_id st = Some event -> In event (events st).
Proof. unfold event_by_id. intros H. now apply find_some in H. Qed.

Lemma find_replace_event (db_event : Event.t) (es : list Event.t) old :
  find (fun e => Event.id e =? Event.id db_event) es = Some old ->
  find (fun e => Event.id e =? Event.id db_event) (replace_event db_event es)
  = Some db_event.
Proof.
  induction es as [|e es IH]; simpl; [discriminate|].
  destruct (Event.id e =? Event.id db_event) eqn:He.
  - intros _. simpl. now rewrite Z.eqb_refl.
  - intros H. simpl. rewrite He. auto.
Qed.

Lemma greatest_In vs w : greatest vs = Some w -> In w vs.
Proof.
  revert w. induction vs as [|v vs IH]; simpl; [discriminate|].
  intros w. destruct (greatest vs) as [u|].
  - destruct (EventVersion.version_number v <? EventVersion.version_number u);
      intros H; inversion H; subst; auto.
  - intros H; inversion H; auto.
Qed.

Lemma greatest_upper vs w :
  greatest vs = Some w ->
  forall v, In v vs ->
    EventVersion.version_number v <= EventVersion.version_number w.
Proof.
  revert w. induction vs as [|v vs IH]; simpl; [discriminate|].
  intros w Hw x [<- | Hx].
  - destruct (greatest vs) as [u|].
    + destruct (EventVersion.version_number v <? EventVersion.version_number u) eqn:Hlt;
        inversion Hw; subst; [apply Z.ltb_lt in Hlt|]; lia.
    + inversion Hw; subst; lia.
  - destruct (greatest vs) as [u|] eqn:Hg.
    + specialize (IH u eq_refl x Hx).
      destruct (EventVersion.version_number v <? EventVersion.version_number u) eqn:Hlt;
        inversion Hw; subst; [|apply Z.ltb_ge in Hlt]; lia.
    + destruct vs; [contradiction|]. simpl in Hg.
      destruct (greatest vs); [destruct (_ <? _)|]; discriminate.
Qed.

Lemma greatest_None vs : greatest vs = None -> vs = [].
Proof.
  destruct vs as [|v vs]; simpl; [reflexivity|].
  destruct (greatest vs); [destruct (_ <? _)|]; discriminate.
Qed.

(** A row whose number exceeds all the others is the first in descending
    order. *)
Lemma greatest_snoc vs nv :
  (forall v, In v vs ->
     EventVersion.version_number v < EventVersion.version_number nv) ->
  greatest (vs ++ [nv]) = Some nv.
Proof.
  induction vs as [|v vs IH]; intros Hlt; simpl; [reflexivity|].
  rewrite IH by (intros; apply Hlt; now right).
  specialize (Hlt v (or_introl eq_refl)).
  apply Z.ltb_lt in Hlt. now rewrite Hlt.
Qed.

Lemma find_snoc_fresh {A} (p : A -> bool) (l : list A) (x : A) :
  (forall y, In y l -> p y = false) -> p x = true ->
  find p (l ++ [x]) = Some x.
Proof.
  intros Hl Hx. induction l as [|y l IH]; simpl.
  - now rewrite Hx.
  - rewrite (Hl y (or_introl eq_refl)). apply IH.
    intros z Hz. apply Hl. now right.
Qed.

Lemma next_id_fresh (ids : list Z) : forall i, In i ids -> i < next_id ids.
Proof.
  unfold next_id. induction ids as [|j ids IH]; cbn [fold_right In]; [contradiction|].
  intros i [<- | Hi]; [lia|]. specialize (IH i Hi). lia.
Qed.

Lemma next_id_positive (ids : list Z) : 0 < next_id ids.
Proof.
  unfold next_id. induction ids as [|j ids IH]; cbn [fold_right]; lia.
Qed.

(* ================================================================== *)
(** ** Partial updates                                                  *)
(* ================================================================== *)

Lemma apply_items_id items : forall e,
  Event.id (apply_items items e) = Event.id e
  /\ Event.owner_id (apply_items items e) = Event.owner_id e.
Proof.
  unfold apply_items.
  induction items as [|kv items IH]; intros e; simpl; [auto|].
  destruct (IH (Event.mk (Event.id e)
                  (setattr (Event.fields e) (projT1 kv) (projT2 kv))
                  (Event.owner_id e))) as [H1 H2].
  simpl in H1, H2. auto.
Qed.

Lemma apply_entry f (u : option (column f)) items e :
  apply_items (entry f u ++ items) e = apply_items items (set_if_requested f u e).
Proof. destruct u; reflexivity. Qed.

Lemma getattr_set_if_requested_other f g (u : option (column g)) e :
  g <> f ->
  getattr (Event.fields (set_if_requested g u e)) f = getattr (Event.fields e) f.
Proof.
  intros H. destruct u; [|reflexivity]. now apply getattr_setattr_other.
Qed.

Lemma getattr_set_if_requested_same f (u : option (column f)) e :
  getattr (Event.fields (set_if_requested f u e)) f
  = match u with
    | Some v => v
    | None => getattr (Event.fields e) f
    end.
Proof. destruct u; [|reflexivity]. apply getattr_setattr_same. Qed.

(** The loop of [update_event] writes the fields that the body sets and
    leaves the others. *)
Lemma apply_items_requested (u : EventUpdate.t) (e : Event.t) (f : FieldName) :
  getattr (Event.fields (apply_items (dict_exclude_unset u) e)) f
  = match requested u f with
    | Some v => v
    | None => getattr (Event.fields e) f
    end.
Proof.
  unfold dict_exclude_unset.
  rewrite !apply_entry.
  replace (entry f_recurrence_end_date (EventUpdate.recurrence_end_date u))
    with (entry f_recurrence_end_date (EventUpdate.recurrence_end_date u) ++ [])
    by apply app_nil_r.
  rewrite apply_entry. unfold apply_items. cbn [fold_left].
  destruct f; cbn [requested];
    rewrite ?getattr_set_if_requested_other by discriminate;
    rewrite getattr_set_if_requested_same;
    (match goal with
     | |- match ?x with _ => _ end = _ => destruct x; [reflexivity|]
     end);
    rewrite ?getattr_set_if_requested_other by discriminate;
    reflexivity.
Qed.

Lemma apply_items_empty (e : Event.t) :
  apply_items (dict_exclude_unset empty_update) e = e.
Proof. reflexivity. Qed.

Lemma assign_fields_spec version event :
  assign_fields version event
  = Event.mk (Event.id event) (EventVersion.fields version) (Event.owner_id event).
Proof.
  destruct event as [i [? ? ? ? ? ? ? ?] o], version as [? ? [? ? ? ? ? ? ? ?] ? ?].
  reflexivity.
Qed.

(* ================================================================== *)
(** ** What the writing handlers do for the owner                       *)
(* ================================================================== *)

Lemma event_by_id_record_edit st db_event uid n old :
  event_by_id (Event.id db_event) st = Some old ->
  event_by_id (Event.id db_event) (record_edit st db_event uid n) = Some db_event.
Proof. unfold event_by_id. simpl. apply find_replace_event. Qed.

Ltac fold_record_edit st e uid n :=
  repeat match goal with
  | |- context [event_by_id _ ?X] =>
      progress change X with (record_edit st e uid n)
  end.

Lemma update_event_run st plan current_user event_id event_update event :
  event_by_id event_id st = Some event ->
  Event.owner_id event = User.id current_user ->
  serve st plan current_user (PUT_event event_id event_update)
  = match plan with
    | false :: _ => (Raise StorageError, st)
    | _ =>
        let db_event := apply_items (dict_exclude_unset event_update) event in
        (Return (EventOut db_event),
         record_edit st db_event (User.id current_user) (next_version event_id st))
    end.
Proof.
  intros Hev How.
  pose proof (event_by_id_id _ _ _ Hev) as Hid.
  destruct (apply_items_id (dict_exclude_unset event_update) event) as [Hid' _].
  db_run. rewrite Hev. db_run. rewrite (owner_check _ _ How). db_run.
  set (db_event := apply_items (dict_exclude_unset event_update) event) in *.
  assert (event_by_id (Event.id db_event) st = Some event) as Hev'
      by (now rewrite Hid', Hid).
  destruct plan as [|[|] plan]; db_run; try reflexivity;
    fold_record_edit st db_event (User.id current_user) (next_version event_id st);
    rewrite (event_by_id_record_edit _ _ _ _ _ Hev'); reflexivity.
Qed.

Lemma version_by_number_In event_id version_id st version :
  version_by_number event_id version_id st = Some version ->
  In version (versions_of event_id st)
  /\ EventVersion.version_number version = version_id.
Proof.
  unfold version_by_number. intros H. apply find_some in H.
  destruct H as [Hin Hn]. split; [assumption|now apply Z.eqb_eq].
Qed.

Lemma latest_version_exists event_id version_id st version :
  version_by_number event_id version_id st = Some version ->
  exists cv, latest_version event_id st = Some cv.
Proof.
  intros H. apply version_by_number_In in H. destruct H as [Hin _].
  unfold latest_version.
  destruct (greatest (versions_of event_id st)) as [cv|] eqn:Hg; [eauto|].
  apply greatest_None in Hg. rewrite Hg in Hin. contradiction.
Qed.

Lemma rollback_event_run st plan current_user event_id version_id event version :
  event_by_id event_id st = Some event ->
  Event.owner_id event = User.id current_user ->
  version_by_number event_id version_id st = Some version ->
  serve st plan current_user (POST_rollback event_id version_id)
  = match plan with
    | false :: _ => (Raise StorageError, st)
    | _ =>
        let db_event := Event.mk (Event.id event) (EventVersion.fields version)
                                 (Event.owner_id event) in
        (Return (EventOut db_event),
         record_edit st db_event (User.id current_user) (next_version event_id st))
    end.
Proof.
  intros Hev How Hver.
  pose proof (event_by_id_id _ _ _ Hev) as Hid.
  destruct (latest_version_exists _ _ _ _ Hver) as [cv Hcv].
  db_run. rewrite Hev. db_run. rewrite (owner_check _ _ How). db_run.
  rewrite Hver. db_run. rewrite assign_fields_spec.
  set (db_event := Event.mk _ _ _) in *.
  assert (event_by_id (Event.id db_event) st = Some event) as Hev'
      by (simpl; now rewrite Hid).
  change (latest_version event_id (set_events _ st))
    with (latest_version event_id st).
  unfold next_version. rewrite Hcv. db_run.
  destruct plan as [|[|] plan]; db_run; try reflexivity;
    fold_record_edit st db_event (User.id current_user)
                     (EventVersion.version_number cv + 1);
    rewrite (event_by_id_record_edit _ _ _ _ _ Hev'); reflexivity.
Qed.

Lemma event_by_id_new_event st fields owner_id :
  event_by_id (Event.id (new_event st fields owner_id))
              (with_event st fields owner_id)
  = Some (new_event st fields owner_id).
Proof.
  unfold event_by_id. simpl. apply find_snoc_fresh.
  - intros e He. apply Z.eqb_neq.
    pose proof (next_id_fresh (map Event.id (events st)) (Event.id e)
                  (in_map Event.id _ _ He)).
    lia.
  - apply Z.eqb_refl.
Qed.

Lemma create_event_run st plan current_user event :
  serve st plan current_user (POST_events event)
  = match plan with
    | false :: _ => (Raise StorageError, st)
    | true :: false :: _ =>
        (Raise StorageError,
         with_event st (EventCreate.dict event) (User.id current_user))
    | _ =>
        (Return (EventOut (new_event st (EventCreate.dict event)
                                     (User.id current_user))),
         with_event_and_version st (EventCreate.dict event) (User.id current_user))
    end.
Proof.
  db_run.
  change (set_events _ st)
    with (with_event st (EventCreate.dict event) (User.id current_user)).
  change (Event.mk _ (EventCreate.dict event) (User.id current_user))
    with (new_event st (EventCreate.dict event) (User.id current_user)).
  destruct plan as [|[|] plan]; db_run; try reflexivity;
    rewrite event_by_id_new_event; db_run; [reflexivity|].
  destruct plan as [|[|] plan]; reflexivity.
Qed.

Lemma versions_of_record_edit st db_event uid n :
  versions_of (Event.id db_event) (record_edit st db_event uid n)
  = versions_of (Event.id db_event) st
    ++ [snapshot st (Event.id db_event) (Event.fields db_event) uid n].
Proof.
  unfold versions_of. simpl. rewrite filter_app. simpl.
  unfold of_event at 2. simpl. now rewrite Z.eqb_refl.
Qed.

Lemma commits_cases (plan : list bool) :
  commits plan -> plan = [] \/ exists plan', plan = true :: plan'.
Proof.
  unfold commits. destruct plan as [|[|] plan]; simpl; intros H;
    [now left|right; eauto|discriminate].
Qed.

(** C5: an update by the owner whose commit goes through applies to the
    stored event exactly the fields set in the request body (a field that
    is not set keeps its value), and appends one snapshot that holds the
    full resulting field set of the event, for this event, with the caller
    as modifier. *)
Theorem update_applies_partial st plan current_user event_id event_update event :
  event_by_id event_id st = Some event ->
  Event.owner_id event = User.id current_user ->
  commits plan ->
  exists db_event nv st',
    serve st plan current_user (PUT_event event_id event_update)
    = (Return (EventOut db_event), st')
    /\ event_by_id event_id st' = Some db_event
    /\ Event.id db_event = event_id
    /\ Event.owner_id db_event = Event.owner_id event
    /\ (forall f,
          getattr (Event.fields db_event) f
          = match requested event_update f with
            | Some v => v
            | None => getattr (Event.fields event) f
            end)
    /\ event_versions st' = event_versions st ++ [nv]
    /\ EventVersion.event_id nv = Some event_id
    /\ (forall f, getattr (EventVersion.fields nv) f
                  = getattr (Event.fields db_event) f)
    /\ EventVersion.modified_by_id nv = User.id current_user.
Proof.
  intros Hev How Hplan.
  pose proof (event_by_id_id _ _ _ Hev) as Hid.
  destruct (apply_items_id (dict_exclude_unset event_update) event) as [Hid' How'].
  set (db_event := apply_items (dict_exclude_unset event_update) event) in *.
  exists db_event.
  exists (snapshot st (Event.id db_event) (Event.fields db_event)
                   (User.id current_user) (next_version event_id st)).
  exists (record_edit st db_event (User.id current_user) (next_version event_id st)).
  split.
  { rewrite (update_event_run _ _ _ _ _ _ Hev How).
    destruct (commits_cases _ Hplan) as [-> | [plan' ->]]; reflexivity. }
  split.
  { rewrite <- Hid, <- Hid'. apply event_by_id_record_edit with (old := event).
    now rewrite Hid', Hid. }
  repeat split; try assumption; try (simpl; congruence).
  intros f. apply apply_items_requested.
Qed.

(** C2: a rollback by the owner to an existing version, when its commit
    goes through, sets the event's eight editable fields to those of that
    version and appends one snapshot with the same fields; no row of the
    ledger is changed or removed; the new snapshot's number is strictly
    greater than every number recorded for the event before; and the new
    snapshot is the latest version of the event, the one that a fetch by
    its number returns. *)
Theorem rollback_round_trip st plan plan' current_user event_id version_id
    event version :
  event_by_id event_id st = Some event ->
  Event.owner_id event = User.id current_user ->
  version_by_number event_id version_id st = Some version ->
  commits plan ->
  exists db_event nv st',
    serve st plan current_user (POST_rollback event_id version_id)
    = (Return (EventOut db_event), st')
    /\ Event.fields db_event = EventVersion.fields version
    /\ event_by_id event_id st' = Some db_event
    /\ event_versions st' = event_versions st ++ [nv]
    /\ EventVersion.event_id nv = Some event_id
    /\ EventVersion.fields nv = EventVersion.fields version
    /\ (forall v, In v (versions_of event_id st) ->
          EventVersion.version_number v < EventVersion.version_number nv)
    /\ latest_version event_id st' = Some nv
    /\ serve st' plan' current_user
             (GET_history event_id (EventVersion.version_number nv))
       = (Return (VersionOut nv), st').
Proof.
  intros Hev How Hver Hplan.
  pose proof (event_by_id_id _ _ _ Hev) as Hid.
  destruct (latest_version_exists _ _ _ _ Hver) as [cv Hcv].
  set (db_event := Event.mk (Event.id event) (EventVersion.fields version)
                            (Event.owner_id event)).
  set (n := next_version event_id st).
  set (nv := snapshot st (Event.id db_event) (Event.fields db_event)
                      (User.id current_user) n).
  set (st' := record_edit st db_event (User.id current_user) n).
  assert (Hlt : forall v, In v (versions_of event_id st) ->
                  EventVersion.version_number v < EventVersion.version_number nv).
  { intros v Hv. simpl. unfold n, next_version. rewrite Hcv.
    pose proof (greatest_upper _ _ Hcv v Hv). lia. }
  assert (Hvs : versions_of event_id st' = versions_of event_id st ++ [nv]).
  { rewrite <- Hid. apply (versions_of_record_edit st db_event). }
  assert (Hev' : event_by_id event_id st' = Some db_event).
  { rewrite <- Hid.
    apply (event_by_id_record_edit st db_event) with (old := event).
    simpl. now rewrite Hid. }
  exists db_event, nv, st'.
  split.
  { rewrite (rollback_event_run _ _ _ _ _ _ _ Hev How Hver).
    destruct (commits_cases _ Hplan) as [-> | [p ->]]; reflexivity. }
  repeat split; try assumption; try (simpl; congruence).
  - unfold latest_version. rewrite Hvs. now apply greatest_snoc.
  - db_run. rewrite Hev'. db_run.
    change (Event.owner_id db_event) with (Event.owner_id event).
    rewrite (owner_check _ _ How). db_run.
    unfold version_by_number. rewrite Hvs.
    rewrite find_snoc_fresh; [reflexivity| |apply Z.eqb_refl].
    intros v Hv. apply Z.eqb_neq. specialize (Hlt v Hv). lia.
Qed.

(** C3 fails on the code: [create_event] commits the event row before it
    adds the snapshot.  When the first commit goes through and the second
    raises, the request fails and the event row stays committed, while the
    ledger is what it was. *)
Theorem create_event_half_applied st plan current_user event :
  exists db_event st',
    serve st (true :: false :: plan) current_user (POST_events event)
    = (Raise StorageError, st')
    /\ event_by_id (Event.id db_event) st' = Some db_event
    /\ event_by_id (Event.id db_event) st = None
    /\ event_versions st' = event_versions st.
Proof.
  exists (new_event st (EventCreate.dict event) (User.id current_user)).
  exists (with_event st (EventCreate.dict event) (User.id current_user)).
  rewrite create_event_run. repeat split.
  - apply event_by_id_new_event.
  - unfold event_by_id.
    destruct (find _ (events st)) as [e|] eqn:Hf; [|reflexivity].
    apply find_some in Hf. destruct Hf as [Hin He]. apply Z.eqb_eq in He.
    pose proof (next_id_fresh (map Event.id (events st)) (Event.id e)
                  (in_map Event.id _ _ Hin)).
    simpl in He. lia.
Qed.

(* ================================================================== *)
(** ** The committed transitions keep the tables consistent             *)
(* ================================================================== *)

Lemma ids_replace_event db_event es :
  map Event.id (replace_event db_event es) = map Event.id es.
Proof.
  induction es as [|e es IH]; simpl; [reflexivity|].
  rewrite IH. destruct (Event.id e =? Event.id db_event) eqn:He; [|reflexivity].
  apply Z.eqb_eq in He. now rewrite He.
Qed.

Lemma In_replace_event db_event es e :
  In e (replace_event db_event es) ->
  e = db_event \/ (In e es /\ Event.id e <> Event.id db_event).
Proof.
  unfold replace_event. intros H. apply in_map_iff in H.
  destruct H as (x & Hx & Hin).
  destruct (Event.id x =? Event.id db_event) eqn:He.
  - now left.
  - right. subst x. split; [assumption|now apply Z.eqb_neq].
Qed.

(** Removing rows keeps the primary keys of [events] unique. *)
Lemma unique_ids_filter (keep : Event.t -> bool) (es : list Event.t) :
  NoDup (map Event.id es) -> NoDup (map Event.id (filter keep es)).
Proof.
  intros Hnd. induction es as [|e es IH]; simpl; [constructor|].
  simpl in Hnd. apply NoDup_cons_iff in Hnd. destruct Hnd as [Hfresh Hrest].
  destruct (keep e); simpl; [|now apply IH].
  apply NoDup_cons_iff. split; [|now apply IH].
  intros Hin. apply Hfresh. apply in_map_iff in Hin.
  destruct Hin as (x & Hx & Hin). apply filter_In in Hin.
  apply in_map_iff. exists x. tauto.
Qed.

Lemma unique_events_same_row st e e' :
  unique_events st -> In e (events st) -> In e' (events st) ->
  Event.id e = Event.id e' -> e = e'.
Proof.
  unfold unique_events. induction (events st) as [|x l IH]; simpl; [tauto|].
  intros Hnd He He' Hid. inversion Hnd as [|? ? Hx Hl]; subst.
  destruct He as [-> | He], He' as [-> | He']; auto.
  - exfalso. apply Hx. rewrite Hid. now apply in_map.
  - exfalso. apply Hx. rewrite <- Hid. now apply in_map.
Qed.

Lemma new_event_fresh st fields owner_id :
  ~ In (Event.id (new_event st fields owner_id)) (map Event.id (events st)).
Proof.
  simpl. intros H. apply next_id_fresh in H. lia.
Qed.

Lemma greatest_snoc_cases vs x cv :
  greatest (vs ++ [x]) = Some cv -> cv = x \/ greatest vs = Some cv.
Proof.
  revert cv. induction vs as [|v vs IH]; simpl; intros cv H.
  - inversion H. now left.
  - destruct (greatest (vs ++ [x])) as [w|] eqn:Hg.
    + destruct (IH w eq_refl) as [-> | Hw].
      * destruct (greatest vs) as [u|] eqn:Hu.
        -- destruct (EventVersion.version_number v <? EventVersion.version_number x) eqn:H1;
             inversion H; subst; [now left|].
           right.
           pose proof (greatest_upper _ _ Hg u) as Hux.
           assert (In u (vs ++ [x])) as Hin
               by (apply in_or_app; left; now apply greatest_In).
           specialize (Hux Hin). apply Z.ltb_ge in H1.
           assert ((EventVersion.version_number cv <? EventVersion.version_number u) = false)
             as -> by (apply Z.ltb_ge; lia).
           reflexivity.
        -- destruct (EventVersion.version_number v <? EventVersion.version_number x);
             inversion H; subst; auto.
      * rewrite Hw. right. exact H.
    + destruct vs; simpl in Hg; [discriminate|].
      destruct (greatest (vs ++ [x])); [destruct (_ <? _)|]; discriminate.
Qed.

Lemma versions_of_snoc event_id st v :
  versions_of event_id (set_event_versions (fun vs => vs ++ [v]) st)
  = versions_of event_id st ++ (if of_event event_id v then [v] else []).
Proof.
  unfold versions_of. simpl. rewrite filter_app. simpl.
  now destruct (of_event event_id v).
Qed.

Lemma of_event_snapshot st e fields uid n event_id :
  of_event event_id (snapshot st e fields uid n) = (e =? event_id).
Proof. reflexivity. Qed.

Lemma versions_of_delete_rows db_event st event_id :
  event_id <> Event.id db_event ->
  versions_of event_id (delete_rows db_event st) = versions_of event_id st.
Proof.
  intros Hne. unfold versions_of. simpl.
  induction (event_versions st) as [|v vs IH]; simpl; [reflexivity|].
  rewrite IH. clear IH.
  destruct (of_event (Event.id db_event) v) eqn:Hd.
  - assert (of_event event_id v = false) as ->.
    { unfold of_event in *. destruct (EventVersion.event_id v); [|reflexivity].
      apply Z.eqb_eq in Hd. apply Z.eqb_neq. lia. }
    reflexivity.
  - reflexivity.
Qed.

Lemma filter_filter_length {A} (p q : A -> bool) (l : list A) :
  (List.length (filter p (filter q l)) <= List.length (filter p l))%nat.
Proof.
  induction l as [|x l IH]; simpl; [lia|].
  destruct (q x); simpl; destruct (p x); simpl; lia.
Qed.

Lemma grants_of_update_role event_id user_id role e u ps :
  List.length
    (filter (grant_matches e u)
       (map (fun p =>
               if grant_matches event_id user_id p
               then Permission.mk (Permission.event_id p) (Permission.user_id p) role
               else p) ps))
  = List.length (filter (grant_matches e u) ps).
Proof.
  induction ps as [|p ps IH]; simpl; [reflexivity|].
  assert (grant_matches e u
            (if grant_matches event_id user_id p
             then Permission.mk (Permission.event_id p) (Permission.user_id p) role
             else p)
          = grant_matches e u p) as ->
      by (now destruct (grant_matches event_id user_id p)).
  destruct (grant_matches e u p); simpl; now rewrite IH.
Qed.

Lemma grant_matches_eq e u p :
  grant_matches e u p = true <->
  Permission.event_id p = e /\ Permission.user_id p = u.
Proof.
  unfold grant_matches. rewrite andb_true_iff, !Z.eqb_eq. tauto.
Qed.

Lemma unique_grants_grant_or_update event_id perm st :
  unique_grants st -> unique_grants (grant_or_update event_id perm st).
Proof.
  intros H e u. unfold grant_or_update.
  destruct (hd_error _) eqn:Hhd; unfold grants_of; simpl.
  - rewrite grants_of_update_role. apply H.
  - rewrite filter_app, length_app. simpl.
    destruct (grant_matches e u (Permission.mk _ _ _)) eqn:Hm; simpl.
    + apply grant_matches_eq in Hm. simpl in Hm. destruct Hm as [<- <-].
      unfold grants_of in Hhd.
      destruct (filter _ (event_permissions st)); [simpl; lia|discriminate].
    + specialize (H e u). unfold grants_of in H. lia.
Qed.

Lemma step_unique_events st st' :
  step st st' -> unique_events st -> unique_events st'.
Proof.
  unfold unique_events. intros Hstep H.
  destruct Hstep; simpl.
  - rewrite map_app. simpl.
    apply NoDup_incl_NoDup with (l := next_id (map Event.id (events st)) :: map Event.id (events st)).
    + constructor; [|assumption].
      apply (new_event_fresh st fields owner_id).
    + rewrite length_app. simpl. lia.
    + intros x Hx. apply in_or_app. simpl in *. tauto.
  - assumption.
  - now rewrite ids_replace_event.
  - now apply unique_ids_filter.
  - unfold grant_or_update. now destruct (hd_error _).
Qed.

Lemma events_grant_or_update event_id perm st :
  events (grant_or_update event_id perm st) = events st
  /\ event_versions (grant_or_update event_id perm st) = event_versions st.
Proof. unfold grant_or_update. now destruct (hd_error _). Qed.

Lemma step_referential st st' :
  step st st' -> referential st -> referential st'.
Proof.
  unfold referential. intros Hstep H.
  destruct Hstep as [st fields owner_id | st event uid n Hin
                    | st db_event old uid n Hold Hn | st db_event
                    | st event_id perm]; simpl.
  - intros v e Hv He. rewrite map_app. apply in_or_app. left. eauto.
  - intros v e Hv He. apply in_app_or in Hv. destruct Hv as [Hv | [<- | []]].
    + eauto.
    + simpl in He. inversion He; subst. now apply in_map.
  - intros v e Hv He. rewrite ids_replace_event.
    apply in_app_or in Hv. destruct Hv as [Hv | [<- | []]].
    + eauto.
    + simpl in He. inversion He; subst.
      apply event_by_id_In in Hold as Hin. apply event_by_id_id in Hold.
      rewrite <- Hold. now apply in_map.
  - intros v e Hv He. apply in_map_iff in Hv. destruct Hv as (w & Hw & Hin).
    destruct (of_event (Event.id db_event) w) eqn:Hof.
    + subst v. discriminate He.
    + subst w. specialize (H v e Hin He).
      apply in_map_iff in H. destruct H as (x & Hx & Hxin).
      apply in_map_iff. exists x. split; [assumption|].
      apply filter_In. split; [assumption|].
      unfold of_event in Hof. rewrite He in Hof.
      apply negb_true_iff. apply Z.eqb_neq. apply Z.eqb_neq in Hof. lia.
  - destruct (events_grant_or_update event_id perm st) as [-> ->]. exact H.
Qed.

Lemma step_unique_grants st st' :
  step st st' -> unique_grants st -> unique_grants st'.
Proof.
  intros Hstep H.
  destruct Hstep; try exact H.
  - intros e u. unfold grants_of. simpl.
    etransitivity; [apply filter_filter_length|]. apply H.
  - now apply unique_grants_grant_or_update.
Qed.

Lemma latest_version_referential st event_id cv :
  referential st ->
  latest_version event_id st = Some cv ->
  In event_id (map Event.id (events st)).
Proof.
  intros Href Hcv. unfold latest_version in Hcv.
  apply greatest_In in Hcv. unfold versions_of in Hcv.
  apply filter_In in Hcv. destruct Hcv as [Hin Hof].
  unfold of_event in Hof.
  destruct (EventVersion.event_id cv) as [e|] eqn:He; [|discriminate].
  apply Z.eqb_eq in Hof. subst e. eauto.
Qed.

Lemma step_snapshot_current st st' :
  step st st' -> unique_events st -> referential st ->
  snapshot_current st -> snapshot_current st'.
Proof.
  unfold snapshot_current. intros Hstep Huniq Href H.
  destruct Hstep as [st fields owner_id | st event uid n Hin
                    | st db_event old uid n Hold Hn | st db_event
                    | st event_id perm].
  - intros e cv He Hcv. simpl in He. apply in_app_or in He.
    change (latest_version (Event.id e) (with_event st fields owner_id))
      with (latest_version (Event.id e) st) in Hcv.
    destruct He as [He | [<- | []]]; [eauto|].
    exfalso. apply (new_event_fresh st fields owner_id).
    eapply latest_version_referential; eauto.
  - intros e cv He Hcv. simpl in He.
    unfold latest_version in Hcv. rewrite versions_of_snoc in Hcv.
    rewrite of_event_snapshot in Hcv.
    destruct (Event.id event =? Event.id e) eqn:Hid.
    + apply Z.eqb_eq in Hid.
      assert (event = e) as -> by (eapply unique_events_same_row; eauto).
      apply greatest_snoc_cases in Hcv. destruct Hcv as [-> | Hcv]; [reflexivity|].
      eauto.
    + rewrite app_nil_r in Hcv. eauto.
  - intros e cv He Hcv. simpl in He.
    unfold latest_version in Hcv.
    change (versions_of (Event.id e) (record_edit st db_event uid n))
      with (versions_of (Event.id e)
              (set_event_versions
                 (fun vs => vs ++ [snapshot st (Event.id db_event)
                                            (Event.fields db_event) uid n]) st))
      in Hcv.
    rewrite versions_of_snoc, of_event_snapshot in Hcv.
    apply In_replace_event in He. destruct He as [-> | [He Hne]].
    + rewrite Z.eqb_refl in Hcv.
      rewrite greatest_snoc in Hcv by exact Hn.
      now inversion Hcv.
    + assert ((Event.id db_event =? Event.id e) = false) as Hf
          by (apply Z.eqb_neq; lia).
      rewrite Hf, app_nil_r in Hcv. eauto.
  - intros e cv He Hcv. simpl in He. apply filter_In in He.
    destruct He as [He Hne]. apply negb_true_iff, Z.eqb_neq in Hne.
    unfold latest_version in Hcv.
    rewrite versions_of_delete_rows in Hcv by exact Hne. eauto.
  - intros e cv He Hcv.
    destruct (events_grant_or_update event_id perm st) as [Hev Hvs].
    rewrite Hev in He. unfold latest_version, versions_of in Hcv.
    rewrite Hvs in Hcv. eauto.
Qed.

Lemma step_consistent st st' : step st st' -> consistent st -> consistent st'.
Proof.
  intros Hstep [H1 H2 H3 H4]. constructor.
  - eapply step_unique_events; eauto.
  - eapply step_referential; eauto.
  - eapply step_snapshot_current; eauto.
  - eapply step_unique_grants; eauto.
Qed.

Lemma steps_consistent st st' : steps st st' -> consistent st -> consistent st'.
Proof.
  intros Hsteps. induction Hsteps as [|st1 st2 st3 H12 IH H23]; [auto|].
  intros Hc. eapply step_consistent; eauto.
Qed.

Lemma steps_trans st1 st2 st3 : steps st1 st2 -> steps st2 st3 -> steps st1 st3.
Proof.
  intros H12 H23. induction H23 as [|? ? ? ? IH Hstep]; [assumption|].
  eapply steps_then; [apply IH; assumption|exact Hstep].
Qed.

Lemma steps_one st st' : step st st' -> steps st st'.
Proof. intros H. eapply steps_then; [apply steps_refl|exact H]. Qed.

Lemma init_consistent us : consistent (init us).
Proof.
  constructor.
  - constructor.
  - intros v e [].
  - intros e cv [].
  - intros e u. simpl. lia.
Qed.

(* ================================================================== *)
(** ** Every request, as committed transitions                          *)
(* ================================================================== *)

Lemma next_version_above event_id st :
  forall v, In v (versions_of event_id st) ->
    EventVersion.version_number v < next_version event_id st.
Proof.
  intros v Hv. unfold next_version, latest_version.
  destruct (greatest (versions_of event_id st)) as [cv|] eqn:Hg.
  - pose proof (greatest_upper _ _ Hg v Hv). lia.
  - apply greatest_None in Hg. rewrite Hg in Hv. contradiction.
Qed.

Lemma delete_event_run st plan current_user event_id event :
  event_by_id event_id st = Some event ->
  Event.owner_id event = User.id current_user ->
  serve st plan current_user (DELETE_event event_id)
  = match plan with
    | false :: _ => (Raise StorageError, st)
    | _ => (Return (MessageOut "Event deleted successfully"), delete_rows event st)
    end.
Proof.
  intros Hev How.
  db_run. rewrite Hev. db_run. rewrite (owner_check _ _ How). db_run.
  destruct plan as [|[|] plan]; reflexivity.
Qed.

Lemma share_event_run st plan current_user event_id permissions event :
  event_by_id event_id st = Some event ->
  Event.owner_id event = User.id current_user ->
  Forall (known_user st) permissions ->
  serve st plan current_user (POST_share event_id permissions)
  = match plan with
    | false :: _ => (Raise StorageError, st)
    | _ =>
        (Return (ShareOut "Event shared successfully"
                   (map permission_out
                      (permissions_of event_id (grant_all event_id permissions st)))),
         grant_all event_id permissions st)
    end.
Proof.
  intros Hev How Hknown.
  db_run. rewrite Hev. db_run. rewrite (owner_check _ _ How). db_run.
  rewrite (for_each_share_known event_id permissions (mkSession st st plan) Hknown).
  db_run. fold (grant_all event_id permissions st).
  destruct plan as [|[|] plan]; reflexivity.
Qed.

Lemma rollback_event_no_version st plan current_user event_id version_id event :
  event_by_id event_id st = Some event ->
  Event.owner_id event = User.id current_user ->
  version_by_number event_id version_id st = None ->
  serve st plan current_user (POST_rollback event_id version_id)
  = (Raise (HTTPException 404 "Version not found"), st).
Proof.
  intros Hev How Hver.
  db_run. rewrite Hev. db_run. rewrite (owner_check _ _ How). db_run.
  now rewrite Hver.
Qed.

(** The handlers that only read leave the tables alone. *)
Lemma read_only st plan current_user req :
  match req with
  | GET_events _ _ _ _ | GET_event _ | GET_history _ _
  | GET_changelog _ | GET_diff _ _ _ => True
  | _ => False
  end ->
  snd (serve st plan current_user req) = st.
Proof.
  destruct req; intros H; try contradiction; db_run.
  - now destruct (_ || _).
  - destruct (event_id <=? 0); [reflexivity|]. db_run.
    destruct (event_by_id event_id st); [|reflexivity]. db_run.
    now destruct (negb _).
  - destruct (event_by_id event_id st); [|reflexivity]. db_run.
    destruct (negb _); [reflexivity|]. db_run.
    now destruct (version_by_number event_id version_id st).
  - destruct (event_by_id event_id st); [|reflexivity]. db_run.
    now destruct (negb _).
  - destruct (event_by_id event_id st); [|reflexivity]. db_run.
    destruct (negb _); [reflexivity|]. db_run.
    destruct (version_by_number event_id version_id1 st);
      now destruct (version_by_number event_id version_id2 st).
Qed.

(** Who is asking, against the event's owner. *)
Lemma owner_or_stranger (event : Event.t) (current_user : User.t) :
  Event.owner_id event = User.id current_user
  \/ Event.owner_id event <> User.id current_user.
Proof. destruct (Z.eq_dec (Event.owner_id event) (User.id current_user)); auto. Qed.

Lemma known_or_unknown st permissions :
  Forall (known_user st) permissions
  \/ Exists (fun p => ~ known_user st p) permissions.
Proof.
  induction permissions as [|p ps [IH | IH]].
  - left. constructor.
  - destruct (user_by_id (PermissionCreate.user_id p) st) eqn:Hu.
    + left. constructor; [|assumption]. unfold known_user. now rewrite Hu.
    + right. constructor. unfold known_user. rewrite Hu. auto.
  - right. now constructor 2.
Qed.

Lemma step_first_version st fields owner_id :
  step (with_event st fields owner_id) (with_event_and_version st fields owner_id).
Proof.
  apply (step_snapshot (with_event st fields owner_id)
                       (new_event st fields owner_id) owner_id 1).
  simpl. apply in_or_app. right. now left.
Qed.

Lemma steps_created st fields owner_id :
  steps st (with_event_and_version st fields owner_id).
Proof.
  eapply steps_then; [apply steps_one, step_event|apply step_first_version].
Qed.

Lemma steps_grant_all event_id perms : forall st,
  steps st (grant_all event_id perms st).
Proof.
  unfold grant_all.
  induction perms as [|p perms IH]; intros st; simpl; [apply steps_refl|].
  eapply steps_trans; [apply steps_one, step_grant|apply IH].
Qed.

(** One turn of the loop of [create_batch_events]. *)
Lemma batch_iteration event_data batch current_user acc st plan :
  create_batch_events_loop (event_data :: batch) current_user acc
                           (mkSession st st plan)
  = let fields := EventCreate.dict event_data in
    let uid := User.id current_user in
    match plan with
    | false :: p => (Raise StorageError, mkSession st st p)
    | true :: false :: p =>
        (Raise StorageError,
         mkSession (with_event st fields uid) (with_event st fields uid) p)
    | _ =>
        create_batch_events_loop batch current_user
          (acc ++ [new_event st fields uid])
          (mkSession (with_event_and_version st fields uid)
                     (with_event_and_version st fields uid)
                     (skipn 2 plan))
    end.
Proof.
  cbn [create_batch_events_loop]. db_run.
  change (set_events _ st)
    with (with_event st (EventCreate.dict event_data) (User.id current_user)).
  change (Event.mk _ (EventCreate.dict event_data) (User.id current_user))
    with (new_event st (EventCreate.dict event_data) (User.id current_user)).
  destruct plan as [|[|] plan]; db_run; try reflexivity;
    rewrite event_by_id_new_event; db_run; [reflexivity|].
  destruct plan as [|[|] plan]; reflexivity.
Qed.

Lemma batch_steps current_user batch : forall acc st plan,
  steps st (committed (snd (create_batch_events_loop batch current_user acc
                              (mkSession st st plan)))).
Proof.
  induction batch as [|event_data batch IH]; intros acc st plan.
  - apply steps_refl.
  - rewrite batch_iteration. cbv zeta.
    destruct plan as [|[|] [|[|] plan]]; cbn [snd committed];
      try apply steps_refl;
      try (eapply steps_trans; [apply steps_created|apply IH]).
    apply steps_one, step_event.
Qed.

Lemma all_true_skipn n plan : all_true plan -> all_true (skipn n plan).
Proof.
  unfold all_true. rewrite !Forall_forall. intros H x Hx.
  apply H. revert plan H Hx. induction n as [|n IH]; intros plan H Hx; [exact Hx|].
  destruct plan as [|b plan]; [destruct Hx|].
  simpl in Hx. right. apply (IH plan); [|exact Hx].
  intros y Hy. apply H. now right.
Qed.

(** A batch, when every commit goes through. *)
Lemma batch_run current_user batch : forall acc st plan,
  all_true plan ->
  exists plan',
    create_batch_events_loop batch current_user acc (mkSession st st plan)
    = (Return (acc ++ fst (create_all batch (User.id current_user) st)),
       mkSession (snd (create_all batch (User.id current_user) st))
                 (snd (create_all batch (User.id current_user) st)) plan').
Proof.
  induction batch as [|event_data batch IH]; intros acc st plan Hplan.
  - exists plan. simpl. now rewrite app_nil_r.
  - rewrite batch_iteration. cbv zeta.
    destruct (IH (acc ++ [new_event st (EventCreate.dict event_data)
                                    (User.id current_user)])
                 (with_event_and_version st (EventCreate.dict event_data)
                                         (User.id current_user))
                 (skipn 2 plan) (all_true_skipn 2 plan Hplan)) as [plan' Hrun].
    exists plan'. cbn [create_all].
    destruct (create_all batch (User.id current_user) _) as [es st2] eqn:Hall.
    cbn [fst snd] in *. rewrite <- app_assoc in Hrun. cbn [app] in Hrun.
    destruct plan as [|[|] [|[|] plan]]; try exact Hrun;
      exfalso; unfold all_true in Hplan; rewrite Forall_forall in Hplan;
      specialize (Hplan false); simpl in Hplan;
      assert (false = true) by (apply Hplan; auto); discriminate.
Qed.

Lemma snd_fmap {A B} (f : A -> B) (c : M A) (s : Session) :
  snd (fmap f c s) = snd (c s).
Proof. unfold fmap, bind, ret. now destruct (c s) as [[a|e] s']. Qed.

Lemma serve_committed st plan current_user req :
  snd (serve st plan current_user req)
  = committed (snd (handle req current_user (mkSession st st plan))).
Proof.
  unfold serve. now destruct (handle req current_user _).
Qed.

Ltac guarded st plan current_user req event_id Hev :=
  match type of Hev with
  | _ = None =>
      rewrite (event_absent st plan current_user req event_id eq_refl I Hev)
  | _ = Some ?event =>
      let Hstr := fresh "Hstr" in
      let d := fresh "detail" in
      let Hd := fresh "Hd" in
      intros Hstr;
      destruct (event_forbidden st plan current_user req event_id event
                  eq_refl I Hev Hstr) as [d Hd];
      rewrite Hd
  end.

(** Whatever the request and the storage layer's answers, the committed
    tables move by committed transitions. *)
Lemma serve_steps st plan current_user req :
  steps st (snd (serve st plan current_user req)).
Proof.
  destruct req.
  - rewrite create_event_run.
    destruct plan as [|[|] [|[|] plan]]; cbn [snd];
      try apply steps_refl; try apply steps_created.
    apply steps_one, step_event.
  - rewrite read_only by exact I. apply steps_refl.
  - rewrite read_only by exact I. apply steps_refl.
  - destruct (event_by_id event_id st) as [event|] eqn:Hev.
    + destruct (owner_or_stranger event current_user) as [How | Hstr].
      * rewrite (update_event_run _ _ _ _ _ _ Hev How).
        assert (step st (record_edit st
                  (apply_items (dict_exclude_unset event_update) event)
                  (User.id current_user) (next_version event_id st))) as Hstep.
        { pose proof (event_by_id_id _ _ _ Hev) as Hid.
          destruct (apply_items_id (dict_exclude_unset event_update) event)
            as [Hid' _].
          apply step_edit with (old := event).
          - now rewrite Hid', Hid.
          - rewrite Hid', Hid. apply next_version_above. }
        destruct plan as [|[|] plan]; cbn [snd];
          try apply steps_refl; now apply steps_one.
      * revert Hstr.
        guarded st plan current_user (PUT_event event_id event_update) event_id Hev.
        apply steps_refl.
    + guarded st plan current_user (PUT_event event_id event_update) event_id Hev.
      apply steps_refl.
  - destruct (event_by_id event_id st) as [event|] eqn:Hev.
    + destruct (owner_or_stranger event current_user) as [How | Hstr].
      * rewrite (delete_event_run _ _ _ _ _ Hev How).
        destruct plan as [|[|] plan]; cbn [snd];
          try apply steps_refl; apply steps_one, step_delete.
      * revert Hstr.
        guarded st plan current_user (DELETE_event event_id) event_id Hev.
        apply steps_refl.
    + guarded st plan current_user (DELETE_event event_id) event_id Hev.
      apply steps_refl.
  - rewrite serve_committed. cbn [handle]. rewrite snd_fmap.
    apply batch_steps.
  - destruct (event_by_id event_id st) as [event|] eqn:Hev.
    + destruct (owner_or_stranger event current_user) as [How | Hstr].
      * destruct (known_or_unknown st permissions) as [Hknown | Hunknown].
        -- rewrite (share_event_run _ _ _ _ _ _ Hev How Hknown).
           destruct plan as [|[|] plan]; cbn [snd];
             try apply steps_refl; apply steps_grant_all.
        -- destruct (share_event_rejects st plan current_user event_id
                       permissions event Hev How Hunknown) as [exn Hrun].
           rewrite Hrun. apply steps_refl.
      * revert Hstr.
        guarded st plan current_user (POST_share event_id permissions) event_id Hev.
        apply steps_refl.
    + guarded st plan current_user (POST_share event_id permissions) event_id Hev.
      apply steps_refl.
  - rewrite read_only by exact I. apply steps_refl.
  - destruct (event_by_id event_id st) as [event|] eqn:Hev.
    + destruct (owner_or_stranger event current_user) as [How | Hstr].
      * destruct (version_by_number event_id version_id st) as [version|] eqn:Hver.
        -- rewrite (rollback_event_run _ _ _ _ _ _ _ Hev How Hver).
           assert (step st (record_edit st
                     (Event.mk (Event.id event) (EventVersion.fields version)
                               (Event.owner_id event))
                     (User.id current_user) (next_version event_id st))) as Hstep.
           { pose proof (event_by_id_id _ _ _ Hev) as Hid.
             apply step_edit with (old := event); cbn [Event.id].
             - now rewrite Hid.
             - rewrite Hid. apply next_version_above. }
           destruct plan as [|[|] plan]; cbn [snd];
             try apply steps_refl; now apply steps_one.
        -- rewrite (rollback_event_no_version _ _ _ _ _ _ Hev How Hver).
           apply steps_refl.
      * revert Hstr.
        guarded st plan current_user (POST_rollback event_id version_id) event_id Hev.
        apply steps_refl.
    + guarded st plan current_user (POST_rollback event_id version_id) event_id Hev.
      apply steps_refl.
  - rewrite read_only by exact I. apply steps_refl.
  - rewrite read_only by exact I. apply steps_refl.
Qed.

Lemma run_snoc calls c st :
  run (calls ++ [c]) st = run_step (run calls st) c.
Proof. unfold run. now rewrite fold_left_app. Qed.

Lemma run_steps calls st : steps st (snd (run calls st)).
Proof.
  induction calls as [|c calls IH] using rev_ind.
  - apply steps_refl.
  - rewrite run_snoc. unfold run_step.
    destruct (serve _ _ _ _) as [out st'] eqn:Hs. cbn [snd].
    eapply steps_trans; [exact IH|].
    replace st' with (snd (serve (snd (run calls st)) (storage c) (caller c)
                                 (request c))) by now rewrite Hs.
    apply serve_steps.
Qed.

(** Every state that requests can reach is consistent, storage failures
    included. *)
Lemma reachable_consistent st : reachable st -> consistent st.
Proof.
  intros (us & calls & <-).
  eapply steps_consistent; [apply run_steps|apply init_consistent].
Qed.

(* ================================================================== *)
(** ** Updates that change nothing, and repeated grants                 *)
(* ================================================================== *)

Lemma replace_event_same st event :
  unique_events st -> In event (events st) ->
  replace_event event (events st) = events st.
Proof.
  intros Huniq Hin. unfold replace_event.
  rewrite <- (map_id (events st)) at 2.
  apply map_ext_in. intros e He.
  destruct (Event.id e =? Event.id event) eqn:Hid; [|reflexivity].
  apply Z.eqb_eq in Hid. symmetry.
  eapply unique_events_same_row; eauto.
Qed.

(** C10: in any state that requests can reach, an update by the owner with
    an empty body, when its commit goes through, returns the event as it
    was, leaves the rows of [events] and the grants unchanged, and appends
    exactly one snapshot to the ledger: for this event, numbered above
    every number recorded for the event, one more than the number of the
    latest snapshot, and with that snapshot's field values. *)
Theorem empty_update_appends st plan current_user event_id event :
  reachable st ->
  event_by_id event_id st = Some event ->
  Event.owner_id event = User.id current_user ->
  commits plan ->
  exists nv st',
    serve st plan current_user (PUT_event event_id empty_update)
    = (Return (EventOut event), st')
    /\ events st' = events st
    /\ event_permissions st' = event_permissions st
    /\ event_versions st' = event_versions st ++ [nv]
    /\ EventVersion.event_id nv = Some event_id
    /\ (forall v, In v (versions_of event_id st) ->
          EventVersion.version_number v < EventVersion.version_number nv)
    /\ (forall cv, latest_version event_id st = Some cv ->
          EventVersion.version_number nv = EventVersion.version_number cv + 1
          /\ EventVersion.fields nv = EventVersion.fields cv).
Proof.
  intros Hreach Hev How Hplan.
  destruct (reachable_consistent _ Hreach) as [Huniq _ Hcur _].
  pose proof (event_by_id_id _ _ _ Hev) as Hid.
  pose proof (event_by_id_In _ _ _ Hev) as Hin.
  exists (snapshot st (Event.id event) (Event.fields event)
                   (User.id current_user) (next_version event_id st)).
  exists (record_edit st event (User.id current_user) (next_version event_id st)).
  split.
  { rewrite (update_event_run _ _ _ _ _ _ Hev How), apply_items_empty.
    destruct (commits_cases _ Hplan) as [-> | [plan' ->]]; reflexivity. }
  repeat split.
  - simpl. now apply replace_event_same.
  - simpl. now rewrite Hid.
  - apply next_version_above.
  - simpl. unfold next_version. now rewrite H.
  - simpl. symmetry. apply (Hcur event cv Hin). now rewrite Hid.
Qed.

Lemma filter_update_role e u role ps :
  filter (grant_matches e u)
    (map (fun p =>
            if grant_matches e u p
            then Permission.mk (Permission.event_id p) (Permission.user_id p) role
            else p) ps)
  = map (fun p => Permission.mk (Permission.event_id p) (Permission.user_id p) role)
        (filter (grant_matches e u) ps).
Proof.
  induction ps as [|p ps IH]; simpl; [reflexivity|].
  destruct (grant_matches e u p) eqn:Hm; simpl.
  - unfold grant_matches at 1. simpl. fold (grant_matches e u p).
    rewrite Hm. simpl. now rewrite IH.
  - rewrite Hm. exact IH.
Qed.

(** After a grant, the pair has exactly one row, with the granted role. *)
Lemma grants_of_grant_or_update event_id user_id role st :
  unique_grants st ->
  grants_of event_id user_id
    (grant_or_update event_id (PermissionCreate.mk user_id role) st)
  = [Permission.mk event_id user_id role].
Proof.
  intros Huniq. specialize (Huniq event_id user_id).
  unfold grant_or_update. cbn [PermissionCreate.user_id PermissionCreate.role].
  destruct (grants_of event_id user_id st) as [|p [|p' ps]] eqn:Hg;
    cbn [hd_error]; unfold grants_of in *; cbn [event_permissions set_event_permissions].
  - rewrite filter_app, Hg. cbn [filter app].
    unfold grant_matches. cbn. now rewrite !Z.eqb_refl.
  - rewrite filter_update_role, Hg. cbn [map].
    assert (In p (filter (grant_matches event_id user_id) (event_permissions st)))
      as Hin by (rewrite Hg; now left).
    apply filter_In in Hin. destruct Hin as [_ Hm].
    apply grant_matches_eq in Hm. destruct Hm as [-> ->]. reflexivity.
  - simpl in Huniq. lia.
Qed.

Lemma length_grant_or_update_existing event_id perm st p :
  hd_error (grants_of event_id (PermissionCreate.user_id perm) st) = Some p ->
  List.length (event_permissions (grant_or_update event_id perm st))
  = List.length (event_permissions st).
Proof.
  intros H. unfold grant_or_update. rewrite H. simpl. apply length_map.
Qed.

Lemma grant_or_update_frame event_id perm st :
  users (grant_or_update event_id perm st) = users st
  /\ events (grant_or_update event_id perm st) = events st
  /\ event_versions (grant_or_update event_id perm st) = event_versions st.
Proof. unfold grant_or_update. now destruct (hd_error _). Qed.

(** C9: in any state that requests can reach, when the owner shares an
    event with an existing user under one role and then again under
    another (in two requests whose commits go through, or in two entries of
    one request), the pair (event, user) has exactly one grant, with the
    role granted last; the second grant inserts no row. *)
Theorem regrant_replaces st plan1 plan2 current_user event_id event user_id r1 r2 :
  reachable st ->
  event_by_id event_id st = Some event ->
  Event.owner_id event = User.id current_user ->
  user_by_id user_id st <> None ->
  commits plan1 -> commits plan2 ->
  let st1 := snd (serve st plan1 current_user
                    (POST_share event_id [PermissionCreate.mk user_id r1])) in
  let st2 := snd (serve st1 plan2 current_user
                    (POST_share event_id [PermissionCreate.mk user_id r2])) in
  let st12 := snd (serve st plan1 current_user
                     (POST_share event_id [PermissionCreate.mk user_id r1;
                                           PermissionCreate.mk user_id r2])) in
  grants_of event_id user_id st1 = [Permission.mk event_id user_id r1]
  /\ grants_of event_id user_id st2 = [Permission.mk event_id user_id r2]
  /\ List.length (event_permissions st2) = List.length (event_permissions st1)
  /\ grants_of event_id user_id st12 = [Permission.mk event_id user_id r2].
Proof.
  intros Hreach Hev How Huser Hplan1 Hplan2.
  destruct (reachable_consistent _ Hreach) as [_ _ _ Huniq].
  set (g1 := grant_or_update event_id (PermissionCreate.mk user_id r1) st).
  assert (Hst1 : snd (serve st plan1 current_user
                        (POST_share event_id [PermissionCreate.mk user_id r1])) = g1).
  { rewrite (share_event_run _ _ _ _ _ _ Hev How).
    - destruct (commits_cases _ Hplan1) as [-> | [p ->]]; reflexivity.
    - constructor; [exact Huser|constructor]. }
  assert (Hst12 : snd (serve st plan1 current_user
                         (POST_share event_id [PermissionCreate.mk user_id r1;
                                               PermissionCreate.mk user_id r2]))
                  = grant_or_update event_id (PermissionCreate.mk user_id r2) g1).
  { rewrite (share_event_run _ _ _ _ _ _ Hev How).
    - destruct (commits_cases _ Hplan1) as [-> | [p ->]]; reflexivity.
    - repeat constructor; exact Huser. }
  destruct (grant_or_update_frame event_id (PermissionCreate.mk user_id r1) st)
    as (Hu1 & He1 & _).
  assert (Huniq1 : unique_grants g1) by (now apply unique_grants_grant_or_update).
  assert (Hg1 : grants_of event_id user_id g1 = [Permission.mk event_id user_id r1])
    by (now apply grants_of_grant_or_update).
  assert (Hst2 : snd (serve g1 plan2 current_user
                        (POST_share event_id [PermissionCreate.mk user_id r2]))
                 = grant_or_update event_id (PermissionCreate.mk user_id r2) g1).
  { rewrite (share_event_run g1 plan2 current_user event_id _ event).
    - destruct (commits_cases _ Hplan2) as [-> | [p ->]]; reflexivity.
    - unfold event_by_id. fold g1 in He1. rewrite He1. exact Hev.
    - exact How.
    - constructor; [|constructor]. unfold known_user, user_by_id.
      fold g1 in Hu1. rewrite Hu1. exact Huser. }
  cbv zeta. rewrite Hst1, Hst2, Hst12.
  repeat split.
  - exact Hg1.
  - now apply grants_of_grant_or_update.
  - apply length_grant_or_update_existing
      with (p := Permission.mk event_id user_id r1).
    cbn [PermissionCreate.user_id]. now rewrite Hg1.
  - now apply grants_of_grant_or_update.
Qed.

(* ================================================================== *)
(** ** The version ledger counts the operations                         *)
(* ================================================================== *)

Lemma applied_snoc event_id log entry :
  applied event_id (log ++ [entry]) = tally event_id (applied event_id log) entry.
Proof. unfold applied. now rewrite fold_left_app. Qed.

Lemma one_to_S n : one_to (S n) = one_to n ++ [Z.of_nat n + 1].
Proof.
  unfold one_to. rewrite seq_S, map_app. simpl. f_equal. f_equal. lia.
Qed.

Lemma In_one_to n z : In z (one_to n) <-> 1 <= z <= Z.of_nat n.
Proof.
  unfold one_to. rewrite in_map_iff. split.
  - intros (k & <- & Hk). apply in_seq in Hk. lia.
  - intros Hz. exists (Z.to_nat z). split; [lia|]. apply in_seq. lia.
Qed.

(** Over a ledger that counts 1..N, the next number is N + 1. *)
Lemma next_version_exact event_id st n :
  version_numbers event_id st = one_to n ->
  next_version event_id st = Z.of_nat n + 1.
Proof.
  intros Hn. unfold next_version, latest_version.
  destruct (greatest (versions_of event_id st)) as [cv|] eqn:Hg.
  - assert (EventVersion.version_number cv <= Z.of_nat n) as Hle.
    { apply (In_one_to n). rewrite <- Hn. unfold version_numbers.
      apply in_map. now apply greatest_In. }
    assert (Z.of_nat n <= EventVersion.version_number cv) as Hge.
    { destruct n as [|n].
      - unfold version_numbers in Hn. apply greatest_In in Hg.
        destruct (versions_of event_id st); [contradiction|discriminate].
      - assert (In (Z.of_nat (S n)) (version_numbers event_id st)) as Hin
            by (rewrite Hn; apply In_one_to; lia).
        unfold version_numbers in Hin. apply in_map_iff in Hin.
        destruct Hin as (v & Hv & Hin). rewrite <- Hv.
        now apply (greatest_upper _ _ Hg). }
    lia.
  - apply greatest_None in Hg. unfold version_numbers in Hn. rewrite Hg in Hn.
    destruct n; [reflexivity|].
    rewrite one_to_S in Hn. simpl in Hn.
    destruct (one_to n); discriminate.
Qed.

Lemma version_numbers_record_edit st db_event uid n event_id :
  version_numbers event_id (record_edit st db_event uid n)
  = version_numbers event_id st
    ++ (if Event.id db_event =? event_id then [n] else []).
Proof.
  unfold version_numbers.
  change (versions_of event_id (record_edit st db_event uid n))
    with (versions_of event_id
            (set_event_versions
               (fun vs => vs ++ [snapshot st (Event.id db_event)
                                          (Event.fields db_event) uid n]) st)).
  rewrite versions_of_snoc, of_event_snapshot, map_app.
  now destruct (Event.id db_event =? event_id).
Qed.

Lemma version_numbers_created st fields owner_id event_id :
  version_numbers event_id (with_event_and_version st fields owner_id)
  = version_numbers event_id st
    ++ (if Event.id (new_event st fields owner_id) =? event_id then [1] else []).
Proof.
  unfold version_numbers, with_event_and_version.
  rewrite versions_of_snoc, of_event_snapshot, map_app.
  change (versions_of event_id (with_event st fields owner_id))
    with (versions_of event_id st).
  now destruct (Event.id (new_event st fields owner_id) =? event_id).
Qed.

Lemma version_numbers_fresh st event_id :
  referential st ->
  ~ In event_id (map Event.id (events st)) ->
  version_numbers event_id st = [].
Proof.
  intros Href Hfresh. unfold version_numbers.
  destruct (versions_of event_id st) as [|v vs] eqn:Hvs; [reflexivity|].
  exfalso. apply Hfresh.
  assert (In v (versions_of event_id st)) as Hin by (rewrite Hvs; now left).
  unfold versions_of in Hin. apply filter_In in Hin. destruct Hin as [Hin Hof].
  unfold of_event in Hof.
  destruct (EventVersion.event_id v) as [e|] eqn:He; [|discriminate].
  apply Z.eqb_eq in Hof. subst e. eauto.
Qed.

(** [ledger_exact], by event id. *)
Lemma ledger_exact_ids st log :
  ledger_exact st log <->
  (forall e, In e (map Event.id (events st)) ->
             version_numbers e st = one_to (applied e log)).
Proof.
  unfold ledger_exact. split.
  - intros H e He. apply in_map_iff in He. destruct He as (ev & <- & Hin). auto.
  - intros H ev Hin. apply H. now apply in_map.
Qed.

(** A request that returned nothing countable and left events and ledger
    alone keeps the ledger exact. *)
Lemma ledger_neutral st st' log req out :
  events st' = events st ->
  event_versions st' = event_versions st ->
  (forall e n, tally e n (req, out) = n) ->
  ledger_exact st log -> ledger_exact st' (log ++ [(req, out)]).
Proof.
  intros Hev Hvs Hneutral H. unfold ledger_exact in *.
  rewrite Hev. intros ev Hin. rewrite applied_snoc, Hneutral.
  unfold version_numbers, versions_of. rewrite Hvs. now apply H.
Qed.

Lemma ledger_created st log event fields owner_id :
  referential st ->
  ledger_exact st log ->
  ledger_exact (with_event_and_version st fields owner_id)
    (log ++ [(POST_events event, Return (EventOut (new_event st fields owner_id)))]).
Proof.
  intros Href H0. apply ledger_exact_ids.
  pose proof (proj1 (ledger_exact_ids _ _) H0) as H. clear H0.
  intros e He. rewrite applied_snoc, version_numbers_created.
  cbn [tally]. simpl in He. rewrite map_app in He. apply in_app_or in He.
  destruct (Event.id (new_event st fields owner_id) =? e) eqn:Hid.
  - apply Z.eqb_eq in Hid. subst e.
    rewrite version_numbers_fresh;
      [reflexivity|assumption|apply new_event_fresh].
  - rewrite app_nil_r. destruct He as [He | [He | []]]; [auto|].
    apply Z.eqb_neq in Hid. simpl in Hid, He. lia.
Qed.

Lemma ledger_edited st log req db_event uid r :
  In (Event.id db_event) (map Event.id (events st)) ->
  (forall e n, tally e n (req, Return r)
               = if Event.id db_event =? e then S n else n) ->
  ledger_exact st log ->
  ledger_exact (record_edit st db_event uid (next_version (Event.id db_event) st))
               (log ++ [(req, Return r)]).
Proof.
  intros Hin Htally H0. apply ledger_exact_ids.
  pose proof (proj1 (ledger_exact_ids _ _) H0) as H. clear H0.
  intros e He. simpl in He. rewrite ids_replace_event in He.
  rewrite applied_snoc, Htally, version_numbers_record_edit.
  destruct (Event.id db_event =? e) eqn:Hid.
  - apply Z.eqb_eq in Hid. subst e.
    rewrite (next_version_exact _ _ _ (H _ He)), one_to_S.
    now rewrite (H _ He).
  - rewrite app_nil_r. auto.
Qed.

Lemma ledger_deleted st log db_event r :
  ledger_exact st log ->
  ledger_exact (delete_rows db_event st)
               (log ++ [(DELETE_event (Event.id db_event), Return r)]).
Proof.
  intros H. unfold ledger_exact in *. intros ev Hin.
  simpl in Hin. apply filter_In in Hin. destruct Hin as [Hin Hne].
  apply negb_true_iff in Hne. apply Z.eqb_neq in Hne.
  rewrite applied_snoc. cbn [tally].
  assert ((Event.id db_event =? Event.id ev) = false) as ->
      by (apply Z.eqb_neq; lia).
  unfold version_numbers. rewrite versions_of_delete_rows by exact Hne.
  now apply H.
Qed.

Lemma referential_created st fields owner_id :
  referential st -> referential (with_event_and_version st fields owner_id).
Proof.
  intros H.
  eapply step_referential; [apply step_first_version|].
  eapply step_referential; [apply step_event|exact H].
Qed.

Lemma steps_referential st st' : steps st st' -> referential st -> referential st'.
Proof.
  intros Hsteps. induction Hsteps as [|st1 st2 st3 H12 IH H23]; [auto|].
  intros H. eapply step_referential; eauto.
Qed.

(** After a batch, an event id either belongs to an event of the batch,
    whose ledger is the single number 1, or to an event that was there
    before, whose ledger is unchanged. *)
Lemma create_all_ledger batch owner_id : forall st,
  referential st ->
  forall e,
    In e (map Event.id (events (snd (create_all batch owner_id st)))) ->
    (existsb (fun ev => Event.id ev =? e) (fst (create_all batch owner_id st)) = true
     /\ version_numbers e (snd (create_all batch owner_id st)) = [1])
    \/ (existsb (fun ev => Event.id ev =? e) (fst (create_all batch owner_id st)) = false
        /\ In e (map Event.id (events st))
        /\ version_numbers e (snd (create_all batch owner_id st))
           = version_numbers e st).
Proof.
  induction batch as [|event_data batch IH]; intros st Href e He.
  - right. simpl in *. auto.
  - cbn [create_all] in *.
    set (fields := EventCreate.dict event_data) in *.
    specialize (IH (with_event_and_version st fields owner_id)
                   (referential_created st fields owner_id Href) e).
    destruct (create_all batch owner_id (with_event_and_version st fields owner_id))
      as [es st'] eqn:Hall.
    cbn [fst snd] in *. cbn [existsb].
    destruct (IH He) as [[Hex Hvs] | (Hex & Hin & Hvs)].
    + left. rewrite Hex, orb_true_r. auto.
    + rewrite Hex, orb_false_r, Hvs, version_numbers_created.
      simpl in Hin. rewrite map_app in Hin. apply in_app_or in Hin.
      destruct (Event.id (new_event st fields owner_id) =? e) eqn:Hid.
      * left. split; [reflexivity|].
        apply Z.eqb_eq in Hid. subst e.
        rewrite version_numbers_fresh;
          [reflexivity|assumption|apply new_event_fresh].
      * right. rewrite app_nil_r. repeat split.
        destruct Hin as [Hin | [Hin | []]]; [assumption|].
        apply Z.eqb_neq in Hid. simpl in Hid, Hin. lia.
Qed.

Lemma all_true_plan (plan : list bool) :
  all_true plan ->
  plan = [] \/ plan = [true] \/ exists p, plan = true :: true :: p.
Proof.
  unfold all_true. intros H.
  destruct plan as [|b [|b' p]]; [auto|..];
    inversion H as [|? ? Hb Hp]; subst; [auto|].
  inversion Hp; subst. right. right. eauto.
Qed.

(** One request of a run without storage failures keeps the ledger exact. *)
Lemma serve_ledger st plan current_user req log :
  all_true plan ->
  referential st ->
  ledger_exact st log ->
  ledger_exact (snd (serve st plan current_user req))
               (log ++ [(req, fst (serve st plan current_user req))]).
Proof.
  intros Hplan Href H.
  assert (Hread : snd (serve st plan current_user req) = st ->
             (forall e n out, tally e n (req, out) = n) ->
             ledger_exact (snd (serve st plan current_user req))
                          (log ++ [(req, fst (serve st plan current_user req))])).
  { intros Hs Hn. rewrite Hs.
    now apply ledger_neutral with (st := st). }
  destruct req.
  - rewrite create_event_run.
    destruct (all_true_plan _ Hplan) as [-> | [-> | [p ->]]]; cbn [fst snd];
      now apply ledger_created.
  - apply Hread; [now apply read_only|reflexivity].
  - apply Hread; [now apply read_only|reflexivity].
  - destruct (event_by_id event_id st) as [event|] eqn:Hev.
    + destruct (owner_or_stranger event current_user) as [How | Hstr].
      * rewrite (update_event_run _ _ _ _ _ _ Hev How).
        pose proof (event_by_id_id _ _ _ Hev) as Hid.
        pose proof (event_by_id_In _ _ _ Hev) as Hin.
        destruct (apply_items_id (dict_exclude_unset event_update) event)
          as [Hid' _].
        assert (ledger_exact
                  (record_edit st (apply_items (dict_exclude_unset event_update) event)
                     (User.id current_user) (next_version event_id st))
                  (log ++ [(PUT_event event_id event_update,
                            Return (EventOut (apply_items
                               (dict_exclude_unset event_update) event)))])) as Hl.
        { replace (next_version event_id st)
            with (next_version
                    (Event.id (apply_items (dict_exclude_unset event_update) event))
                    st)
            by (now rewrite Hid', Hid).
          apply ledger_edited;
            [rewrite Hid'; now apply in_map
            |intros e n; cbn [tally]; now rewrite Hid', Hid
            |exact H]. }
        destruct (all_true_plan _ Hplan) as [-> | [-> | [p ->]]]; exact Hl.
      * revert Hstr.
        guarded st plan current_user (PUT_event event_id event_update) event_id Hev.
        cbn [fst snd]. apply ledger_neutral with (st := st); auto.
    + guarded st plan current_user (PUT_event event_id event_update) event_id Hev.
      cbn [fst snd]. apply ledger_neutral with (st := st); auto.
  - destruct (event_by_id event_id st) as [event|] eqn:Hev.
    + destruct (owner_or_stranger event current_user) as [How | Hstr].
      * rewrite (delete_event_run _ _ _ _ _ Hev How).
        pose proof (event_by_id_id _ _ _ Hev) as Hid.
        assert (ledger_exact (delete_rows event st)
                  (log ++ [(DELETE_event event_id,
                            Return (MessageOut "Event deleted successfully"))])) as Hl.
        { rewrite <- Hid. now apply ledger_deleted. }
        destruct (all_true_plan _ Hplan) as [-> | [-> | [p ->]]]; exact Hl.
      * revert Hstr.
        guarded st plan current_user (DELETE_event event_id) event_id Hev.
        cbn [fst snd]. apply ledger_neutral with (st := st); auto.
    + guarded st plan current_user (DELETE_event event_id) event_id Hev.
      cbn [fst snd]. apply ledger_neutral with (st := st); auto.
  - unfold serve. cbn [handle]. unfold fmap, bind, create_batch_events.
    destruct (batch_run current_user batch [] st plan Hplan) as [plan' ->].
    cbn [app ret fst snd committed].
    apply ledger_exact_ids. pose proof (proj1 (ledger_exact_ids _ _) H) as Hids.
    intros e He. rewrite applied_snoc. cbn [tally].
    destruct (create_all_ledger batch (User.id current_user) st Href e He)
      as [[-> ->] | (-> & Hin & ->)]; [reflexivity|auto].
  - destruct (event_by_id event_id st) as [event|] eqn:Hev.
    + destruct (owner_or_stranger event current_user) as [How | Hstr].
      * destruct (known_or_unknown st permissions) as [Hknown | Hunknown].
        -- rewrite (share_event_run _ _ _ _ _ _ Hev How Hknown).
           assert (forall r, ledger_exact (grant_all event_id permissions st)
                     (log ++ [(POST_share event_id permissions, Return r)])) as Hl.
           { intros r. apply ledger_neutral with (st := st); auto.
             - clear. revert st. unfold grant_all.
               induction permissions as [|p ps IH]; intros st; simpl; [reflexivity|].
               rewrite IH. apply grant_or_update_frame.
             - clear. revert st. unfold grant_all.
               induction permissions as [|p ps IH]; intros st; simpl; [reflexivity|].
               rewrite IH. apply grant_or_update_frame. }
           destruct (all_true_plan _ Hplan) as [-> | [-> | [p ->]]]; apply Hl.
        -- destruct (share_event_rejects st plan current_user event_id
                       permissions event Hev How Hunknown) as [exn Hrun].
           rewrite Hrun. cbn [fst snd].
           apply ledger_neutral with (st := st); auto.
      * revert Hstr.
        guarded st plan current_user (POST_share event_id permissions) event_id Hev.
        cbn [fst snd]. apply ledger_neutral with (st := st); auto.
    + guarded st plan current_user (POST_share event_id permissions) event_id Hev.
      cbn [fst snd]. apply ledger_neutral with (st := st); auto.
  - apply Hread; [now apply read_only|reflexivity].
  - destruct (event_by_id event_id st) as [event|] eqn:Hev.
    + destruct (owner_or_stranger event current_user) as [How | Hstr].
      * destruct (version_by_number event_id version_id st) as [version|] eqn:Hver.
        -- rewrite (rollback_event_run _ _ _ _ _ _ _ Hev How Hver).
           pose proof (event_by_id_id _ _ _ Hev) as Hid.
           pose proof (event_by_id_In _ _ _ Hev) as Hin.
           set (db_event := Event.mk (Event.id event) (EventVersion.fields version)
                                     (Event.owner_id event)).
           assert (ledger_exact
                     (record_edit st db_event (User.id current_user)
                                  (next_version event_id st))
                     (log ++ [(POST_rollback event_id version_id,
                               Return (EventOut db_event))])) as Hl.
           { replace (next_version event_id st)
               with (next_version (Event.id db_event) st)
               by (cbn [db_event Event.id]; now rewrite Hid).
             apply ledger_edited;
               [cbn [db_event Event.id]; now apply in_map
               |intros e n; cbn [tally db_event Event.id]; now rewrite Hid
               |exact H]. }
           destruct (all_true_plan _ Hplan) as [-> | [-> | [p ->]]]; exact Hl.
        -- rewrite (rollback_event_no_version _ _ _ _ _ _ Hev How Hver).
           cbn [fst snd]. apply ledger_neutral with (st := st); auto.
      * revert Hstr.
        guarded st plan current_user (POST_rollback event_id version_id) event_id Hev.
        cbn [fst snd]. apply ledger_neutral with (st := st); auto.
    + guarded st plan current_user (POST_rollback event_id version_id) event_id Hev.
      cbn [fst snd]. apply ledger_neutral with (st := st); auto.
  - apply Hread; [now apply read_only|reflexivity].
  - apply Hread; [now apply read_only|reflexivity].
Qed.

Lemma fault_free_snoc calls c :
  fault_free (calls ++ [c]) -> fault_free calls /\ all_true (storage c).
Proof.
  unfold fault_free. intros H. apply Forall_app in H. destruct H as [H1 H2].
  split; [assumption|]. now inversion H2.
Qed.

Lemma present_neutral st st' log req out :
  events st' = events st ->
  (forall e n, tally e n (req, out) = n) ->
  present st log -> present st' (log ++ [(req, out)]).
Proof.
  intros Hev Hneutral H e. rewrite Hev, applied_snoc, Hneutral. apply H.
Qed.

Lemma present_created st log event fields owner_id :
  present st log ->
  present (with_event_and_version st fields owner_id)
    (log ++ [(POST_events event, Return (EventOut (new_event st fields owner_id)))]).
Proof.
  intros H e. rewrite applied_snoc. cbn [tally]. simpl events.
  rewrite map_app, in_app_iff. cbn [map In].
  destruct (Event.id (new_event st fields owner_id) =? e) eqn:Hid.
  - apply Z.eqb_eq in Hid. split; [lia|]. intros _. right. now left.
  - apply Z.eqb_neq in Hid. rewrite <- (H e). tauto.
Qed.

Lemma present_edited st log req db_event uid n r :
  In (Event.id db_event) (map Event.id (events st)) ->
  (forall e k, tally e k (req, Return r)
               = if Event.id db_event =? e then S k else k) ->
  present st log ->
  present (record_edit st db_event uid n) (log ++ [(req, Return r)]).
Proof.
  intros Hin Htally H e. rewrite applied_snoc, Htally. simpl events.
  rewrite ids_replace_event.
  destruct (Event.id db_event =? e) eqn:Hid.
  - apply Z.eqb_eq in Hid. subst e. split; [lia|auto].
  - apply H.
Qed.

Lemma present_deleted st log db_event r :
  present st log ->
  present (delete_rows db_event st)
          (log ++ [(DELETE_event (Event.id db_event), Return r)]).
Proof.
  intros H e. rewrite applied_snoc. cbn [tally]. simpl events.
  rewrite in_map_iff.
  destruct (Event.id db_event =? e) eqn:Hid.
  - apply Z.eqb_eq in Hid. split; [|lia].
    intros (x & Hx & Hxin). apply filter_In in Hxin. destruct Hxin as [_ Hne].
    apply negb_true_iff, Z.eqb_neq in Hne. lia.
  - apply Z.eqb_neq in Hid. rewrite <- (H e), in_map_iff. split.
    + intros (x & Hx & Hxin). apply filter_In in Hxin. exists x. tauto.
    + intros (x & Hx & Hxin). exists x. split; [assumption|].
      apply filter_In. split; [assumption|].
      apply negb_true_iff, Z.eqb_neq. lia.
Qed.

Lemma create_all_ids batch owner_id : forall st,
  map Event.id (events (snd (create_all batch owner_id st)))
  = map Event.id (events st) ++ map Event.id (fst (create_all batch owner_id st)).
Proof.
  induction batch as [|event_data batch IH]; intros st.
  - simpl. now rewrite app_nil_r.
  - cbn [create_all].
    specialize (IH (with_event_and_version st (EventCreate.dict event_data) owner_id)).
    destruct (create_all batch owner_id
                (with_event_and_version st (EventCreate.dict event_data) owner_id))
      as [es st'].
    cbn [fst snd] in *. rewrite IH. simpl events.
    rewrite map_app, <- app_assoc. reflexivity.
Qed.

Lemma existsb_id (es : list Event.t) (e : Z) :
  existsb (fun ev => Event.id ev =? e) es = true <-> In e (map Event.id es).
Proof.
  rewrite existsb_exists, in_map_iff. split.
  - intros (x & Hin & Hx). apply Z.eqb_eq in Hx. eauto.
  - intros (x & Hx & Hin). exists x. split; [assumption|now apply Z.eqb_eq].
Qed.

(** One request of a run without storage failures keeps the events of the
    table in step with the log. *)
Lemma serve_present st plan current_user req log :
  all_true plan ->
  present st log ->
  present (snd (serve st plan current_user req))
          (log ++ [(req, fst (serve st plan current_user req))]).
Proof.
  intros Hplan H.
  assert (Hread : snd (serve st plan current_user req) = st ->
             (forall e n out, tally e n (req, out) = n) ->
             present (snd (serve st plan current_user req))
                     (log ++ [(req, fst (serve st plan current_user req))])).
  { intros Hs Hn. rewrite Hs. now apply present_neutral with (st := st). }
  destruct req.
  - rewrite create_event_run.
    destruct (all_true_plan _ Hplan) as [-> | [-> | [p ->]]]; cbn [fst snd];
      now apply present_created.
  - apply Hread; [now apply read_only|reflexivity].
  - apply Hread; [now apply read_only|reflexivity].
  - destruct (event_by_id event_id st) as [event|] eqn:Hev.
    + destruct (owner_or_stranger event current_user) as [How | Hstr].
      * rewrite (update_event_run _ _ _ _ _ _ Hev How).
        pose proof (event_by_id_id _ _ _ Hev) as Hid.
        pose proof (event_by_id_In _ _ _ Hev) as Hin.
        destruct (apply_items_id (dict_exclude_unset event_update) event)
          as [Hid' _].
        assert (present
                  (record_edit st (apply_items (dict_exclude_unset event_update) event)
                     (User.id current_user) (next_version event_id st))
                  (log ++ [(PUT_event event_id event_update,
                            Return (EventOut (apply_items
                               (dict_exclude_unset event_update) event)))])) as Hl.
        { apply present_edited;
            [rewrite Hid'; now apply in_map
            |intros e n; cbn [tally]; now rewrite Hid', Hid
            |exact H]. }
        destruct (all_true_plan _ Hplan) as [-> | [-> | [p ->]]]; exact Hl.
      * revert Hstr.
        guarded st plan current_user (PUT_event event_id event_update) event_id Hev.
        cbn [fst snd]. apply present_neutral with (st := st); auto.
    + guarded st plan current_user (PUT_event event_id event_update) event_id Hev.
      cbn [fst snd]. apply present_neutral with (st := st); auto.
  - destruct (event_by_id event_id st) as [event|] eqn:Hev.
    + destruct (owner_or_stranger event current_user) as [How | Hstr].
      * rewrite (delete_event_run _ _ _ _ _ Hev How).
        pose proof (event_by_id_id _ _ _ Hev) as Hid.
        assert (present (delete_rows event st)
                  (log ++ [(DELETE_event event_id,
                            Return (MessageOut "Event deleted successfully"))])) as Hl.
        { rewrite <- Hid. now apply present_deleted. }
        destruct (all_true_plan _ Hplan) as [-> | [-> | [p ->]]]; exact Hl.
      * revert Hstr.
        guarded st plan current_user (DELETE_event event_id) event_id Hev.
        cbn [fst snd]. apply present_neutral with (st := st); auto.
    + guarded st plan current_user (DELETE_event event_id) event_id Hev.
      cbn [fst snd]. apply present_neutral with (st := st); auto.
  - unfold serve. cbn [handle]. unfold fmap, bind, create_batch_events.
    destruct (batch_run current_user batch [] st plan Hplan) as [plan' ->].
    cbn [app ret fst snd committed].
    intros e. rewrite applied_snoc. cbn [tally].
    rewrite create_all_ids, in_app_iff.
    pose proof (existsb_id (fst (create_all batch (User.id current_user) st)) e)
      as Hex.
    pose proof (H e) as He.
    destruct (existsb (fun ev => Event.id ev =? e)
                      (fst (create_all batch (User.id current_user) st))).
    + split; [lia|]. intros _. right. now apply Hex.
    + split.
      * intros [Hin | Hin]; [now apply He|]. apply Hex in Hin. discriminate.
      * intros Hn. left. now apply He.
  - destruct (event_by_id event_id st) as [event|] eqn:Hev.
    + destruct (owner_or_stranger event current_user) as [How | Hstr].
      * destruct (known_or_unknown st permissions) as [Hknown | Hunknown].
        -- rewrite (share_event_run _ _ _ _ _ _ Hev How Hknown).
           assert (forall r, present (grant_all event_id permissions st)
                     (log ++ [(POST_share event_id permissions, Return r)])) as Hl.
           { intros r. apply present_neutral with (st := st); auto.
             clear. revert st. unfold grant_all.
             induction permissions as [|p ps IH]; intros st; simpl; [reflexivity|].
             rewrite IH. apply grant_or_update_frame. }
           destruct (all_true_plan _ Hplan) as [-> | [-> | [p ->]]]; apply Hl.
        -- destruct (share_event_rejects st plan current_user event_id
                       permissions event Hev How Hunknown) as [exn Hrun].
           rewrite Hrun. cbn [fst snd].
           apply present_neutral with (st := st); auto.
      * revert Hstr.
        guarded st plan current_user (POST_share event_id permissions) event_id Hev.
        cbn [fst snd]. apply present_neutral with (st := st); auto.
    + guarded st plan current_user (POST_share event_id permissions) event_id Hev.
      cbn [fst snd]. apply present_neutral with (st := st); auto.
  - apply Hread; [now apply read_only|reflexivity].
  - destruct (event_by_id event_id st) as [event|] eqn:Hev.
    + destruct (owner_or_stranger event current_user) as [How | Hstr].
      * destruct (version_by_number event_id version_id st) as [version|] eqn:Hver.
        -- rewrite (rollback_event_run _ _ _ _ _ _ _ Hev How Hver).
           pose proof (event_by_id_id _ _ _ Hev) as Hid.
           pose proof (event_by_id_In _ _ _ Hev) as Hin.
           set (db_event := Event.mk (Event.id event) (EventVersion.fields version)
                                     (Event.owner_id event)).
           assert (present
                     (record_edit st db_event (User.id current_user)
                                  (next_version event_id st))
                     (log ++ [(POST_rollback event_id version_id,
                               Return (EventOut db_event))])) as Hl.
           { apply present_edited;
               [cbn [db_event Event.id]; now apply in_map
               |intros e n; cbn [tally db_event Event.id]; now rewrite Hid
               |exact H]. }
           destruct (all_true_plan _ Hplan) as [-> | [-> | [p ->]]]; exact Hl.
        -- rewrite (rollback_event_no_version _ _ _ _ _ _ Hev How Hver).
           cbn [fst snd]. apply present_neutral with (st := st); auto.
      * revert Hstr.
        guarded st plan current_user (POST_rollback event_id version_id) event_id Hev.
        cbn [fst snd]. apply present_neutral with (st := st); auto.
    + guarded st plan current_user (POST_rollback event_id version_id) event_id Hev.
      cbn [fst snd]. apply present_neutral with (st := st); auto.
  - apply Hread; [now apply read_only|reflexivity].
  - apply Hread; [now apply read_only|reflexivity].
Qed.

(** X18: when every commit goes through, the ledger counts the operations.
    After any sequence of requests by any callers, run from a database
    with no events, and for every event id: the version numbers recorded
    under the id are, in ledger order, exactly 1, 2, ..., N (no gap, no
    duplicate), where N counts the operations applied to the event that
    holds the id (the create that returned it, and each update and
    rollback of it that returned; a delete that returned starts the id
    anew); and the id is that of an event of the table exactly when N is
    at least 1. *)
Theorem version_ledger_exact us calls :
  fault_free calls ->
  forall e,
    version_numbers e (snd (run calls (init us)))
    = one_to (applied e (fst (run calls (init us))))
    /\ (In e (map Event.id (events (snd (run calls (init us)))))
        <-> (1 <= applied e (fst (run calls (init us))))%nat).
Proof.
  intros Hff.
  enough (referential (snd (run calls (init us)))
          /\ ledger_exact (snd (run calls (init us))) (fst (run calls (init us)))
          /\ present (snd (run calls (init us))) (fst (run calls (init us))))
    as (Href & Hl & Hp).
  { intros e. split; [|apply Hp].
    destruct (in_dec Z.eq_dec e (map Event.id (events (snd (run calls (init us))))))
      as [Hin | Hout].
    - now apply (proj1 (ledger_exact_ids _ _) Hl).
    - rewrite (version_numbers_fresh _ _ Href Hout).
      destruct (Hp e) as [_ Hback].
      destruct (applied e (fst (run calls (init us)))) as [|k]; [reflexivity|].
      exfalso. apply Hout, Hback. lia. }
  induction calls as [|c calls IH] using rev_ind.
  - split; [intros v e []|]. split; [intros ev []|].
    intros e. simpl. split; [tauto|]. unfold applied. simpl. lia.
  - apply fault_free_snoc in Hff. destruct Hff as [Hff Hc].
    destruct (IH Hff) as (Href & Hl & Hp). rewrite run_snoc. unfold run_step.
    destruct (run calls (init us)) as [log st]. cbn [fst snd] in *.
    pose proof (serve_steps st (storage c) (caller c) (request c)) as Hsteps.
    pose proof (serve_ledger st (storage c) (caller c) (request c) log Hc Href Hl)
      as Hl'.
    pose proof (serve_present st (storage c) (caller c) (request c) log Hc Hp)
      as Hp'.
    destruct (serve st (storage c) (caller c) (request c)) as [out st'].
    cbn [fst snd] in *. split; [|split; assumption].
    eapply steps_referential; eauto.
Qed.

(** C1 fails on the code, by the defect of C3: [create_event] and the loop
    of [create_batch_events] commit the event before they add its first
    snapshot.  From a database without events:
    - a create whose first commit goes through and whose second raises
      leaves event 1 committed with an empty ledger: the create has not
      written version 1;
    - an update of that event by its owner then returns and numbers its
      snapshot 1 (the [else 1] of [update_event]): the event has had a
      create and an update applied, its ledger is the single number 1, and
      that snapshot holds the updated fields;
    - a batch of two whose fourth commit raises fails as a request, so that
      no operation that returned counts for event 1, whose ledger is 1, and
      it leaves event 2 committed with an empty ledger. *)
Theorem ledger_after_failed_create us current_user body body' event_update plan :
  let half := mkCall current_user (POST_events body) (true :: false :: plan) in
  let edit := mkCall current_user (PUT_event 1 event_update) [] in
  let batch := mkCall current_user (POST_events_batch [body; body'])
                      (true :: true :: true :: false :: plan) in
  (map snd (fst (run [half] (init us))) = [Raise StorageError]
   /\ event_by_id 1 (snd (run [half] (init us)))
      = Some (Event.mk 1 (EventCreate.dict body) (User.id current_user))
   /\ version_numbers 1 (snd (run [half] (init us))) = [])
  /\ (exists db_event,
        map snd (fst (run [half; edit] (init us)))
        = [Raise StorageError; Return (EventOut db_event)]
        /\ event_by_id 1 (snd (run [half; edit] (init us))) = Some db_event
        /\ version_numbers 1 (snd (run [half; edit] (init us))) = [1]
        /\ map EventVersion.fields
               (versions_of 1 (snd (run [half; edit] (init us))))
           = [Event.fields db_event])
  /\ (map snd (fst (run [batch] (init us))) = [Raise StorageError]
      /\ applied 1 (fst (run [batch] (init us))) = 0%nat
      /\ version_numbers 1 (snd (run [batch] (init us))) = [1]
      /\ event_by_id 2 (snd (run [batch] (init us)))
         = Some (Event.mk 2 (EventCreate.dict body') (User.id current_user))
      /\ version_numbers 2 (snd (run [batch] (init us))) = []).
Proof.
  intros half edit batch.
  set (ev := Event.mk 1 (EventCreate.dict body) (User.id current_user)).
  set (st1 := with_event (init us) (EventCreate.dict body) (User.id current_user)).
  assert (Hhalf : run [half] (init us)
                  = ([(POST_events body, Raise StorageError)], st1)).
  { unfold run, half. cbn [fold_left]. unfold run_step.
    cbn [snd fst storage caller request app]. now rewrite create_event_run. }
  assert (Hev : event_by_id 1 st1 = Some ev) by reflexivity.
  assert (How : Event.owner_id ev = User.id current_user) by reflexivity.
  split; [|split].
  - rewrite Hhalf. cbn [fst snd map]. repeat split; reflexivity.
  - destruct (apply_items_id (dict_exclude_unset event_update) ev) as [Hid _].
    set (db_event := apply_items (dict_exclude_unset event_update) ev) in *.
    assert (Hrun : run [half; edit] (init us)
                   = ([(POST_events body, Raise StorageError);
                       (PUT_event 1 event_update, Return (EventOut db_event))],
                      record_edit st1 db_event (User.id current_user) 1)).
    { change [half; edit] with ([half] ++ [edit]). rewrite run_snoc, Hhalf.
      unfold run_step, edit. cbn [snd fst storage caller request app].
      now rewrite (update_event_run _ _ _ _ _ _ Hev How). }
    exists db_event. rewrite Hrun. cbn [fst snd map].
    split; [reflexivity|]. split; [|split].
    + change 1 with (Event.id ev) at 1. rewrite <- Hid.
      apply event_by_id_record_edit with (old := ev). now rewrite Hid.
    + rewrite version_numbers_record_edit, Hid. reflexivity.
    + unfold versions_of, record_edit. cbn [event_versions set_events
        set_event_versions st1 with_event init filter app].
      unfold snapshot. cbn [EventVersion.event_id filter]. rewrite Hid.
      reflexivity.
  - repeat split; reflexivity.
Qed.

(* ================================================================== *)
(** ** Listing events                                                   *)
(* ================================================================== *)

Lemma filter_filter_andb {A} (p q : A -> bool) (l : list A) :
  filter q (filter p l) = filter (fun x => p x && q x) l.
Proof.
  induction l as [|x l IH]; simpl; [reflexivity|].
  destruct (p x); simpl; [|exact IH]. destruct (q x); now rewrite IH.
Qed.

Lemma page_valid_check skip limit :
  page_valid skip limit -> (skip <? 0) || (limit <? 1) || (100 <? limit) = false.
Proof.
  intros [Hs [Hl Hu]].
  assert ((skip <? 0) = false) as -> by (apply Z.ltb_ge; lia).
  assert ((limit <? 1) = false) as -> by (apply Z.ltb_ge; lia).
  assert ((100 <? limit) = false) as -> by (apply Z.ltb_ge; lia).
  reflexivity.
Qed.

Lemma page_invalid_check skip limit :
  ~ page_valid skip limit -> (skip <? 0) || (limit <? 1) || (100 <? limit) = true.
Proof.
  intros H. unfold page_valid in H.
  destruct (skip <? 0) eqn:H1; [reflexivity|].
  destruct (limit <? 1) eqn:H2; [reflexivity|].
  destruct (100 <? limit) eqn:H3; [reflexivity|].
  apply Z.ltb_ge in H1, H2, H3. exfalso. apply H. lia.
Qed.

Lemma listed_stages current_user start_date end_date (es : list Event.t) :
  match end_date with
  | Some d =>
      filter (before_end d)
        match start_date with
        | Some d' =>
            filter (after_start d')
              (filter (fun e => Event.owner_id e =? User.id current_user) es)
        | None => filter (fun e => Event.owner_id e =? User.id current_user) es
        end
  | None =>
      match start_date with
      | Some d' =>
          filter (after_start d')
            (filter (fun e => Event.owner_id e =? User.id current_user) es)
      | None => filter (fun e => Event.owner_id e =? User.id current_user) es
      end
  end
  = filter (listed current_user start_date end_date) es.
Proof.
  unfold listed.
  destruct start_date as [sd|], end_date as [ed|];
    rewrite ?filter_filter_andb; apply filter_ext; intros e;
    rewrite ?andb_true_r, ?andb_assoc; reflexivity.
Qed.

(** What [list_events] answers: the caller's events within the bounds, in
    table order, cut to the page. *)
Lemma list_events_run st plan current_user skip limit start_date end_date :
  page_valid skip limit ->
  serve st plan current_user (GET_events skip limit start_date end_date)
  = (Return (EventsOut
       (firstn (Z.to_nat limit)
          (skipn (Z.to_nat skip)
             (filter (listed current_user start_date end_date) (events st))))),
     st).
Proof.
  intros Hvalid. db_run. rewrite (page_valid_check _ _ Hvalid). db_run.
  now rewrite listed_stages.
Qed.

Lemma firstn_add {A} (a b : nat) (l : list A) :
  firstn (a + b) l = firstn a l ++ firstn b (skipn a l).
Proof.
  revert l. induction a as [|a IH]; intros l; [reflexivity|].
  destruct l as [|x l]; simpl.
  - now rewrite firstn_nil.
  - now rewrite IH.
Qed.

Lemma skipn_add {A} (a b : nat) (l : list A) :
  skipn (a + b) l = skipn b (skipn a l).
Proof.
  revert l. induction a as [|a IH]; intros l; [reflexivity|].
  destruct l as [|x l]; simpl; [now rewrite skipn_nil|apply IH].
Qed.

Lemma In_firstn_skipn {A} (a b : nat) (l : list A) (x : A) :
  In x (firstn a (skipn b l)) -> In x l.
Proof.
  intros H.
  pose proof (firstn_skipn a (skipn b l)) as H1.
  pose proof (firstn_skipn b l) as H2.
  rewrite <- H2. apply in_or_app. right.
  rewrite <- H1. apply in_or_app. now left.
Qed.

Lemma listed_true current_user start_date end_date e :
  listed current_user start_date end_date e = true ->
  Event.owner_id e = User.id current_user
  /\ (forall d, start_date = Some d ->
        exists t, Fields.start_time (Event.fields e) = Some t /\ d <= t)
  /\ (forall d, end_date = Some d ->
        exists t, Fields.end_time (Event.fields e) = Some t /\ t <= d).
Proof.
  unfold listed. rewrite !andb_true_iff. intros [[Ho Hs] He].
  apply Z.eqb_eq in Ho. repeat split; [assumption| |].
  - intros d ->. unfold after_start in Hs.
    destruct (Fields.start_time (Event.fields e)) as [t|]; [|discriminate].
    exists t. split; [reflexivity|now apply Z.leb_le].
  - intros d ->. unfold before_end in He.
    destruct (Fields.end_time (Event.fields e)) as [t|]; [|discriminate].
    exists t. split; [reflexivity|now apply Z.leb_le].
Qed.

(** X1: [list_events] with valid paging answers with rows of [events]
    only, each owned by the caller, each within the optional bounds (an
    event whose bounded time is NULL is left out), at most [limit] of them,
    and writes nothing; a negative [skip] or a [limit] outside 1..100 is
    rejected with a validation error. *)
Theorem list_events_only_own st plan current_user skip limit start_date end_date :
  (page_valid skip limit ->
   exists es,
     serve st plan current_user (GET_events skip limit start_date end_date)
     = (Return (EventsOut es), st)
     /\ Z.of_nat (List.length es) <= limit
     /\ forall e, In e es ->
          In e (events st)
          /\ Event.owner_id e = User.id current_user
          /\ (forall d, start_date = Some d ->
                exists t, Fields.start_time (Event.fields e) = Some t /\ d <= t)
          /\ (forall d, end_date = Some d ->
                exists t, Fields.end_time (Event.fields e) = Some t /\ t <= d))
  /\ (~ page_valid skip limit ->
      serve st plan current_user (GET_events skip limit start_date end_date)
      = (Raise RequestValidationError, st)).
Proof.
  split.
  - intros Hvalid. eexists. split; [now apply list_events_run|]. split.
    + pose proof (firstn_le_length (Z.to_nat limit)
                    (skipn (Z.to_nat skip)
                       (filter (listed current_user start_date end_date)
                               (events st)))) as Hlen.
      destruct Hvalid as [_ [Hl _]]. lia.
    + intros e He. apply In_firstn_skipn in He. apply filter_In in He.
      destruct He as [Hin Hl]. split; [assumption|].
      now apply listed_true.
  - intros Hinvalid. db_run. now rewrite (page_invalid_check _ _ Hinvalid).
Qed.

(** X2: the pages of [list_events] tile the listing: the page of [l1]
    events at [skip] followed by the page of [l2] events at [skip + l1] is
    the page of [l1 + l2] events at [skip]; and when at most 100 events
    match, the first page of 100 holds them all, in table order. *)
Theorem list_events_pages st plan current_user skip l1 l2 start_date end_date :
  0 <= skip -> 1 <= l1 -> 1 <= l2 -> l1 + l2 <= 100 ->
  (exists es1 es2,
     serve st plan current_user (GET_events skip l1 start_date end_date)
     = (Return (EventsOut es1), st)
     /\ serve st plan current_user (GET_events (skip + l1) l2 start_date end_date)
        = (Return (EventsOut es2), st)
     /\ serve st plan current_user (GET_events skip (l1 + l2) start_date end_date)
        = (Return (EventsOut (es1 ++ es2)), st))
  /\ ((List.length (filter (listed current_user start_date end_date) (events st))
       <= 100)%nat ->
      serve st plan current_user (GET_events 0 100 start_date end_date)
      = (Return (EventsOut
                   (filter (listed current_user start_date end_date) (events st))),
         st)).
Proof.
  intros Hs H1 H2 H12. split.
  - do 2 eexists. split; [|split].
    + apply list_events_run. unfold page_valid. lia.
    + apply list_events_run. unfold page_valid. lia.
    + rewrite list_events_run by (unfold page_valid; lia).
      rewrite !Z2Nat.inj_add by lia.
      now rewrite firstn_add, skipn_add.
  - intros Hlen. rewrite list_events_run by (unfold page_valid; lia).
    cbn [Z.to_nat skipn]. now rewrite firstn_all2 by (simpl; lia).
Qed.

(* ================================================================== *)
(** ** Deleting, and failing commits                                    *)
(* ================================================================== *)

Lemma find_filter_none {A} (p : A -> bool) (l : list A) :
  find p (filter (fun x => negb (p x)) l) = None.
Proof.
  induction l as [|x l IH]; simpl; [reflexivity|].
  destruct (p x) eqn:Hp; simpl; [exact IH|]. now rewrite Hp.
Qed.

Lemma find_filter_keep {A} (p q : A -> bool) (l : list A) :
  (forall x, p x = true -> q x = true) ->
  find p (filter q l) = find p l.
Proof.
  intros Hpq. induction l as [|x l IH]; simpl; [reflexivity|].
  destruct (p x) eqn:Hp.
  - rewrite (Hpq x Hp). simpl. now rewrite Hp.
  - destruct (q x); simpl; [now rewrite Hp|exact IH].
Qed.

Lemma filter_filter_keep {A} (p q : A -> bool) (l : list A) :
  (forall x, p x = true -> q x = true) ->
  filter p (filter q l) = filter p l.
Proof.
  intros Hpq. induction l as [|x l IH]; simpl; [reflexivity|].
  destruct (p x) eqn:Hp.
  - rewrite (Hpq x Hp). simpl. now rewrite Hp, IH.
  - destruct (q x); simpl; [now rewrite Hp|exact IH].
Qed.

Lemma filter_filter_none {A} (p : A -> bool) (l : list A) :
  filter p (filter (fun x => negb (p x)) l) = [].
Proof.
  induction l as [|x l IH]; simpl; [reflexivity|].
  destruct (p x) eqn:Hp; simpl; [exact IH|]. now rewrite Hp.
Qed.

Lemma versions_of_deleted db_event st :
  versions_of (Event.id db_event) (delete_rows db_event st) = [].
Proof.
  unfold versions_of. simpl.
  induction (event_versions st) as [|v vs IH]; simpl; [reflexivity|].
  destruct (of_event (Event.id db_event) v) eqn:Hof; simpl.
  - exact IH.
  - now rewrite Hof.
Qed.

Lemma content_delete_rows db_event st :
  map content (event_versions (delete_rows db_event st))
  = map content (event_versions st).
Proof.
  simpl. rewrite map_map. apply map_ext. intros v.
  now destruct (of_event (Event.id db_event) v).
Qed.

Lemma find_replace_event_other (db_event : Event.t) (es : list Event.t) i :
  i <> Event.id db_event ->
  find (fun e => Event.id e =? i) (replace_event db_event es)
  = find (fun e => Event.id e =? i) es.
Proof.
  intros Hi. induction es as [|e es IH]; simpl; [reflexivity|].
  destruct (Event.id e =? Event.id db_event) eqn:He.
  - apply Z.eqb_eq in He.
    assert ((Event.id db_event =? i) = false) as -> by (apply Z.eqb_neq; lia).
    assert ((Event.id e =? i) = false) as -> by (apply Z.eqb_neq; lia).
    exact IH.
  - destruct (Event.id e =? i); [reflexivity|exact IH].
Qed.

Lemma find_none_filter {A} (p q : A -> bool) (l : list A) :
  find p l = None -> find p (filter q l) = None.
Proof.
  induction l as [|x l IH]; simpl; [reflexivity|].
  destruct (p x) eqn:Hp; [discriminate|].
  intros H. destruct (q x); simpl; [rewrite Hp|]; auto.
Qed.

Lemma events_grant_all event_id perms : forall st,
  events (grant_all event_id perms st) = events st.
Proof.
  unfold grant_all. induction perms as [|p perms IH]; intros st; simpl; [reflexivity|].
  rewrite IH. apply events_grant_or_update.
Qed.

Lemma absent_record_edit st db_event old uid n e :
  event_by_id (Event.id db_event) st = Some old ->
  event_by_id e st = None ->
  event_by_id e (record_edit st db_event uid n) = None.
Proof.
  intros Hold Habs. unfold event_by_id. simpl.
  rewrite find_replace_event_other; [exact Habs|].
  intros ->. congruence.
Qed.

(** A handler that creates no event gives no event to an id that has
    none. *)
Lemma absent_stays st plan current_user req e :
  single_commit req ->
  event_by_id e st = None ->
  event_by_id e (snd (serve st plan current_user req)) = None.
Proof.
  intros Hsingle Habs.
  destruct req; try contradiction; try (now rewrite read_only).
  - destruct (event_by_id event_id st) as [event|] eqn:Hev.
    + destruct (owner_or_stranger event current_user) as [How | Hstr].
      * rewrite (update_event_run _ _ _ _ _ _ Hev How).
        pose proof (event_by_id_id _ _ _ Hev) as Hid.
        destruct (apply_items_id (dict_exclude_unset event_update) event)
          as [Hid' _].
        destruct plan as [|[|] plan]; cbn [snd]; try exact Habs;
          apply absent_record_edit with (old := event); try exact Habs;
          now rewrite Hid', Hid.
      * revert Hstr.
        guarded st plan current_user (PUT_event event_id event_update) event_id Hev.
        exact Habs.
    + guarded st plan current_user (PUT_event event_id event_update) event_id Hev.
      exact Habs.
  - destruct (event_by_id event_id st) as [event|] eqn:Hev.
    + destruct (owner_or_stranger event current_user) as [How | Hstr].
      * rewrite (delete_event_run _ _ _ _ _ Hev How).
        destruct plan as [|[|] plan]; cbn [snd]; try exact Habs;
          unfold event_by_id; simpl; now apply find_none_filter.
      * revert Hstr.
        guarded st plan current_user (DELETE_event event_id) event_id Hev.
        exact Habs.
    + guarded st plan current_user (DELETE_event event_id) event_id Hev.
      exact Habs.
  - destruct (event_by_id event_id st) as [event|] eqn:Hev.
    + destruct (owner_or_stranger event current_user) as [How | Hstr].
      * destruct (known_or_unknown st permissions) as [Hknown | Hunknown].
        -- rewrite (share_event_run _ _ _ _ _ _ Hev How Hknown).
           destruct plan as [|[|] plan]; cbn [snd]; try exact Habs;
             unfold event_by_id; now rewrite events_grant_all.
        -- destruct (share_event_rejects st plan current_user event_id
                       permissions event Hev How Hunknown) as [exn Hrun].
           now rewrite Hrun.
      * revert Hstr.
        guarded st plan current_user (POST_share event_id permissions) event_id Hev.
        exact Habs.
    + guarded st plan current_user (POST_share event_id permissions) event_id Hev.
      exact Habs.
  - destruct (event_by_id event_id st) as [event|] eqn:Hev.
    + destruct (owner_or_stranger event current_user) as [How | Hstr].
      * destruct (version_by_number event_id version_id st) as [version|] eqn:Hver.
        -- rewrite (rollback_event_run _ _ _ _ _ _ _ Hev How Hver).
           pose proof (event_by_id_id _ _ _ Hev) as Hid.
           destruct plan as [|[|] plan]; cbn [snd]; try exact Habs;
             apply absent_record_edit with (old := event); try exact Habs;
             cbn [Event.id]; now rewrite Hid.
        -- now rewrite (rollback_event_no_version _ _ _ _ _ _ Hev How Hver).
      * revert Hstr.
        guarded st plan current_user (POST_rollback event_id version_id) event_id Hev.
        exact Habs.
    + guarded st plan current_user (POST_rollback event_id version_id) event_id Hev.
      exact Habs.
Qed.

Lemma absent_stays_run calls : forall st e,
  Forall (fun c => single_commit (request c)) calls ->
  event_by_id e st = None ->
  event_by_id e (snd (run calls st)) = None.
Proof.
  induction calls as [|c calls IH] using rev_ind; intros st e Hall Habs.
  - exact Habs.
  - apply Forall_app in Hall. destruct Hall as [Hall Hc].
    inversion Hc as [|? ? Hsingle _]; subst.
    rewrite run_snoc. unfold run_step.
    specialize (IH st e Hall Habs).
    destruct (run calls st) as [log st1]. cbn [fst snd] in *.
    pose proof (absent_stays st1 (storage c) (caller c) (request c) e Hsingle IH)
      as Hstep.
    destruct (serve st1 (storage c) (caller c) (request c)) as [out st2].
    exact Hstep.
Qed.

(** X3: a delete by the owner whose commit goes through removes the event
    and its grants and detaches its snapshots: the id resolves to no event,
    has no snapshot and no grant.  From then on, and through any further
    requests that create no event, every event-scoped request on the id is
    answered with 404 (a later create may give the id to a new event: a
    new event gets one more than the largest id of the table).  No
    snapshot row is removed or rewritten (only the foreign key of the
    event's own snapshots is cleared), and the other events keep their
    rows, ledgers and grants. *)
Theorem delete_event_effect st plan current_user event_id event :
  event_by_id event_id st = Some event ->
  Event.owner_id event = User.id current_user ->
  commits plan ->
  exists st',
    serve st plan current_user (DELETE_event event_id)
    = (Return (MessageOut "Event deleted successfully"), st')
    /\ event_by_id event_id st' = None
    /\ versions_of event_id st' = []
    /\ permissions_of event_id st' = []
    /\ map content (event_versions st') = map content (event_versions st)
    /\ (forall e, e <> event_id ->
          event_by_id e st' = event_by_id e st
          /\ versions_of e st' = versions_of e st
          /\ permissions_of e st' = permissions_of e st)
    /\ (forall calls plan' caller req,
          Forall (fun c => single_commit (request c)) calls ->
          event_scope req = Some event_id ->
          path_valid req ->
          serve (snd (run calls st')) plan' caller req
          = (Raise (HTTPException 404 "Event not found"), snd (run calls st'))).
Proof.
  intros Hev How Hplan.
  pose proof (event_by_id_id _ _ _ Hev) as Hid.
  exists (delete_rows event st).
  assert (Habs : event_by_id event_id (delete_rows event st) = None).
  { unfold event_by_id. simpl. rewrite Hid.
    apply (find_filter_none (fun e => Event.id e =? event_id)). }
  split.
  { rewrite (delete_event_run _ _ _ _ _ Hev How).
    destruct (commits_cases _ Hplan) as [-> | [p ->]]; reflexivity. }
  split; [exact Habs|]. split.
  { rewrite <- Hid. apply versions_of_deleted. }
  split.
  { unfold permissions_of. simpl. rewrite Hid.
    apply (filter_filter_none (fun p => Permission.event_id p =? event_id)). }
  split; [apply content_delete_rows|]. split.
  - intros e Hne. repeat split.
    + unfold event_by_id. simpl. apply find_filter_keep.
      intros x Hx. apply Z.eqb_eq in Hx. apply negb_true_iff, Z.eqb_neq. lia.
    + apply versions_of_delete_rows. lia.
    + unfold permissions_of. simpl. apply filter_filter_keep.
      intros x Hx. apply Z.eqb_eq in Hx. apply negb_true_iff, Z.eqb_neq. lia.
  - intros calls plan' caller req Hcalls Hscope Hvalid.
    apply event_absent with (event_id := event_id); try assumption.
    now apply absent_stays_run.
Qed.

(** X4: every handler but the two that create events commits once, at its
    end: when such a handler raises, for whatever reason (unknown event,
    caller not the owner, unknown version or user, invalid parameter, or
    the commit itself failing), the committed tables are exactly what they
    were.  This is about the handler: what the response model makes of a
    value that the handler returned comes after the commit and is no raise
    of the handler. *)
Theorem raise_leaves_store st plan current_user req exn :
  single_commit req ->
  fst (serve st plan current_user req) = Raise exn ->
  snd (serve st plan current_user req) = st.
Proof.
  intros Hsingle Hraise.
  destruct req; try contradiction; try (now apply read_only).
  - destruct (event_by_id event_id st) as [event|] eqn:Hev.
    + destruct (owner_or_stranger event current_user) as [How | Hstr].
      * rewrite (update_event_run _ _ _ _ _ _ Hev How) in *.
        destruct plan as [|[|] plan]; cbn [fst snd] in *;
          try discriminate; reflexivity.
      * revert Hstr.
        guarded st plan current_user (PUT_event event_id event_update) event_id Hev.
        reflexivity.
    + guarded st plan current_user (PUT_event event_id event_update) event_id Hev.
      reflexivity.
  - destruct (event_by_id event_id st) as [event|] eqn:Hev.
    + destruct (owner_or_stranger event current_user) as [How | Hstr].
      * rewrite (delete_event_run _ _ _ _ _ Hev How) in *.
        destruct plan as [|[|] plan]; cbn [fst snd] in *;
          try discriminate; reflexivity.
      * revert Hstr.
        guarded st plan current_user (DELETE_event event_id) event_id Hev.
        reflexivity.
    + guarded st plan current_user (DELETE_event event_id) event_id Hev.
      reflexivity.
  - destruct (event_by_id event_id st) as [event|] eqn:Hev.
    + destruct (owner_or_stranger event current_user) as [How | Hstr].
      * destruct (known_or_unknown st permissions) as [Hknown | Hunknown].
        -- rewrite (share_event_run _ _ _ _ _ _ Hev How Hknown) in *.
           destruct plan as [|[|] plan]; cbn [fst snd] in *;
             try discriminate; reflexivity.
        -- destruct (share_event_rejects st plan current_user event_id
                       permissions event Hev How Hunknown) as [e Hrun].
           now rewrite Hrun.
      * revert Hstr.
        guarded st plan current_user (POST_share event_id permissions) event_id Hev.
        reflexivity.
    + guarded st plan current_user (POST_share event_id permissions) event_id Hev.
      reflexivity.
  - destruct (event_by_id event_id st) as [event|] eqn:Hev.
    + destruct (owner_or_stranger event current_user) as [How | Hstr].
      * destruct (version_by_number event_id version_id st) as [version|] eqn:Hver.
        -- rewrite (rollback_event_run _ _ _ _ _ _ _ Hev How Hver) in *.
           destruct plan as [|[|] plan]; cbn [fst snd] in *;
             try discriminate; reflexivity.
        -- now rewrite (rollback_event_no_version _ _ _ _ _ _ Hev How Hver).
      * revert Hstr.
        guarded st plan current_user (POST_rollback event_id version_id) event_id Hev.
        reflexivity.
    + guarded st plan current_user (POST_rollback event_id version_id) event_id Hev.
      reflexivity.
Qed.

(* ================================================================== *)
(** ** Batches                                                          *)
(* ================================================================== *)

Lemma created_events_app log1 log2 :
  created_events (log1 ++ log2) = created_events log1 ++ created_events log2.
Proof. unfold created_events. apply flat_map_app. Qed.

Lemma run_step_create log st current_user event :
  run_step (log, st) (mkCall current_user (POST_events event) [])
  = (log ++ [(POST_events event,
              Return (EventOut (new_event st (EventCreate.dict event)
                                          (User.id current_user))))],
     with_event_and_version st (EventCreate.dict event) (User.id current_user)).
Proof.
  unfold run_step. cbn [fst snd caller request storage].
  now rewrite create_event_run.
Qed.

Lemma run_one_by_one current_user batch : forall log st,
  created_events (fst (fold_left run_step (one_by_one current_user batch) (log, st)))
  = created_events log ++ fst (create_all batch (User.id current_user) st)
  /\ snd (fold_left run_step (one_by_one current_user batch) (log, st))
     = snd (create_all batch (User.id current_user) st).
Proof.
  induction batch as [|event batch IH]; intros log st.
  - simpl. now rewrite app_nil_r.
  - change (one_by_one current_user (event :: batch))
      with (mkCall current_user (POST_events event) []
            :: one_by_one current_user batch).
    cbn [fold_left]. rewrite run_step_create.
    destruct (IH (log ++ [(POST_events event,
                           Return (EventOut (new_event st (EventCreate.dict event)
                                                       (User.id current_user))))])
                 (with_event_and_version st (EventCreate.dict event)
                                         (User.id current_user)))
      as [IH1 IH2].
    cbn [create_all].
    destruct (create_all batch (User.id current_user)
                (with_event_and_version st (EventCreate.dict event)
                                        (User.id current_user))) as [es st'].
    cbn [fst snd] in *. split; [|exact IH2].
    etransitivity; [exact IH1|].
    rewrite created_events_app. cbn. now rewrite <- app_assoc.
Qed.

(** X5: when every commit goes through, [create_batch_events] does what
    [create_event] does when called once per item, in order: it leaves the
    same tables and returns the same events (none, and the tables as they
    were, for an empty batch).  It is not one transaction: when the commit
    that fails is the first of the second item, the first item's event and
    snapshot stay committed although the request fails. *)
Theorem batch_as_single_creates st plan current_user batch :
  (all_true plan ->
   serve st plan current_user (POST_events_batch batch)
   = (Return (EventsOut
                (created_events (fst (run (one_by_one current_user batch) st)))),
      snd (run (one_by_one current_user batch) st)))
  /\ (forall event1 event2 rest plan',
        batch = event1 :: event2 :: rest ->
        plan = true :: true :: false :: plan' ->
        serve st plan current_user (POST_events_batch batch)
        = (Raise StorageError,
           snd (serve st [] current_user (POST_events event1)))).
Proof.
  split.
  - intros Hplan.
    destruct (run_one_by_one current_user batch [] st) as [Hes Hst].
    change (fold_left run_step (one_by_one current_user batch) ([], st))
      with (run (one_by_one current_user batch) st) in Hes, Hst.
    rewrite Hes, Hst. cbn [created_events flat_map app].
    unfold serve. cbn [handle]. unfold fmap, bind, create_batch_events.
    destruct (batch_run current_user batch [] st plan Hplan) as [plan' ->].
    reflexivity.
  - intros event1 event2 rest plan' -> ->.
    rewrite create_event_run. cbn [snd].
    unfold serve. cbn [handle]. unfold fmap, bind, create_batch_events.
    rewrite batch_iteration. cbv zeta. cbn [skipn].
    rewrite batch_iteration. reflexivity.
Qed.

(* ================================================================== *)
(** ** The changelog                                                    *)
(* ================================================================== *)

Lemma insert_by_number_perm v l : Permutation (insert_by_number v l) (v :: l).
Proof.
  induction l as [|w l IH]; simpl; [reflexivity|].
  destruct (EventVersion.version_number w <=? EventVersion.version_number v).
  - rewrite IH. apply perm_swap.
  - reflexivity.
Qed.

Lemma insert_by_number_sorted v l :
  StronglySorted Z.le (map EventVersion.version_number l) ->
  StronglySorted Z.le (map EventVersion.version_number (insert_by_number v l)).
Proof.
  induction l as [|w l IH]; simpl; intros Hs.
  - repeat constructor.
  - inversion Hs as [|? ? Hl Hw]; subst.
    destruct (EventVersion.version_number w <=? EventVersion.version_number v) eqn:Hle.
    + simpl. constructor; [now apply IH|].
      apply Z.leb_le in Hle. rewrite Forall_forall in *.
      intros z Hz. apply in_map_iff in Hz. destruct Hz as (x & <- & Hx).
      apply (Permutation_in _ (insert_by_number_perm v l)) in Hx.
      destruct Hx as [<- | Hx]; [assumption|].
      apply Hw. now apply in_map.
    + simpl. apply Z.leb_gt in Hle. constructor; [assumption|].
      constructor; [lia|]. rewrite Forall_forall in *.
      intros z Hz. specialize (Hw z Hz). lia.
Qed.

Lemma fold_insert_sorted vs : forall acc,
  StronglySorted Z.le (map EventVersion.version_number acc) ->
  StronglySorted Z.le
    (map EventVersion.version_number
         (fold_left (fun acc v => insert_by_number v acc) vs acc)).
Proof.
  induction vs as [|v vs IH]; intros acc Hs; simpl; [assumption|].
  apply IH. now apply insert_by_number_sorted.
Qed.

Lemma fold_insert_perm vs : forall acc,
  Permutation (fold_left (fun acc v => insert_by_number v acc) vs acc) (acc ++ vs).
Proof.
  induction vs as [|v vs IH]; intros acc; simpl.
  - now rewrite app_nil_r.
  - rewrite IH, insert_by_number_perm. simpl.
    apply Permutation_middle.
Qed.

Lemma insert_by_number_last v l :
  Forall (fun w => EventVersion.version_number w <= EventVersion.version_number v) l ->
  insert_by_number v l = l ++ [v].
Proof.
  induction l as [|w l IH]; simpl; intros H; [reflexivity|].
  inversion H as [|? ? Hw Hl]; subst.
  apply Z.leb_le in Hw. rewrite Hw. now rewrite IH.
Qed.

Lemma sorted_snoc (l : list Z) (z : Z) :
  StronglySorted Z.le (l ++ [z]) ->
  StronglySorted Z.le l /\ Forall (fun x => x <= z) l.
Proof.
  induction l as [|x l IH]; simpl; intros H.
  - split; constructor.
  - inversion H as [|? ? Hl Hx]; subst.
    destruct (IH Hl) as [Hs Hf]. split.
    + constructor; [assumption|].
      rewrite Forall_forall in *. intros y Hy. apply Hx.
      apply in_or_app. now left.
    + constructor; [|assumption].
      rewrite Forall_forall in Hx. apply Hx. apply in_or_app. right. now left.
Qed.

(** A ledger already in ascending order comes back as it is. *)
Lemma fold_insert_ascending vs :
  StronglySorted Z.le (map EventVersion.version_number vs) ->
  fold_left (fun acc v => insert_by_number v acc) vs [] = vs.
Proof.
  induction vs as [|v vs IH] using rev_ind; intros Hs; [reflexivity|].
  rewrite map_app in Hs. apply sorted_snoc in Hs. destruct Hs as [Hs Hf].
  rewrite fold_left_app. simpl. rewrite (IH Hs).
  apply insert_by_number_last.
  rewrite Forall_forall in *. intros w Hw. apply Hf. now apply in_map.
Qed.

Lemma one_to_sorted n : StronglySorted Z.le (one_to n).
Proof.
  unfold one_to. generalize 1%nat as a.
  induction n as [|n IH]; intros a; simpl; constructor; [apply IH|].
  rewrite Forall_forall. intros z Hz. apply in_map_iff in Hz.
  destruct Hz as (k & <- & Hk). apply in_seq in Hk. lia.
Qed.

(** X6: for the owner, [get_event_changelog] answers with one entry per
    snapshot of the event (its number, its fields, and the modifier's
    username, or "Unknown" when the [users] table has no such id), the
    numbers in ascending order, and writes nothing; over a ledger that
    counts 1..N the entries are those of versions 1, 2, ..., N in this
    order. *)
Theorem changelog_ascending st plan current_user event_id event :
  event_by_id event_id st = Some event ->
  Event.owner_id event = User.id current_user ->
  exists cl,
    serve st plan current_user (GET_changelog event_id)
    = (Return (ChangelogOut cl), st)
    /\ StronglySorted Z.le (map version cl)
    /\ Permutation cl (map (changelog_entry st) (versions_of event_id st))
    /\ (forall n, version_numbers event_id st = one_to n ->
          cl = map (changelog_entry st) (versions_of event_id st)
          /\ map version cl = one_to n).
Proof.
  intros Hev How.
  exists (map (changelog_entry st) (versions_ascending event_id st)).
  split.
  { db_run. rewrite Hev. db_run. rewrite (owner_check _ _ How). reflexivity. }
  split.
  { rewrite map_map. cbn [version changelog_entry].
    apply fold_insert_sorted. constructor. }
  split.
  { apply Permutation_map. unfold versions_ascending.
    now rewrite fold_insert_perm. }
  intros n Hn. unfold versions_ascending.
  rewrite fold_insert_ascending.
  - split; [reflexivity|]. rewrite map_map. exact Hn.
  - unfold version_numbers in Hn. rewrite Hn. apply one_to_sorted.
Qed.

(* ================================================================== *)
(** ** Writes read back                                                 *)
(* ================================================================== *)

Lemma find_app_found {A} (p : A -> bool) (l l' : list A) (x : A) :
  find p l = Some x -> find p (l ++ l') = Some x.
Proof.
  induction l as [|y l IH]; simpl; [discriminate|].
  destruct (p y); [auto|exact IH].
Qed.

(** The first row in descending order is also the first row found under
    its own number. *)
Lemma greatest_found vs cv :
  greatest vs = Some cv ->
  find (fun v => EventVersion.version_number v =? EventVersion.version_number cv) vs
  = Some cv.
Proof.
  revert cv. induction vs as [|v vs IH]; simpl; [discriminate|].
  intros cv Hcv. destruct (greatest vs) as [w|] eqn:Hw.
  - destruct (EventVersion.version_number v <? EventVersion.version_number w) eqn:Hlt;
      inversion Hcv; subst.
    + apply Z.ltb_lt in Hlt.
      assert ((EventVersion.version_number v =? EventVersion.version_number cv) = false)
        as -> by (apply Z.eqb_neq; lia).
      now apply IH.
    + now rewrite Z.eqb_refl.
  - inversion Hcv; subst. now rewrite Z.eqb_refl.
Qed.

Lemma versions_of_fresh st event_id :
  referential st ->
  ~ In event_id (map Event.id (events st)) ->
  versions_of event_id st = [].
Proof.
  intros Href Hfresh.
  pose proof (version_numbers_fresh st event_id Href Hfresh) as H.
  unfold version_numbers in H. now apply map_eq_nil in H.
Qed.

Lemma versions_of_created st fields owner_id :
  referential st ->
  versions_of (Event.id (new_event st fields owner_id))
              (with_event_and_version st fields owner_id)
  = [snapshot st (Event.id (new_event st fields owner_id)) fields owner_id 1].
Proof.
  intros Href. unfold with_event_and_version.
  rewrite versions_of_snoc, of_event_snapshot, Z.eqb_refl.
  replace (versions_of (Event.id (new_event st fields owner_id))
                       (with_event st fields owner_id))
    with (versions_of (Event.id (new_event st fields owner_id)) st)
    by reflexivity.
  rewrite versions_of_fresh; [reflexivity|assumption|apply new_event_fresh].
Qed.

Lemma all_true_both (plan : list bool) :
  all_true plan ->
  match plan with
  | false :: _ | true :: false :: _ => False
  | _ => True
  end.
Proof.
  intros H. destruct (all_true_plan _ H) as [-> | [-> | [p ->]]]; exact I.
Qed.

(** X7: in any state that requests can reach, a create whose two commits
    go through returns an event with a positive id that no event held,
    owned by the caller, with the fields of the body; it appends this
    event and one snapshot and changes no other row; and reading back,
    version 1 of the new event is that snapshot (the body's fields, the
    caller as modifier) and [get_event] returns the event. *)
Theorem create_then_read st plan plan' current_user body :
  reachable st ->
  all_true plan ->
  exists ev v1 st',
    serve st plan current_user (POST_events body) = (Return (EventOut ev), st')
    /\ 0 < Event.id ev
    /\ event_by_id (Event.id ev) st = None
    /\ Event.owner_id ev = User.id current_user
    /\ Event.fields ev = EventCreate.dict body
    /\ events st' = events st ++ [ev]
    /\ event_versions st' = event_versions st ++ [v1]
    /\ event_permissions st' = event_permissions st
    /\ EventVersion.fields v1 = EventCreate.dict body
    /\ EventVersion.modified_by_id v1 = User.id current_user
    /\ serve st' plan' current_user (GET_history (Event.id ev) 1)
       = (Return (VersionOut v1), st')
    /\ exists ps,
         serve st' plan' current_user (GET_event (Event.id ev))
         = (Return (EventWithPermissionsOut ev ps), st').
Proof.
  intros Hreach Hplan.
  destruct (reachable_consistent _ Hreach) as [_ Href _ _].
  set (fields := EventCreate.dict body).
  set (ev := new_event st fields (User.id current_user)).
  set (v1 := snapshot st (Event.id ev) fields (User.id current_user) 1).
  set (st' := with_event_and_version st fields (User.id current_user)).
  assert (Hfresh : ~ In (Event.id ev) (map Event.id (events st)))
    by apply new_event_fresh.
  assert (Hev' : event_by_id (Event.id ev) st' = Some ev)
    by apply event_by_id_new_event.
  assert (Hpos : 0 < Event.id ev) by apply next_id_positive.
  exists ev, v1, st'. split.
  { rewrite create_event_run.
    pose proof (all_true_both _ Hplan) as Hb.
    destruct plan as [|[|] [|[|] plan]]; try contradiction; reflexivity. }
  split; [exact Hpos|]. split.
  { unfold event_by_id.
    destruct (find _ (events st)) as [e|] eqn:Hf; [|reflexivity].
    apply find_some in Hf. destruct Hf as [Hin He]. apply Z.eqb_eq in He.
    exfalso. apply Hfresh. rewrite <- He. now apply in_map. }
  do 7 (split; [reflexivity|]). split.
  - db_run. rewrite Hev'. db_run.
    rewrite (owner_check ev current_user eq_refl). db_run.
    unfold version_by_number, st', ev.
    rewrite (versions_of_created st fields (User.id current_user) Href).
    reflexivity.
  - eexists. db_run.
    assert ((Event.id ev <=? 0) = false) as -> by (apply Z.leb_gt; exact Hpos).
    db_run. rewrite Hev'. db_run.
    rewrite (owner_check ev current_user eq_refl). reflexivity.
Qed.

(** X8: in any state that requests can reach, after an update by the owner
    whose commit goes through, the diff of the previous latest version
    against the version just written lists exactly the fields that the
    body set to a value other than the one the event held, each with the
    held value as old and the requested value as new (so a body that
    changes nothing gives an empty diff). *)
Theorem update_then_diff st plan plan' current_user event_id event_update event cv :
  reachable st ->
  event_by_id event_id st = Some event ->
  Event.owner_id event = User.id current_user ->
  latest_version event_id st = Some cv ->
  commits plan ->
  exists db_event nv st',
    serve st plan current_user (PUT_event event_id event_update)
    = (Return (EventOut db_event), st')
    /\ EventVersion.version_number nv = EventVersion.version_number cv + 1
    /\ EventVersion.fields cv = Event.fields event
    /\ EventVersion.fields nv = Event.fields db_event
    /\ serve st' plan' current_user
             (GET_diff event_id (EventVersion.version_number cv)
                       (EventVersion.version_number nv))
       = (Return (DiffOut (EventVersion.version_number cv)
                          (EventVersion.version_number nv)
                          (map (diff_entry cv nv)
                               (filter (changed_by event_update (Event.fields event))
                                       tracked_fields))),
          st').
Proof.
  intros Hreach Hev How Hcv Hplan.
  destruct (reachable_consistent _ Hreach) as [_ _ Hcur _].
  pose proof (event_by_id_id _ _ _ Hev) as Hid.
  pose proof (event_by_id_In _ _ _ Hev) as Hin.
  destruct (apply_items_id (dict_exclude_unset event_update) event) as [Hid' How'].
  set (db_event := apply_items (dict_exclude_unset event_update) event) in *.
  set (n := next_version event_id st).
  set (nv := snapshot st (Event.id db_event) (Event.fields db_event)
                      (User.id current_user) n).
  set (st' := record_edit st db_event (User.id current_user) n).
  assert (Hn : n = EventVersion.version_number cv + 1)
    by (unfold n, next_version; now rewrite Hcv).
  assert (Hfields : EventVersion.fields cv = Event.fields event)
    by (apply Hcur; [assumption|now rewrite Hid]).
  assert (Hvs : versions_of event_id st' = versions_of event_id st ++ [nv]).
  { rewrite <- Hid, <- Hid'. apply (versions_of_record_edit st db_event). }
  assert (Hev' : event_by_id event_id st' = Some db_event).
  { rewrite <- Hid, <- Hid'.
    apply (event_by_id_record_edit st db_event) with (old := event).
    now rewrite Hid', Hid. }
  exists db_event, nv, st'. split.
  { rewrite (update_event_run _ _ _ _ _ _ Hev How).
    destruct (commits_cases _ Hplan) as [-> | [p ->]]; reflexivity. }
  split; [exact Hn|]. split; [exact Hfields|]. split; [reflexivity|].
  rewrite (get_event_diff_owner st' plan' current_user event_id _ _ db_event Hev')
    by congruence.
  unfold version_by_number. rewrite Hvs.
  rewrite (find_app_found _ _ _ cv) by (now apply greatest_found).
  rewrite find_snoc_fresh.
  - do 4 f_equal. apply filter_ext. intros f.
    unfold differsb, changed_by. rewrite Hfields.
    change (EventVersion.fields nv) with (Event.fields db_event).
    unfold db_event. rewrite apply_items_requested.
    destruct (requested event_update f); [reflexivity|apply py_ne_refl].
  - intros v Hv. apply Z.eqb_neq.
    pose proof (next_version_above event_id st v Hv). simpl. fold n. lia.
  - apply Z.eqb_refl.
Qed.

(** X9: after a rollback by the owner to an existing version, with its
    commit going through, the diff of that version against the version the
    rollback wrote is empty. *)
Theorem rollback_then_diff_empty st plan plan' current_user event_id version_id
    event version :
  event_by_id event_id st = Some event ->
  Event.owner_id event = User.id current_user ->
  version_by_number event_id version_id st = Some version ->
  commits plan ->
  exists db_event nv st',
    serve st plan current_user (POST_rollback event_id version_id)
    = (Return (EventOut db_event), st')
    /\ latest_version event_id st' = Some nv
    /\ serve st' plan' current_user
             (GET_diff event_id version_id (EventVersion.version_number nv))
       = (Return (DiffOut version_id (EventVersion.version_number nv) []), st').
Proof.
  intros Hev How Hver Hplan.
  pose proof (event_by_id_id _ _ _ Hev) as Hid.
  set (db_event := Event.mk (Event.id event) (EventVersion.fields version)
                            (Event.owner_id event)).
  set (n := next_version event_id st).
  set (nv := snapshot st (Event.id db_event) (Event.fields db_event)
                      (User.id current_user) n).
  set (st' := record_edit st db_event (User.id current_user) n).
  assert (Hlt : forall v, In v (versions_of event_id st) ->
                  EventVersion.version_number v < EventVersion.version_number nv)
    by (intros v Hv; simpl; now apply next_version_above).
  assert (Hvs : versions_of event_id st' = versions_of event_id st ++ [nv]).
  { rewrite <- Hid. apply (versions_of_record_edit st db_event). }
  assert (Hev' : event_by_id event_id st' = Some db_event).
  { rewrite <- Hid.
    apply (event_by_id_record_edit st db_event) with (old := event).
    simpl. now rewrite Hid. }
  exists db_event, nv, st'. split.
  { rewrite (rollback_event_run _ _ _ _ _ _ _ Hev How Hver).
    destruct (commits_cases _ Hplan) as [-> | [p ->]]; reflexivity. }
  split.
  { unfold latest_version. rewrite Hvs. now apply greatest_snoc. }
  rewrite (get_event_diff_owner st' plan' current_user event_id _ _ db_event Hev' How).
  unfold version_by_number. rewrite Hvs.
  rewrite (find_app_found _ _ _ version) by exact Hver.
  rewrite find_snoc_fresh.
  - rewrite (filter_ext (differsb version nv) (differsb version version))
      by (intros f; reflexivity).
    now rewrite filter_differsb_same.
  - intros v Hv. apply Z.eqb_neq. specialize (Hlt v Hv). lia.
  - apply Z.eqb_refl.
Qed.

(* ================================================================== *)
(** ** The ledger only grows                                            *)
(* ================================================================== *)

Lemma kept_refl v : kept v v.
Proof. split; auto. Qed.

Lemma kept_trans v1 v2 v3 : kept v1 v2 -> kept v2 v3 -> kept v1 v3.
Proof.
  intros [Hc1 He1] [Hc2 He2]. split; [congruence|].
  destruct He2 as [He2 | He2]; [|now right].
  rewrite He2. exact He1.
Qed.

Lemma Forall2_kept_refl l : Forall2 kept l l.
Proof. induction l; constructor; auto using kept_refl. Qed.

Lemma Forall2_kept_trans l1 : forall l2 l3,
  Forall2 kept l1 l2 -> Forall2 kept l2 l3 -> Forall2 kept l1 l3.
Proof.
  induction l1 as [|v l1 IH]; intros l2 l3 H12 H23;
    inversion H12; subst; inversion H23; subst; constructor.
  - eapply kept_trans; eauto.
  - eapply IH; eauto.
Qed.

Lemma ledger_grows_refl st : ledger_grows st st.
Proof.
  exists (event_versions st), []. split; [now rewrite app_nil_r|].
  apply Forall2_kept_refl.
Qed.

Lemma ledger_grows_trans st1 st2 st3 :
  ledger_grows st1 st2 -> ledger_grows st2 st3 -> ledger_grows st1 st3.
Proof.
  intros (old1 & add1 & H1 & F1) (old2 & add2 & H2 & F2).
  rewrite H1 in F2. apply Forall2_app_inv_l in F2.
  destruct F2 as (o1 & o2 & Fo1 & Fo2 & ->).
  exists o1, (o2 ++ add2). split; [now rewrite H2, app_assoc|].
  eapply Forall2_kept_trans; eauto.
Qed.

Lemma ledger_grows_same st st' :
  event_versions st' = event_versions st -> ledger_grows st st'.
Proof.
  intros H. exists (event_versions st), []. split; [now rewrite app_nil_r|].
  apply Forall2_kept_refl.
Qed.

Lemma step_ledger_grows st st' : step st st' -> ledger_grows st st'.
Proof.
  intros Hstep.
  destruct Hstep as [st fields owner_id | st event uid n Hin
                    | st db_event old uid n Hold Hn | st db_event
                    | st event_id perm].
  - now apply ledger_grows_same.
  - eexists (event_versions st), [_]. split; [reflexivity|].
    apply Forall2_kept_refl.
  - eexists (event_versions st), [_]. split; [reflexivity|].
    apply Forall2_kept_refl.
  - eexists _, []. split; [now rewrite app_nil_r|]. simpl.
    induction (event_versions st) as [|v vs IH]; simpl; constructor; [|exact IH].
    destruct (of_event (Event.id db_event) v); [|apply kept_refl].
    split; [reflexivity|now right].
  - apply ledger_grows_same. apply events_grant_or_update.
Qed.

Lemma steps_ledger_grows st st' : steps st st' -> ledger_grows st st'.
Proof.
  intros Hsteps. induction Hsteps as [|st1 st2 st3 H12 IH H23].
  - apply ledger_grows_refl.
  - eapply ledger_grows_trans; [exact IH|now apply step_ledger_grows].
Qed.

(** X10: the ledger is append-only.  Over any sequence of requests, by any
    callers and with any storage failures, the snapshot rows present at the
    start are all still there, in place and in order, each with the same
    id, fields, modifier and version number; the only column that can
    change is the event reference, which a delete of the event clears.
    New rows come after them. *)
Theorem ledger_append_only st calls :
  exists old added,
    event_versions (snd (run calls st)) = old ++ added
    /\ Forall2 kept (event_versions st) old
    /\ (List.length (event_versions st)
        <= List.length (event_versions (snd (run calls st))))%nat.
Proof.
  destruct (steps_ledger_grows _ _ (run_steps calls st)) as (old & added & H & F).
  exists old, added. split; [exact H|]. split; [exact F|].
  rewrite H, length_app. apply Forall2_length in F. lia.
Qed.

(* ================================================================== *)
(** ** Other users' events                                              *)
(* ================================================================== *)

Lemma untouched_refl e ev st : event_by_id e st = Some ev -> untouched e ev st st.
Proof. intros H. repeat split. exact H. Qed.

Lemma untouched_trans e ev st1 st2 st3 :
  untouched e ev st1 st2 -> untouched e ev st2 st3 -> untouched e ev st1 st3.
Proof.
  intros (_ & Hv1 & Hp1) (He2 & Hv2 & Hp2). repeat split; congruence.
Qed.

Lemma event_by_id_fresh_ne st fields owner_id e ev :
  event_by_id e st = Some ev -> Event.id (new_event st fields owner_id) <> e.
Proof.
  intros Hev Heq. apply (new_event_fresh st fields owner_id).
  rewrite Heq. rewrite <- (event_by_id_id _ _ _ Hev).
  apply in_map. now apply event_by_id_In in Hev.
Qed.

Lemma untouched_with_event e ev st fields owner_id :
  event_by_id e st = Some ev -> untouched e ev st (with_event st fields owner_id).
Proof.
  intros Hev. repeat split.
  unfold event_by_id. simpl. now apply find_app_found.
Qed.

Lemma untouched_created e ev st fields owner_id :
  event_by_id e st = Some ev ->
  untouched e ev st (with_event_and_version st fields owner_id).
Proof.
  intros Hev. repeat split.
  - unfold event_by_id. simpl. now apply find_app_found.
  - unfold with_event_and_version.
    rewrite versions_of_snoc, of_event_snapshot.
    pose proof (event_by_id_fresh_ne st fields owner_id e ev Hev) as Hne.
    apply Z.eqb_neq in Hne. rewrite Hne. now rewrite app_nil_r.
Qed.

Lemma untouched_record_edit e ev st db_event uid n :
  event_by_id e st = Some ev -> e <> Event.id db_event ->
  untouched e ev st (record_edit st db_event uid n).
Proof.
  intros Hev Hne. repeat split.
  - unfold event_by_id. simpl. rewrite find_replace_event_other by exact Hne.
    exact Hev.
  - replace (versions_of e (record_edit st db_event uid n))
      with (versions_of e
              (set_event_versions
                 (fun vs => vs ++ [snapshot st (Event.id db_event)
                                            (Event.fields db_event) uid n]) st))
      by reflexivity.
    rewrite versions_of_snoc, of_event_snapshot.
    assert ((Event.id db_event =? e) = false) as -> by (apply Z.eqb_neq; lia).
    now rewrite app_nil_r.
Qed.

Lemma untouched_delete_rows e ev st db_event :
  event_by_id e st = Some ev -> e <> Event.id db_event ->
  untouched e ev st (delete_rows db_event st).
Proof.
  intros Hev Hne. repeat split.
  - unfold event_by_id. simpl. rewrite find_filter_keep; [exact Hev|].
    intros x Hx. apply Z.eqb_eq in Hx. apply negb_true_iff, Z.eqb_neq. lia.
  - now apply versions_of_delete_rows.
  - unfold permissions_of. simpl. apply filter_filter_keep.
    intros x Hx. apply Z.eqb_eq in Hx. apply negb_true_iff, Z.eqb_neq. lia.
Qed.

Lemma permissions_of_grant_or_update e event_id perm st :
  e <> event_id ->
  permissions_of e (grant_or_update event_id perm st) = permissions_of e st.
Proof.
  intros Hne. unfold grant_or_update, permissions_of.
  destruct (hd_error _); simpl.
  - induction (event_permissions st) as [|p ps IH]; simpl; [reflexivity|].
    destruct (grant_matches event_id (PermissionCreate.user_id perm) p) eqn:Hm.
    + apply grant_matches_eq in Hm. destruct Hm as [He _]. simpl.
      assert ((Permission.event_id p =? e) = false) as ->
          by (apply Z.eqb_neq; lia).
      exact IH.
    + destruct (Permission.event_id p =? e); now rewrite IH.
  - rewrite filter_app. simpl.
    assert ((event_id =? e) = false) as -> by (apply Z.eqb_neq; lia).
    now rewrite app_nil_r.
Qed.

Lemma untouched_grant_all e ev event_id perms : forall st,
  event_by_id e st = Some ev -> e <> event_id ->
  untouched e ev st (grant_all event_id perms st).
Proof.
  unfold grant_all.
  induction perms as [|p perms IH]; intros st Hev Hne; simpl.
  - now apply untouched_refl.
  - destruct (grant_or_update_frame event_id p st) as (_ & He & Hv).
    assert (untouched e ev st (grant_or_update event_id p st)) as H1.
    { repeat split.
      - unfold event_by_id. now rewrite He.
      - unfold versions_of. now rewrite Hv.
      - now apply permissions_of_grant_or_update. }
    eapply untouched_trans; [exact H1|].
    apply IH; [apply H1|exact Hne].
Qed.

Lemma untouched_batch current_user e ev batch : forall acc st plan,
  event_by_id e st = Some ev ->
  untouched e ev st
    (committed (snd (create_batch_events_loop batch current_user acc
                       (mkSession st st plan)))).
Proof.
  induction batch as [|event_data batch IH]; intros acc st plan Hev.
  - now apply untouched_refl.
  - rewrite batch_iteration. cbv zeta.
    pose proof (untouched_created e ev st (EventCreate.dict event_data)
                  (User.id current_user) Hev) as Hc.
    destruct plan as [|[|] [|[|] plan]]; cbn [snd committed];
      try (now apply untouched_refl);
      try (eapply untouched_trans; [exact Hc|apply IH; apply Hc]).
    now apply untouched_with_event.
Qed.

(** What a request can do to an event that exists: leave it alone, or,
    when the caller owns it, delete it or rewrite its row under the same
    owner. *)
Lemma serve_effect_on st plan current_user req e ev :
  event_by_id e st = Some ev ->
  untouched e ev st (snd (serve st plan current_user req))
  \/ (Event.owner_id ev = User.id current_user
      /\ (event_by_id e (snd (serve st plan current_user req)) = None
          \/ exists ev',
               event_by_id e (snd (serve st plan current_user req)) = Some ev'
               /\ Event.owner_id ev' = Event.owner_id ev)).
Proof.
  intros He.
  assert (Hstay : snd (serve st plan current_user req) = st ->
                  untouched e ev st (snd (serve st plan current_user req))
                  \/ (Event.owner_id ev = User.id current_user
                      /\ (event_by_id e (snd (serve st plan current_user req)) = None
                          \/ exists ev',
                               event_by_id e (snd (serve st plan current_user req))
                               = Some ev'
                               /\ Event.owner_id ev' = Event.owner_id ev))).
  { intros ->. left. now apply untouched_refl. }
  destruct req; try (apply Hstay; now apply read_only).
  - left. rewrite create_event_run.
    destruct plan as [|[|] [|[|] plan]]; cbn [snd];
      auto using untouched_refl, untouched_created, untouched_with_event.
  - destruct (event_by_id event_id st) as [event|] eqn:Hev.
    + destruct (owner_or_stranger event current_user) as [How | Hstr].
      * rewrite (update_event_run _ _ _ _ _ _ Hev How).
        pose proof (event_by_id_id _ _ _ Hev) as Hid.
        destruct (apply_items_id (dict_exclude_unset event_update) event)
          as [Hid' How'].
        destruct plan as [|[|] plan]; cbn [snd];
          try (left; now apply untouched_refl);
          (destruct (Z.eq_dec e event_id) as [-> | Hne];
           [right; rewrite He in Hev; inversion Hev; subst ev;
            split; [exact How|]; right; eexists; split; [|exact How'];
            rewrite <- Hid at 1; rewrite <- Hid';
            apply event_by_id_record_edit with (old := event);
            now rewrite Hid', Hid
           |left; apply untouched_record_edit; [exact He|];
            rewrite Hid', Hid; exact Hne]).
      * apply Hstay. revert Hstr.
        guarded st plan current_user (PUT_event event_id event_update) event_id Hev.
        reflexivity.
    + apply Hstay.
      guarded st plan current_user (PUT_event event_id event_update) event_id Hev.
      reflexivity.
  - destruct (event_by_id event_id st) as [event|] eqn:Hev.
    + destruct (owner_or_stranger event current_user) as [How | Hstr].
      * rewrite (delete_event_run _ _ _ _ _ Hev How).
        pose proof (event_by_id_id _ _ _ Hev) as Hid.
        destruct plan as [|[|] plan]; cbn [snd];
          try (left; now apply untouched_refl);
          (destruct (Z.eq_dec e event_id) as [-> | Hne];
           [right; rewrite He in Hev; inversion Hev; subst ev;
            split; [exact How|]; left;
            unfold event_by_id; simpl; rewrite Hid;
            apply (find_filter_none (fun x => Event.id x =? event_id))
           |left; apply untouched_delete_rows; [exact He|];
            rewrite Hid; exact Hne]).
      * apply Hstay. revert Hstr.
        guarded st plan current_user (DELETE_event event_id) event_id Hev.
        reflexivity.
    + apply Hstay.
      guarded st plan current_user (DELETE_event event_id) event_id Hev.
      reflexivity.
  - left. rewrite serve_committed. cbn [handle]. rewrite snd_fmap.
    now apply untouched_batch.
  - destruct (event_by_id event_id st) as [event|] eqn:Hev.
    + destruct (owner_or_stranger event current_user) as [How | Hstr].
      * destruct (known_or_unknown st permissions) as [Hknown | Hunknown].
        -- rewrite (share_event_run _ _ _ _ _ _ Hev How Hknown).
           assert (Hev2 : events (grant_all event_id permissions st) = events st).
           { clear. revert st. unfold grant_all.
             induction permissions as [|p ps IH]; intros st; simpl; [reflexivity|].
             rewrite IH. apply grant_or_update_frame. }
           destruct plan as [|[|] plan]; cbn [snd];
             try (left; now apply untouched_refl);
             (destruct (Z.eq_dec e event_id) as [-> | Hne];
              [right; rewrite He in Hev; inversion Hev; subst ev;
               split; [exact How|]; right; exists event; split; [|reflexivity];
               unfold event_by_id; rewrite Hev2; exact He
              |left; now apply untouched_grant_all]).
        -- apply Hstay.
           destruct (share_event_rejects st plan current_user event_id
                       permissions event Hev How Hunknown) as [exn Hrun].
           now rewrite Hrun.
      * apply Hstay. revert Hstr.
        guarded st plan current_user (POST_share event_id permissions) event_id Hev.
        reflexivity.
    + apply Hstay.
      guarded st plan current_user (POST_share event_id permissions) event_id Hev.
      reflexivity.
  - destruct (event_by_id event_id st) as [event|] eqn:Hev.
    + destruct (owner_or_stranger event current_user) as [How | Hstr].
      * destruct (version_by_number event_id version_id st) as [version|] eqn:Hver.
        -- rewrite (rollback_event_run _ _ _ _ _ _ _ Hev How Hver).
           pose proof (event_by_id_id _ _ _ Hev) as Hid.
           set (db_event := Event.mk (Event.id event) (EventVersion.fields version)
                                     (Event.owner_id event)).
           destruct plan as [|[|] plan]; cbn [snd];
             try (left; now apply untouched_refl);
             (destruct (Z.eq_dec e event_id) as [-> | Hne];
              [right; rewrite He in Hev; inversion Hev; subst ev;
               split; [exact How|]; right; exists db_event; split; [|reflexivity];
               rewrite <- Hid at 1;
               apply (event_by_id_record_edit st db_event) with (old := event);
               cbn [db_event Event.id]; now rewrite Hid
              |left; apply untouched_record_edit; [exact He|];
               cbn [db_event Event.id]; rewrite Hid; exact Hne]).
        -- apply Hstay.
           now rewrite (rollback_event_no_version _ _ _ _ _ _ Hev How Hver).
      * apply Hstay. revert Hstr.
        guarded st plan current_user (POST_rollback event_id version_id) event_id Hev.
        reflexivity.
    + apply Hstay.
      guarded st plan current_user (POST_rollback event_id version_id) event_id Hev.
      reflexivity.
Qed.

(** X11: a request never touches an event that the caller does not own:
    whatever the request and the storage layer's answers, the event's row,
    its ledger and its grants are afterwards what they were.  And no
    request changes the owner of an event: an event that is still there
    afterwards has the owner it had. *)
Theorem other_owners_untouched st plan current_user req e ev :
  event_by_id e st = Some ev ->
  (Event.owner_id ev <> User.id current_user ->
   untouched e ev st (snd (serve st plan current_user req)))
  /\ (forall ev',
        event_by_id e (snd (serve st plan current_user req)) = Some ev' ->
        Event.owner_id ev' = Event.owner_id ev).
Proof.
  intros He.
  destruct (serve_effect_on st plan current_user req e ev He)
    as [Hu | (How & [Hnone | (ev1 & Hev1 & How1)])].
  - split; [intros _; exact Hu|].
    intros ev' Hev'. destruct Hu as (Hsame & _). congruence.
  - split; [intros Hstr; contradiction|].
    intros ev' Hev'. congruence.
  - split; [intros Hstr; contradiction|].
    intros ev' Hev'. congruence.
Qed.

(* ================================================================== *)
(** ** Sharing with a list                                              *)
(* ================================================================== *)

Lemma last_role_snoc perms p user_id :
  last_role (perms ++ [p]) user_id
  = if PermissionCreate.user_id p =? user_id
    then Some (PermissionCreate.role p)
    else last_role perms user_id.
Proof. unfold last_role. now rewrite fold_left_app. Qed.

Lemma grant_all_snoc event_id perms p st :
  grant_all event_id (perms ++ [p]) st
  = grant_or_update event_id p (grant_all event_id perms st).
Proof. unfold grant_all. now rewrite fold_left_app. Qed.

Lemma unique_grants_grant_all event_id perms : forall st,
  unique_grants st -> unique_grants (grant_all event_id perms st).
Proof.
  unfold grant_all. induction perms as [|p perms IH]; intros st H; simpl; [exact H|].
  apply IH. now apply unique_grants_grant_or_update.
Qed.

Lemma grant_all_frame event_id perms : forall st,
  users (grant_all event_id perms st) = users st
  /\ events (grant_all event_id perms st) = events st
  /\ event_versions (grant_all event_id perms st) = event_versions st.
Proof.
  unfold grant_all. induction perms as [|p perms IH]; intros st; simpl; [auto|].
  destruct (IH (grant_or_update event_id p st)) as (-> & -> & ->).
  apply grant_or_update_frame.
Qed.

(** A grant to one user leaves the grants of the others. *)
Lemma grants_of_other_user event_id perm user_id st :
  PermissionCreate.user_id perm <> user_id ->
  grants_of event_id user_id (grant_or_update event_id perm st)
  = grants_of event_id user_id st.
Proof.
  intros Hne. unfold grant_or_update, grants_of.
  destruct (hd_error _); simpl.
  - induction (event_permissions st) as [|p ps IH]; simpl; [reflexivity|].
    destruct (grant_matches event_id (PermissionCreate.user_id perm) p) eqn:Hm.
    + apply grant_matches_eq in Hm. destruct Hm as [He Hu].
      assert (grant_matches event_id user_id
                (Permission.mk (Permission.event_id p) (Permission.user_id p)
                               (PermissionCreate.role perm)) = false) as ->.
      { unfold grant_matches. simpl. apply andb_false_iff. right.
        apply Z.eqb_neq. lia. }
      assert (grant_matches event_id user_id p = false) as ->.
      { unfold grant_matches. apply andb_false_iff. right.
        apply Z.eqb_neq. lia. }
      exact IH.
    + destruct (grant_matches event_id user_id p); now rewrite IH.
  - rewrite filter_app. simpl.
    assert (grant_matches event_id user_id
              (Permission.mk event_id (PermissionCreate.user_id perm)
                             (PermissionCreate.role perm)) = false) as ->.
    { unfold grant_matches. simpl. apply andb_false_iff. right.
      apply Z.eqb_neq. lia. }
    now rewrite app_nil_r.
Qed.

Lemma grant_all_last_role event_id perms st :
  unique_grants st ->
  forall user_id,
    grants_of event_id user_id (grant_all event_id perms st)
    = match last_role perms user_id with
      | Some r => [Permission.mk event_id user_id r]
      | None => grants_of event_id user_id st
      end.
Proof.
  intros Huniq.
  induction perms as [|p perms IH] using rev_ind; intros user_id; [reflexivity|].
  rewrite grant_all_snoc, last_role_snoc.
  destruct (PermissionCreate.user_id p =? user_id) eqn:Hu.
  - apply Z.eqb_eq in Hu. subst user_id. destruct p as [uid r].
    apply grants_of_grant_or_update. now apply unique_grants_grant_all.
  - apply Z.eqb_neq in Hu. rewrite grants_of_other_user by exact Hu. apply IH.
Qed.

Lemma permissions_of_grant_all e event_id perms : forall st,
  e <> event_id ->
  permissions_of e (grant_all event_id perms st) = permissions_of e st.
Proof.
  unfold grant_all. induction perms as [|p perms IH]; intros st Hne; simpl;
    [reflexivity|].
  rewrite IH by exact Hne. now apply permissions_of_grant_or_update.
Qed.

(** X12: in any state that requests can reach, when the owner shares an
    event with a list of entries that all name existing users and the
    commit goes through, the answer lists the event's grants as they now
    are; every user named in the list has exactly one grant on the event,
    with the role of the last entry that names the user; the grants of the
    users not named, and the grants of every other event, are what they
    were; and no event or snapshot row changes. *)
Theorem share_last_entry_wins st plan current_user event_id permissions event :
  reachable st ->
  event_by_id event_id st = Some event ->
  Event.owner_id event = User.id current_user ->
  Forall (known_user st) permissions ->
  commits plan ->
  exists st',
    serve st plan current_user (POST_share event_id permissions)
    = (Return (ShareOut "Event shared successfully"
                        (map permission_out (permissions_of event_id st'))), st')
    /\ (forall user_id,
          grants_of event_id user_id st'
          = match last_role permissions user_id with
            | Some r => [Permission.mk event_id user_id r]
            | None => grants_of event_id user_id st
            end)
    /\ (forall e, e <> event_id -> permissions_of e st' = permissions_of e st)
    /\ events st' = events st
    /\ event_versions st' = event_versions st.
Proof.
  intros Hreach Hev How Hknown Hplan.
  destruct (reachable_consistent _ Hreach) as [_ _ _ Huniq].
  exists (grant_all event_id permissions st). split.
  { rewrite (share_event_run _ _ _ _ _ _ Hev How Hknown).
    destruct (commits_cases _ Hplan) as [-> | [p ->]]; reflexivity. }
  split; [now apply grant_all_last_role|].
  split; [intros e Hne; now apply permissions_of_grant_all|].
  split; apply grant_all_frame.
Qed.

(* ================================================================== *)
(** ** Which versions exist                                             *)
(* ================================================================== *)


(* ================================================================== *)
(** ** Registration                                                     *)
(* ================================================================== *)

Lemma NoDup_snoc {A} (l : list A) (x : A) :
  NoDup l -> ~ In x l -> NoDup (l ++ [x]).
Proof.
  intros Hl Hx.
  apply NoDup_incl_NoDup with (l := x :: l).
  - now constructor.
  - rewrite length_app. simpl. lia.
  - intros y Hy. apply in_or_app. simpl in *. tauto.
Qed.

Lemma user_by_username_none name st :
  user_by_username name st = None ->
  ~ In name (map User.username (users st)).
Proof.
  unfold user_by_username. intros Hnone Hin. apply in_map_iff in Hin.
  destruct Hin as (u & <- & Hu).
  apply (find_none _ _ Hnone) in Hu. now rewrite String.eqb_refl in Hu.
Qed.

Lemma user_by_email_none mail st :
  user_by_email mail st = None ->
  ~ In mail (map User.email (users st)).
Proof.
  unfold user_by_email. intros Hnone Hin. apply in_map_iff in Hin.
  destruct Hin as (u & <- & Hu).
  apply (find_none _ _ Hnone) in Hu. now rewrite String.eqb_refl in Hu.
Qed.

Lemma user_by_id_with_user st username email hashed_password :
  user_by_id (next_id (map User.id (users st)))
             (with_user st username email hashed_password)
  = Some (User.mk (next_id (map User.id (users st))) username email hashed_password).
Proof.
  unfold user_by_id. simpl. apply find_snoc_fresh.
  - intros u Hu. apply Z.eqb_neq.
    pose proof (next_id_fresh (map User.id (users st)) (User.id u)
                  (in_map User.id _ _ Hu)).
    lia.
  - apply Z.eqb_refl.
Qed.

(** What [register] does, case by case. *)
Lemma register_run get_password_hash st plan user :
  serve_register get_password_hash st plan user
  = match user_by_username (UserCreate.username user) st with
    | Some _ => (Raise (HTTPException 400 "Username already registered"), st)
    | None =>
        match user_by_email (UserCreate.email user) st with
        | Some _ => (Raise (HTTPException 400 "Email already registered"), st)
        | None =>
            match plan with
            | false :: _ => (Raise StorageError, st)
            | _ =>
                (Return (User.mk (next_id (map User.id (users st)))
                                 (UserCreate.username user) (UserCreate.email user)
                                 (get_password_hash (UserCreate.password user))),
                 with_user st (UserCreate.username user) (UserCreate.email user)
                           (get_password_hash (UserCreate.password user)))
            end
        end
    end.
Proof.
  unfold serve_register, register, db_add_user, db_refresh_user. db_run.
  destruct (user_by_username (UserCreate.username user) st); [reflexivity|].
  db_run.
  destruct (user_by_email (UserCreate.email user) st); [reflexivity|].
  db_run.
  change (set_users _ st)
    with (with_user st (UserCreate.username user) (UserCreate.email user)
                    (get_password_hash (UserCreate.password user))).
  destruct plan as [|[|] plan]; db_run; try reflexivity;
    cbn [User.id]; rewrite user_by_id_with_user; reflexivity.
Qed.

(** X14: [register] keeps ids, usernames and emails unique, whatever the
    storage layer answers.  It answers a username that is taken with 400
    "Username already registered", and otherwise an email that is taken
    with 400 "Email already registered", writing nothing; when both are
    free and the commit goes through it appends one user with a fresh id,
    the given username and email and the hash of the password, leaves the
    other tables alone, and a second registration under the same username
    is rejected. *)
Theorem register_keeps_unique get_password_hash st plan user :
  (users_unique st ->
   users_unique (snd (serve_register get_password_hash st plan user)))
  /\ (user_by_username (UserCreate.username user) st <> None ->
      serve_register get_password_hash st plan user
      = (Raise (HTTPException 400 "Username already registered"), st))
  /\ (user_by_username (UserCreate.username user) st = None ->
      user_by_email (UserCreate.email user) st <> None ->
      serve_register get_password_hash st plan user
      = (Raise (HTTPException 400 "Email already registered"), st))
  /\ (user_by_username (UserCreate.username user) st = None ->
      user_by_email (UserCreate.email user) st = None ->
      commits plan ->
      exists db_user st',
        serve_register get_password_hash st plan user = (Return db_user, st')
        /\ users st' = users st ++ [db_user]
        /\ ~ In (User.id db_user) (map User.id (users st))
        /\ User.username db_user = UserCreate.username user
        /\ User.email db_user = UserCreate.email user
        /\ User.hashed_password db_user
           = get_password_hash (UserCreate.password user)
        /\ events st' = events st
        /\ event_versions st' = event_versions st
        /\ event_permissions st' = event_permissions st
        /\ forall plan' user',
             UserCreate.username user' = UserCreate.username user ->
             serve_register get_password_hash st' plan' user'
             = (Raise (HTTPException 400 "Username already registered"), st')).
Proof.
  rewrite register_run. split; [|split; [|split]].
  - intros (Hid & Hname & Hmail).
    destruct (user_by_username (UserCreate.username user) st) eqn:Hn;
      [repeat split; assumption|].
    destruct (user_by_email (UserCreate.email user) st) eqn:He;
      [repeat split; assumption|].
    assert (users_unique
              (with_user st (UserCreate.username user) (UserCreate.email user)
                         (get_password_hash (UserCreate.password user)))) as Hnew.
    { unfold users_unique. simpl. rewrite !map_app. simpl. repeat split.
      - apply NoDup_snoc; [assumption|].
        intros Hin. apply next_id_fresh in Hin. lia.
      - apply NoDup_snoc; [assumption|now apply user_by_username_none].
      - apply NoDup_snoc; [assumption|now apply user_by_email_none]. }
    destruct plan as [|[|] plan]; cbn [snd];
      [exact Hnew|exact Hnew|repeat split; assumption].
  - intros Htaken.
    destruct (user_by_username (UserCreate.username user) st); [reflexivity|].
    now contradiction Htaken.
  - intros -> Htaken.
    destruct (user_by_email (UserCreate.email user) st); [reflexivity|].
    now contradiction Htaken.
  - intros Hn He Hplan. rewrite Hn, He.
    do 2 eexists. split.
    { destruct (commits_cases _ Hplan) as [-> | [p ->]]; reflexivity. }
    repeat split.
    + cbn [User.id]. intros Hin. apply next_id_fresh in Hin. lia.
    + intros plan' user' Hsame. rewrite register_run, Hsame.
      unfold user_by_username at 1. simpl. rewrite find_snoc_fresh.
      * reflexivity.
      * intros u Hu. unfold user_by_username in Hn.
        now apply (find_none _ _ Hn).
      * apply String.eqb_refl.
Qed.

(* ================================================================== *)
(** ** Reading an event, and events without a snapshot                  *)
(* ================================================================== *)

Lemma get_event_run st plan current_user event_id event :
  0 < event_id ->
  event_by_id event_id st = Some event ->
  Event.owner_id event = User.id current_user ->
  serve st plan current_user (GET_event event_id)
  = (Return (EventWithPermissionsOut event
               (map permission_out (permissions_of event_id st))), st).
Proof.
  intros Hpos Hev How. db_run.
  assert ((event_id <=? 0) = false) as -> by (apply Z.leb_gt; exact Hpos).
  db_run. rewrite Hev. db_run. now rewrite (owner_check _ _ How).
Qed.

Lemma grants_of_permissions_of event_id user_id st :
  grants_of event_id user_id st
  = filter (fun p => Permission.user_id p =? user_id) (permissions_of event_id st).
Proof.
  unfold grants_of, permissions_of. rewrite filter_filter_andb. reflexivity.
Qed.

Lemma unique_grants_NoDup st event_id :
  unique_grants st ->
  NoDup (map Permission.user_id (permissions_of event_id st)).
Proof.
  intros Huniq.
  assert (H : forall u : Z,
             (List.length (filter (fun p => (Permission.user_id p =? u)%Z)
                                  (permissions_of event_id st)) <= 1)%nat).
  { intros u. rewrite <- grants_of_permissions_of. apply Huniq. }
  induction (permissions_of event_id st) as [|p ps IH]; [constructor|].
  simpl. constructor.
  - intros Hin. apply in_map_iff in Hin. destruct Hin as (q & Hq & Hqin).
    specialize (H (Permission.user_id p)). simpl in H.
    rewrite Z.eqb_refl in H. simpl in H.
    assert (In q (filter (fun x => Permission.user_id x =? Permission.user_id p) ps))
      as Hf by (apply filter_In; split; [assumption|now apply Z.eqb_eq]).
    destruct (filter _ ps); [contradiction|simpl in H; lia].
  - apply IH. intros u. specialize (H u). simpl in H.
    destruct (Permission.user_id p =? u); simpl in H; lia.
Qed.

(** X15: in any state that requests can reach, [get_event] answers the
    owner with the event's stored row and the grants of this event, those
    and no others, in table order, and no user is listed twice; it writes
    nothing.  Right after a share that returned, the list is the one that
    the share answered with. *)
Theorem get_event_lists_grants st plan plan' current_user event_id event :
  reachable st ->
  0 < event_id ->
  event_by_id event_id st = Some event ->
  Event.owner_id event = User.id current_user ->
  (exists ps,
     serve st plan current_user (GET_event event_id)
     = (Return (EventWithPermissionsOut event ps), st)
     /\ NoDup (map fst ps)
     /\ forall user_id role,
          In (user_id, role) ps
          <-> In (Permission.mk event_id user_id role) (event_permissions st))
  /\ (forall permissions msg ps st',
        serve st plan current_user (POST_share event_id permissions)
        = (Return (ShareOut msg ps), st') ->
        serve st' plan' current_user (GET_event event_id)
        = (Return (EventWithPermissionsOut event ps), st')).
Proof.
  intros Hreach Hpos Hev How.
  destruct (reachable_consistent _ Hreach) as [_ _ _ Huniq].
  split.
  - exists (map permission_out (permissions_of event_id st)).
    split; [now apply get_event_run|]. split.
    + rewrite map_map. cbn [permission_out fst].
      now apply unique_grants_NoDup.
    + intros user_id role. unfold permissions_of. rewrite in_map_iff. split.
      * intros (p & Hp & Hin). apply filter_In in Hin. destruct Hin as [Hin He].
        apply Z.eqb_eq in He. destruct p as [e u r]. simpl in *.
        inversion Hp; subst. exact Hin.
      * intros Hin. exists (Permission.mk event_id user_id role).
        split; [reflexivity|]. apply filter_In. split; [exact Hin|].
        apply Z.eqb_refl.
  - intros permissions msg ps st' Hshare.
    destruct (known_or_unknown st permissions) as [Hknown | Hunknown].
    + rewrite (share_event_run _ _ _ _ _ _ Hev How Hknown) in Hshare.
      destruct (grant_all_frame event_id permissions st) as (_ & Hevs & _).
      assert (Hev' : event_by_id event_id (grant_all event_id permissions st)
                     = Some event)
        by (unfold event_by_id; now rewrite Hevs).
      destruct plan as [|[|] plan]; inversion Hshare; subst;
        now apply get_event_run.
    + destruct (share_event_rejects st plan current_user event_id permissions
                  event Hev How Hunknown) as [exn Hrun].
      rewrite Hrun in Hshare. discriminate Hshare.
Qed.

(** X16: an event without any snapshot (what a create leaves when its
    second commit fails) is still served: an update by the owner writes
    the snapshot numbered 1, which is then the event's whole ledger; until
    then every fetch of a version and every rollback is answered with 404
    "Version not found", and the changelog is empty. *)
Theorem event_without_snapshot st plan current_user event_id event event_update :
  event_by_id event_id st = Some event ->
  Event.owner_id event = User.id current_user ->
  versions_of event_id st = [] ->
  (commits plan ->
   exists db_event nv st',
     serve st plan current_user (PUT_event event_id event_update)
     = (Return (EventOut db_event), st')
     /\ event_versions st' = event_versions st ++ [nv]
     /\ EventVersion.version_number nv = 1
     /\ EventVersion.fields nv = Event.fields db_event
     /\ versions_of event_id st' = [nv])
  /\ (forall n,
        serve st plan current_user (GET_history event_id n)
        = (Raise (HTTPException 404 "Version not found"), st)
        /\ serve st plan current_user (POST_rollback event_id n)
           = (Raise (HTTPException 404 "Version not found"), st))
  /\ serve st plan current_user (GET_changelog event_id)
     = (Return (ChangelogOut []), st).
Proof.
  intros Hev How Hnone.
  pose proof (event_by_id_id _ _ _ Hev) as Hid.
  assert (Hver : forall n, version_by_number event_id n st = None)
    by (intros n; unfold version_by_number; now rewrite Hnone).
  split; [|split].
  - intros Hplan.
    destruct (apply_items_id (dict_exclude_unset event_update) event) as [Hid' _].
    set (db_event := apply_items (dict_exclude_unset event_update) event) in *.
    assert (Hnext : next_version event_id st = 1)
      by (unfold next_version, latest_version; now rewrite Hnone).
    exists db_event.
    exists (snapshot st (Event.id db_event) (Event.fields db_event)
                     (User.id current_user) 1).
    exists (record_edit st db_event (User.id current_user) 1).
    split.
    { rewrite (update_event_run _ _ _ _ _ _ Hev How), Hnext.
      destruct (commits_cases _ Hplan) as [-> | [p ->]]; reflexivity. }
    do 3 (split; [reflexivity|]).
    rewrite <- Hid at 1. rewrite <- Hid'.
    rewrite versions_of_record_edit. rewrite Hid', Hid, Hnone. reflexivity.
  - intros n. split.
    + db_run. rewrite Hev. db_run. rewrite (owner_check _ _ How). db_run.
      now rewrite Hver.
    + now apply rollback_event_no_version with (event := event).
  - db_run. rewrite Hev. db_run. rewrite (owner_check _ _ How).
    unfold versions_ascending. now rewrite Hnone.
Qed.

(** X17: [rollback_event] reads [current_version.version_number] without
    testing the query's result, and this never fails: whatever the state,
    the caller and the storage layer's answers, a rollback does not raise
    [AttributeError], since the latest version is looked up only after the
    target version was found. *)
Theorem rollback_never_attribute_error st plan current_user event_id version_id :
  fst (serve st plan current_user (POST_rollback event_id version_id))
  <> Raise AttributeError.
Proof.
  destruct (event_by_id event_id st) as [event|] eqn:Hev.
  - destruct (owner_or_stranger event current_user) as [How | Hstr].
    + destruct (version_by_number event_id version_id st) as [version|] eqn:Hver.
      * rewrite (rollback_event_run _ _ _ _ _ _ _ Hev How Hver).
        destruct plan as [|[|] plan]; discriminate.
      * rewrite (rollback_event_no_version _ _ _ _ _ _ Hev How Hver).
        discriminate.
    + revert Hstr.
      guarded st plan current_user (POST_rollback event_id version_id) event_id Hev.
      discriminate.
  - guarded st plan current_user (POST_rollback event_id version_id) event_id Hev.
    discriminate.
Qed.

(* ================================================================== *)
(** ** Updates and the response model                                   *)
(* ================================================================== *)

(** X19: [update_event] checks nothing of the request body, whose fields
    are all optional and nullable: an update by the owner that sets a
    required field of the response model to null is committed like any
    other, event and snapshot, before the handler returns the event, and
    the returned event does not fit [schemas.Event], the response model of
    the route.  What fails then is the response, with the change already
    in the tables. *)
Theorem null_committed_before_response st plan current_user event_id
    event_update event f :
  event_by_id event_id st = Some event ->
  Event.owner_id event = User.id current_user ->
  commits plan ->
  In f required_fields ->
  requested event_update f = Some None ->
  exists db_event nv st',
    serve st plan current_user (PUT_event event_id event_update)
    = (Return (EventOut db_event), st')
    /\ event_by_id event_id st' = Some db_event
    /\ getattr (Event.fields db_event) f = None
    /\ fits_response db_event = false
    /\ event_versions st' = event_versions st ++ [nv]
    /\ EventVersion.event_id nv = Some event_id
    /\ getattr (EventVersion.fields nv) f = None
    /\ st' <> st.
Proof.
  intros Hev How Hplan Hreq Hnull.
  pose proof (event_by_id_id _ _ _ Hev) as Hid.
  destruct (apply_items_id (dict_exclude_unset event_update) event) as [Hid' _].
  pose proof (apply_items_requested event_update event f) as Hf.
  rewrite Hnull in Hf.
  set (db_event := apply_items (dict_exclude_unset event_update) event) in *.
  exists db_event.
  exists (snapshot st (Event.id db_event) (Event.fields db_event)
                   (User.id current_user) (next_version event_id st)).
  exists (record_edit st db_event (User.id current_user) (next_version event_id st)).
  split.
  { rewrite (update_event_run _ _ _ _ _ _ Hev How).
    destruct (commits_cases _ Hplan) as [-> | [plan' ->]]; reflexivity. }
  split.
  { rewrite <- Hid, <- Hid'. apply event_by_id_record_edit with (old := event).
    now rewrite Hid', Hid. }
  split; [exact Hf|]. split.
  { destruct (fits_response db_event) eqn:Hfits; [|reflexivity].
    unfold fits_response in Hfits. rewrite forallb_forall in Hfits.
    specialize (Hfits f Hreq). rewrite Hf in Hfits. discriminate. }
  split; [reflexivity|]. split; [simpl; congruence|]. split; [exact Hf|].
  intros Heq. apply (f_equal (fun s => List.length (event_versions s))) in Heq.
  simpl in Heq. rewrite List.length_app in Heq. simpl in Heq. lia.
Qed.

(* ================================================================== *)
(** ** The properties on the small database                             *)
(* ================================================================== *)

Lemma sample_reachable : reachable sample.
Proof. exists [alice; bob], sample_calls. reflexivity. Qed.

(** The hypotheses of C2 hold on the small database, and so does its
    conclusion. *)
Lemma rollback_round_trip_witness :
  event_by_id 1 sample = Some sample_event
  /\ Event.owner_id sample_event = User.id alice
  /\ version_by_number 1 1 sample = Some sample_v1
  /\ commits []
  /\ exists db_event nv st',
       serve sample [] alice (POST_rollback 1 1) = (Return (EventOut db_event), st')
       /\ Event.fields db_event = EventVersion.fields sample_v1
       /\ event_by_id 1 st' = Some db_event
       /\ event_versions st' = event_versions sample ++ [nv]
       /\ EventVersion.event_id nv = Some 1
       /\ EventVersion.fields nv = EventVersion.fields sample_v1
       /\ (forall v, In v (versions_of 1 sample) ->
             EventVersion.version_number v < EventVersion.version_number nv)
       /\ latest_version 1 st' = Some nv
       /\ serve st' [] alice (GET_history 1 (EventVersion.version_number nv))
          = (Return (VersionOut nv), st').
Proof.
  do 4 (split; [reflexivity|]).
  apply (rollback_round_trip sample [] [] alice 1 1 sample_event sample_v1);
    reflexivity.
Defined.

(** The hypotheses of C4 hold on the small database, and so does its
    conclusion. *)
Lemma event_scope_checks_witness :
  (event_scope (GET_event 5) = Some 5
   /\ path_valid (GET_event 5)
   /\ event_by_id 5 sample = None
   /\ serve sample [] alice (GET_event 5)
      = (Raise (HTTPException 404 "Event not found"), sample))
  /\ (event_scope (PUT_event 1 retitle) = Some 1
      /\ path_valid (PUT_event 1 retitle)
      /\ event_by_id 1 sample = Some sample_event
      /\ Event.owner_id sample_event <> User.id bob
      /\ exists detail,
           serve sample [] bob (PUT_event 1 retitle)
           = (Raise (HTTPException 403 detail), sample))
  /\ (event_scope (GET_event 0) = Some 0
      /\ ~ path_valid (GET_event 0)
      /\ serve sample [] alice (GET_event 0) = (Raise RequestValidationError, sample)).
Proof.
  assert (path_valid (GET_event 5)) as Hv by (simpl; lia).
  assert (Event.owner_id sample_event <> User.id bob) as Hs by (simpl; lia).
  assert (~ path_valid (GET_event 0)) as Hn by (simpl; lia).
  split; [|split].
  - do 3 (split; [reflexivity || exact Hv|]).
    exact (proj1 (event_scope_checks sample [] alice (GET_event 5) 5 eq_refl)
                 Hv eq_refl).
  - do 4 (split; [reflexivity || exact I || exact Hs|]).
    exact (proj1 (proj2 (event_scope_checks sample [] bob (PUT_event 1 retitle) 1
                           eq_refl))
                 I sample_event eq_refl Hs).
  - do 2 (split; [reflexivity || exact Hn|]).
    exact (proj2 (proj2 (event_scope_checks sample [] alice (GET_event 0) 0 eq_refl))
                 Hn).
Defined.

(** The hypotheses of C5 hold on the small database, and so does its
    conclusion. *)
Lemma update_applies_partial_witness :
  event_by_id 1 sample = Some sample_event
  /\ Event.owner_id sample_event = User.id alice
  /\ commits []
  /\ exists db_event nv st',
       serve sample [] alice (PUT_event 1 retitle) = (Return (EventOut db_event), st')
       /\ event_by_id 1 st' = Some db_event
       /\ Event.id db_event = 1
       /\ Event.owner_id db_event = Event.owner_id sample_event
       /\ (forall f,
             getattr (Event.fields db_event) f
             = match requested retitle f with
               | Some v => v
               | None => getattr (Event.fields sample_event) f
               end)
       /\ event_versions st' = event_versions sample ++ [nv]
       /\ EventVersion.event_id nv = Some 1
       /\ (forall f, getattr (EventVersion.fields nv) f
                     = getattr (Event.fields db_event) f)
       /\ EventVersion.modified_by_id nv = User.id alice.
Proof.
  do 3 (split; [reflexivity|]).
  apply (update_applies_partial sample [] alice 1 retitle sample_event);
    reflexivity.
Defined.

(** The hypotheses of C6 hold on the small database, and so does its
    conclusion. *)
Lemma share_all_or_nothing_witness :
  event_by_id 1 sample = Some sample_event
  /\ Event.owner_id sample_event = User.id alice
  /\ In (PermissionCreate.mk 7 VIEWER)
        [PermissionCreate.mk 2 EDITOR; PermissionCreate.mk 7 VIEWER]
  /\ user_by_id 7 sample = None
  /\ exists q,
       In q [PermissionCreate.mk 2 EDITOR; PermissionCreate.mk 7 VIEWER]
       /\ user_by_id (PermissionCreate.user_id q) sample = None
       /\ serve sample [] alice
                (POST_share 1 [PermissionCreate.mk 2 EDITOR;
                               PermissionCreate.mk 7 VIEWER])
          = (Raise (user_not_found q), sample).
Proof.
  assert (In (PermissionCreate.mk 7 VIEWER)
             [PermissionCreate.mk 2 EDITOR; PermissionCreate.mk 7 VIEWER]) as Hin
      by (simpl; auto).
  do 4 (split; [reflexivity || exact Hin|]).
  exact (share_all_or_nothing sample [] alice 1
           [PermissionCreate.mk 2 EDITOR; PermissionCreate.mk 7 VIEWER]
           sample_event (PermissionCreate.mk 7 VIEWER)
           eq_refl eq_refl Hin eq_refl).
Defined.

(** The hypotheses of C7 hold on the small database, and so does its
    conclusion. *)
Lemma diff_fieldwise_witness :
  event_by_id 1 sample = Some sample_event
  /\ Event.owner_id sample_event = User.id alice
  /\ (forall va vb,
        version_by_number 1 1 sample = Some va ->
        version_by_number 1 2 sample = Some vb ->
        exists fs,
          serve sample [] alice (GET_diff 1 1 2)
          = (Return (DiffOut 1 2 (map (diff_entry va vb) fs)), sample)
          /\ fs = filter (differsb va vb) tracked_fields
          /\ (forall f, In f fs <-> differs va vb f))
  /\ (version_by_number 1 1 sample = None \/ version_by_number 1 2 sample = None ->
      serve sample [] alice (GET_diff 1 1 2)
      = (Raise (HTTPException 404 "One or both versions not found"), sample)).
Proof.
  do 2 (split; [reflexivity|]).
  apply (diff_fieldwise sample [] alice 1 1 2 sample_event); reflexivity.
Defined.

(** The hypotheses of C8 hold on the small database, and so does its
    conclusion. *)
Lemma diff_swap_and_self_witness :
  event_by_id 1 sample = Some sample_event
  /\ Event.owner_id sample_event = User.id alice
  /\ version_by_number 1 1 sample = Some sample_v1
  /\ version_by_number 1 2 sample = Some sample_v2
  /\ (exists ds,
        serve sample [] alice (GET_diff 1 1 2) = (Return (DiffOut 1 2 ds), sample)
        /\ serve sample [] alice (GET_diff 1 2 1)
           = (Return (DiffOut 2 1 (map swap ds)), sample)
        /\ map field (map swap ds) = map field ds)
  /\ serve sample [] alice (GET_diff 1 1 1) = (Return (DiffOut 1 1 []), sample).
Proof.
  do 4 (split; [reflexivity|]).
  apply (diff_swap_and_self sample [] alice 1 1 2 sample_event sample_v1 sample_v2);
    reflexivity.
Defined.

(** The hypotheses of C9 hold on the small database, and so does its
    conclusion. *)
Lemma regrant_replaces_witness :
  reachable sample
  /\ event_by_id 1 sample = Some sample_event
  /\ Event.owner_id sample_event = User.id alice
  /\ user_by_id 2 sample <> None
  /\ commits []
  /\ (let st1 := snd (serve sample [] alice
                        (POST_share 1 [PermissionCreate.mk 2 EDITOR])) in
      let st2 := snd (serve st1 [] alice
                        (POST_share 1 [PermissionCreate.mk 2 VIEWER])) in
      let st12 := snd (serve sample [] alice
                         (POST_share 1 [PermissionCreate.mk 2 EDITOR;
                                        PermissionCreate.mk 2 VIEWER])) in
      grants_of 1 2 st1 = [Permission.mk 1 2 EDITOR]
      /\ grants_of 1 2 st2 = [Permission.mk 1 2 VIEWER]
      /\ List.length (event_permissions st2) = List.length (event_permissions st1)
      /\ grants_of 1 2 st12 = [Permission.mk 1 2 VIEWER]).
Proof.
  assert (reachable sample) as Hr
      by (exists [alice; bob], sample_calls; reflexivity).
  assert (user_by_id 2 sample <> None) as Hu by (simpl; discriminate).
  do 5 (split; [reflexivity || exact Hr || exact Hu|]).
  exact (regrant_replaces sample [] [] alice 1 sample_event 2 EDITOR VIEWER
           Hr eq_refl eq_refl Hu eq_refl eq_refl).
Defined.

(** The hypotheses of C10 hold on the small database, and so does its
    conclusion. *)
Lemma empty_update_appends_witness :
  reachable sample
  /\ event_by_id 1 sample = Some sample_event
  /\ Event.owner_id sample_event = User.id alice
  /\ commits []
  /\ exists nv st',
       serve sample [] alice (PUT_event 1 empty_update)
       = (Return (EventOut sample_event), st')
       /\ events st' = events sample
       /\ event_permissions st' = event_permissions sample
       /\ event_versions st' = event_versions sample ++ [nv]
       /\ EventVersion.event_id nv = Some 1
       /\ (forall v, In v (versions_of 1 sample) ->
             EventVersion.version_number v < EventVersion.version_number nv)
       /\ (forall cv, latest_version 1 sample = Some cv ->
             EventVersion.version_number nv = EventVersion.version_number cv + 1
             /\ EventVersion.fields nv = EventVersion.fields cv).
Proof.
  assert (reachable sample) as Hr
      by (exists [alice; bob], sample_calls; reflexivity).
  do 4 (split; [reflexivity || exact Hr|]).
  exact (empty_update_appends sample [] alice 1 sample_event
           Hr eq_refl eq_refl eq_refl).
Defined.

(* ================================================================== *)
(** ** The further properties on the small database                     *)
(* ================================================================== *)

(** X1 on the small database: a valid page, and a rejected one. *)
Lemma list_events_only_own_witness :
  (page_valid 0 10
   /\ exists es,
        serve sample [] alice (GET_events 0 10 None None)
        = (Return (EventsOut es), sample)
        /\ Z.of_nat (List.length es) <= 10
        /\ forall e, In e es ->
             In e (events sample)
             /\ Event.owner_id e = User.id alice
             /\ (forall d, None = Some d ->
                   exists t, Fields.start_time (Event.fields e) = Some t /\ d <= t)
             /\ (forall d, None = Some d ->
                   exists t, Fields.end_time (Event.fields e) = Some t /\ t <= d))
  /\ (~ page_valid 0 0
      /\ serve sample [] alice (GET_events 0 0 None None)
         = (Raise RequestValidationError, sample)).
Proof.
  assert (page_valid 0 10) as Hv by (unfold page_valid; lia).
  assert (~ page_valid 0 0) as Hn by (unfold page_valid; lia).
  split; (split; [assumption|]).
  - exact (proj1 (list_events_only_own sample [] alice 0 10 None None) Hv).
  - exact (proj2 (list_events_only_own sample [] alice 0 0 None None) Hn).
Defined.

(** X2 on the small database. *)
Lemma list_events_pages_witness :
  0 <= 0 /\ 1 <= 1 /\ 1 <= 2 /\ 1 + 2 <= 100
  /\ (exists es1 es2,
        serve sample [] alice (GET_events 0 1 None None)
        = (Return (EventsOut es1), sample)
        /\ serve sample [] alice (GET_events (0 + 1) 2 None None)
           = (Return (EventsOut es2), sample)
        /\ serve sample [] alice (GET_events 0 (1 + 2) None None)
           = (Return (EventsOut (es1 ++ es2)), sample))
  /\ ((List.length (filter (listed alice None None) (events sample)) <= 100)%nat ->
      serve sample [] alice (GET_events 0 100 None None)
      = (Return (EventsOut (filter (listed alice None None) (events sample))),
         sample)).
Proof.
  do 4 (split; [lia|]).
  apply (list_events_pages sample [] alice 0 1 2 None None); lia.
Defined.

(** X3 on the small database. *)
Lemma delete_event_effect_witness :
  event_by_id 1 sample = Some sample_event
  /\ Event.owner_id sample_event = User.id alice
  /\ commits []
  /\ exists st',
       serve sample [] alice (DELETE_event 1)
       = (Return (MessageOut "Event deleted successfully"), st')
       /\ event_by_id 1 st' = None
       /\ versions_of 1 st' = []
       /\ permissions_of 1 st' = []
       /\ map content (event_versions st') = map content (event_versions sample)
       /\ (forall e, e <> 1 ->
             event_by_id e st' = event_by_id e sample
             /\ versions_of e st' = versions_of e sample
             /\ permissions_of e st' = permissions_of e sample)
       /\ (forall calls plan' caller req,
             Forall (fun c => single_commit (request c)) calls ->
             event_scope req = Some 1 ->
             path_valid req ->
             serve (snd (run calls st')) plan' caller req
             = (Raise (HTTPException 404 "Event not found"), snd (run calls st'))).
Proof.
  do 3 (split; [reflexivity|]).
  apply (delete_event_effect sample [] alice 1 sample_event); reflexivity.
Defined.

(** X4 on the small database: Bob's update of Alice's event. *)
Lemma raise_leaves_store_witness :
  single_commit (PUT_event 1 retitle)
  /\ fst (serve sample [] bob (PUT_event 1 retitle))
     = Raise (HTTPException 403 "Not authorized to update this event")
  /\ snd (serve sample [] bob (PUT_event 1 retitle)) = sample.
Proof.
  split; [exact I|]. split; [reflexivity|].
  exact (raise_leaves_store sample [] bob (PUT_event 1 retitle)
           (HTTPException 403 "Not authorized to update this event") I eq_refl).
Defined.

(** X5 on the small database: a batch of two, and its failure half-way. *)
Lemma batch_as_single_creates_witness :
  (all_true []
   /\ serve sample [] alice (POST_events_batch [standup; standup])
      = (Return (EventsOut
                   (created_events
                      (fst (run (one_by_one alice [standup; standup]) sample)))),
         snd (run (one_by_one alice [standup; standup]) sample)))
  /\ serve sample [true; true; false] alice (POST_events_batch [standup; standup])
     = (Raise StorageError, snd (serve sample [] alice (POST_events standup))).
Proof.
  assert (all_true []) as Ht by constructor.
  split; [split; [exact Ht|]|].
  - exact (proj1 (batch_as_single_creates sample [] alice [standup; standup]) Ht).
  - exact (proj2 (batch_as_single_creates sample [true; true; false] alice
                    [standup; standup])
                 standup standup [] [] eq_refl eq_refl).
Defined.

(** X6 on the small database. *)
Lemma changelog_ascending_witness :
  event_by_id 1 sample = Some sample_event
  /\ Event.owner_id sample_event = User.id alice
  /\ exists cl,
       serve sample [] alice (GET_changelog 1) = (Return (ChangelogOut cl), sample)
       /\ StronglySorted Z.le (map version cl)
       /\ Permutation cl (map (changelog_entry sample) (versions_of 1 sample))
       /\ (forall n, version_numbers 1 sample = one_to n ->
             cl = map (changelog_entry sample) (versions_of 1 sample)
             /\ map version cl = one_to n).
Proof.
  do 2 (split; [reflexivity|]).
  apply (changelog_ascending sample [] alice 1 sample_event); reflexivity.
Defined.

(** X7 on the small database. *)
Lemma create_then_read_witness :
  reachable sample
  /\ all_true []
  /\ exists ev v1 st',
       serve sample [] alice (POST_events standup) = (Return (EventOut ev), st')
       /\ 0 < Event.id ev
       /\ event_by_id (Event.id ev) sample = None
       /\ Event.owner_id ev = User.id alice
       /\ Event.fields ev = EventCreate.dict standup
       /\ events st' = events sample ++ [ev]
       /\ event_versions st' = event_versions sample ++ [v1]
       /\ event_permissions st' = event_permissions sample
       /\ EventVersion.fields v1 = EventCreate.dict standup
       /\ EventVersion.modified_by_id v1 = User.id alice
       /\ serve st' [] alice (GET_history (Event.id ev) 1)
          = (Return (VersionOut v1), st')
       /\ exists ps,
            serve st' [] alice (GET_event (Event.id ev))
            = (Return (EventWithPermissionsOut ev ps), st').
Proof.
  assert (reachable sample) as Hr
      by (exists [alice; bob], sample_calls; reflexivity).
  assert (all_true []) as Ht by constructor.
  split; [exact Hr|]. split; [exact Ht|].
  exact (create_then_read sample [] [] alice standup Hr Ht).
Defined.

(** X8 on the small database. *)
Lemma update_then_diff_witness :
  reachable sample
  /\ event_by_id 1 sample = Some sample_event
  /\ Event.owner_id sample_event = User.id alice
  /\ latest_version 1 sample = Some sample_v2
  /\ commits []
  /\ exists db_event nv st',
       serve sample [] alice (PUT_event 1 relocate) = (Return (EventOut db_event), st')
       /\ EventVersion.version_number nv = EventVersion.version_number sample_v2 + 1
       /\ EventVersion.fields sample_v2 = Event.fields sample_event
       /\ EventVersion.fields nv = Event.fields db_event
       /\ serve st' [] alice
                (GET_diff 1 (EventVersion.version_number sample_v2)
                          (EventVersion.version_number nv))
          = (Return (DiffOut (EventVersion.version_number sample_v2)
                             (EventVersion.version_number nv)
                             (map (diff_entry sample_v2 nv)
                                  (filter (changed_by relocate
                                                      (Event.fields sample_event))
                                          tracked_fields))),
             st').
Proof.
  assert (reachable sample) as Hr
      by (exists [alice; bob], sample_calls; reflexivity).
  split; [exact Hr|]. do 4 (split; [reflexivity|]).
  exact (update_then_diff sample [] [] alice 1 relocate sample_event sample_v2
           Hr eq_refl eq_refl eq_refl eq_refl).
Defined.

(** X9 on the small database. *)
Lemma rollback_then_diff_empty_witness :
  event_by_id 1 sample = Some sample_event
  /\ Event.owner_id sample_event = User.id alice
  /\ version_by_number 1 1 sample = Some sample_v1
  /\ commits []
  /\ exists db_event nv st',
       serve sample [] alice (POST_rollback 1 1) = (Return (EventOut db_event), st')
       /\ latest_version 1 st' = Some nv
       /\ serve st' [] alice (GET_diff 1 1 (EventVersion.version_number nv))
          = (Return (DiffOut 1 (EventVersion.version_number nv) []), st').
Proof.
  do 4 (split; [reflexivity|]).
  apply (rollback_then_diff_empty sample [] [] alice 1 1 sample_event sample_v1);
    reflexivity.
Defined.

(** X11 on the small database: Bob asks to delete Alice's event. *)
Lemma other_owners_untouched_witness :
  event_by_id 1 sample = Some sample_event
  /\ Event.owner_id sample_event <> User.id bob
  /\ untouched 1 sample_event sample (snd (serve sample [] bob (DELETE_event 1)))
  /\ (forall ev',
        event_by_id 1 (snd (serve sample [] bob (DELETE_event 1))) = Some ev' ->
        Event.owner_id ev' = Event.owner_id sample_event).
Proof.
  assert (Event.owner_id sample_event <> User.id bob) as Hs by (simpl; lia).
  split; [reflexivity|]. split; [exact Hs|].
  destruct (other_owners_untouched sample [] bob (DELETE_event 1) 1 sample_event
              eq_refl) as [H1 H2].
  split; [exact (H1 Hs)|exact H2].
Defined.

(** X12 on the small database. *)
Lemma share_last_entry_wins_witness :
  reachable sample
  /\ event_by_id 1 sample = Some sample_event
  /\ Event.owner_id sample_event = User.id alice
  /\ Forall (known_user sample)
            [PermissionCreate.mk 2 EDITOR; PermissionCreate.mk 2 VIEWER]
  /\ commits []
  /\ exists st',
       serve sample [] alice
             (POST_share 1 [PermissionCreate.mk 2 EDITOR; PermissionCreate.mk 2 VIEWER])
       = (Return (ShareOut "Event shared successfully"
                           (map permission_out (permissions_of 1 st'))), st')
       /\ (forall user_id,
             grants_of 1 user_id st'
             = match last_role [PermissionCreate.mk 2 EDITOR;
                                PermissionCreate.mk 2 VIEWER] user_id with
               | Some r => [Permission.mk 1 user_id r]
               | None => grants_of 1 user_id sample
               end)
       /\ (forall e, e <> 1 -> permissions_of e st' = permissions_of e sample)
       /\ events st' = events sample
       /\ event_versions st' = event_versions sample.
Proof.
  assert (reachable sample) as Hr
      by (exists [alice; bob], sample_calls; reflexivity).
  assert (Forall (known_user sample)
                 [PermissionCreate.mk 2 EDITOR; PermissionCreate.mk 2 VIEWER]) as Hk
      by (repeat constructor; unfold known_user; simpl; discriminate).
  split; [exact Hr|]. do 2 (split; [reflexivity|]).
  split; [exact Hk|]. split; [reflexivity|].
  exact (share_last_entry_wins sample [] alice 1
           [PermissionCreate.mk 2 EDITOR; PermissionCreate.mk 2 VIEWER]
           sample_event Hr eq_refl eq_refl Hk eq_refl).
Defined.


(** X14 on the small database: Carol registers, a second Alice does not. *)
Lemma register_keeps_unique_witness :
  (users_unique sample
   /\ users_unique (snd (serve_register sample_hash sample [] carol)))
  /\ (user_by_username (UserCreate.username alice_again) sample <> None
      /\ serve_register sample_hash sample [] alice_again
         = (Raise (HTTPException 400 "Username already registered"), sample))
  /\ (user_by_username (UserCreate.username carol) sample = None
      /\ user_by_email (UserCreate.email carol) sample = None
      /\ commits []
      /\ exists db_user st',
           serve_register sample_hash sample [] carol = (Return db_user, st')
           /\ users st' = users sample ++ [db_user]
           /\ ~ In (User.id db_user) (map User.id (users sample))
           /\ User.username db_user = UserCreate.username carol
           /\ User.email db_user = UserCreate.email carol
           /\ User.hashed_password db_user
              = sample_hash (UserCreate.password carol)
           /\ events st' = events sample
           /\ event_versions st' = event_versions sample
           /\ event_permissions st' = event_permissions sample
           /\ forall plan' user',
                UserCreate.username user' = UserCreate.username carol ->
                serve_register sample_hash st' plan' user'
                = (Raise (HTTPException 400 "Username already registered"), st')).
Proof.
  assert (users_unique sample) as Hu.
  { unfold users_unique. simpl.
    repeat split; repeat constructor; simpl; intuition (discriminate || lia). }
  assert (user_by_username (UserCreate.username alice_again) sample <> None) as Ha
      by (simpl; discriminate).
  split; [split; [exact Hu|]|split; [split; [exact Ha|]|]].
  - exact (proj1 (register_keeps_unique sample_hash sample [] carol) Hu).
  - exact (proj1 (proj2 (register_keeps_unique sample_hash sample [] alice_again)) Ha).
  - do 3 (split; [reflexivity|]).
    exact (proj2 (proj2 (proj2 (register_keeps_unique sample_hash sample [] carol)))
                 eq_refl eq_refl eq_refl).
Defined.

(** X15 on the small database. *)
Lemma get_event_lists_grants_witness :
  reachable sample
  /\ 0 < 1
  /\ event_by_id 1 sample = Some sample_event
  /\ Event.owner_id sample_event = User.id alice
  /\ (exists ps,
        serve sample [] alice (GET_event 1)
        = (Return (EventWithPermissionsOut sample_event ps), sample)
        /\ NoDup (map fst ps)
        /\ forall user_id role,
             In (user_id, role) ps
             <-> In (Permission.mk 1 user_id role) (event_permissions sample))
  /\ (forall permissions msg ps st',
        serve sample [] alice (POST_share 1 permissions)
        = (Return (ShareOut msg ps), st') ->
        serve st' [] alice (GET_event 1)
        = (Return (EventWithPermissionsOut sample_event ps), st')).
Proof.
  assert (reachable sample) as Hr
      by (exists [alice; bob], sample_calls; reflexivity).
  assert (0 < 1) as Hp by lia.
  split; [exact Hr|]. split; [exact Hp|]. do 2 (split; [reflexivity|]).
  exact (get_event_lists_grants sample [] [] alice 1 sample_event
           Hr Hp eq_refl eq_refl).
Defined.

(** X16 on the database that a half-failed create leaves. *)
Lemma event_without_snapshot_witness :
  snd (serve (init [alice; bob]) [true; false] alice (POST_events standup))
  = sample_half
  /\ event_by_id 1 sample_half = Some (Event.mk 1 (EventCreate.dict standup) 1)
  /\ Event.owner_id (Event.mk 1 (EventCreate.dict standup) 1) = User.id alice
  /\ versions_of 1 sample_half = []
  /\ (commits [] ->
      exists db_event nv st',
        serve sample_half [] alice (PUT_event 1 retitle)
        = (Return (EventOut db_event), st')
        /\ event_versions st' = event_versions sample_half ++ [nv]
        /\ EventVersion.version_number nv = 1
        /\ EventVersion.fields nv = Event.fields db_event
        /\ versions_of 1 st' = [nv])
  /\ (forall n,
        serve sample_half [] alice (GET_history 1 n)
        = (Raise (HTTPException 404 "Version not found"), sample_half)
        /\ serve sample_half [] alice (POST_rollback 1 n)
           = (Raise (HTTPException 404 "Version not found"), sample_half))
  /\ serve sample_half [] alice (GET_changelog 1)
     = (Return (ChangelogOut []), sample_half).
Proof.
  do 4 (split; [reflexivity|]).
  apply (event_without_snapshot sample_half [] alice 1
           (Event.mk 1 (EventCreate.dict standup) 1) retitle); reflexivity.
Defined.

(** X18 on the small database. *)
Lemma version_ledger_exact_witness :
  fault_free sample_calls
  /\ forall e,
       version_numbers e (snd (run sample_calls (init [alice; bob])))
       = one_to (applied e (fst (run sample_calls (init [alice; bob]))))
       /\ (In e (map Event.id (events (snd (run sample_calls (init [alice; bob])))))
           <-> (1 <= applied e (fst (run sample_calls (init [alice; bob]))))%nat).
Proof.
  assert (fault_free sample_calls) as H by (repeat constructor).
  split; [exact H|].
  exact (version_ledger_exact [alice; bob] sample_calls H).
Defined.

(** X19 on the small database: Alice sets the title of the stand-up to
    null. *)
Lemma null_committed_before_response_witness :
  event_by_id 1 sample = Some sample_event
  /\ Event.owner_id sample_event = User.id alice
  /\ commits []
  /\ In f_title required_fields
  /\ requested untitle f_title = Some None
  /\ exists db_event nv st',
       serve sample [] alice (PUT_event 1 untitle)
       = (Return (EventOut db_event), st')
       /\ event_by_id 1 st' = Some db_event
       /\ getattr (Event.fields db_event) f_title = None
       /\ fits_response db_event = false
       /\ event_versions st' = event_versions sample ++ [nv]
       /\ EventVersion.event_id nv = Some 1
       /\ getattr (EventVersion.fields nv) f_title = None
       /\ st' <> sample.
Proof.
  do 3 (split; [reflexivity|]).
  split; [simpl; auto|]. split; [reflexivity|].
  apply (null_committed_before_response sample [] alice 1 untitle sample_event
           f_title); [reflexivity|reflexivity|reflexivity|simpl; auto|reflexivity].
Defined.
